(** * LocalRouter connectors: the session supervisor, in Rocq

    A shallow embedding of the TypeScript sources of the three packages
    [mcp-base], [claude-code-mcp] and [codex]:

    - [JsNumber], [JsString], [JsArray], [Json], [JsMap]: the fragments
      of the JavaScript runtime the sources rely on (numbers and the way
      they print, string slicing and trimming, array slicing, JSON values
      and their string conversions, insertion-ordered [Map]s);
    - [AnswerParser]: mcp-base/src/answer-parser.ts;
    - [EventBuffer]: mcp-base/src/event-buffer.ts;
    - [ClaudeStreamParser], [CodexStreamParser]: [parseEvent] of the two
      stream-parser.ts;
    - [Claude]: claude-code-mcp/src/permission-manager.ts and
      session-manager.ts, as a transition system over the state of a
      running connector ([listSessions], which reads the file system, is
      left out);
    - [ClaudeProcess]: [sendMessage] of
      claude-code-mcp/src/process-manager.ts;
    - [Codex]: codex/src/approval-manager.ts, the [QuestionManager] of
      mcp-base/src/question-manager.ts, [sendApprovalResponse] of
      codex/src/process-manager.ts, and codex/src/session-manager.ts, as
      a transition system as well ([listSessions] and
      [scanSessionDirectory] are left out).

    Promises, timers and child processes belong to the runtime: a promise
    is modelled by its settled value, a timer by its closure and whether
    it is still armed, a process by its handle and the effects the
    connector has on it.  What a call gets from the runtime is an
    argument of its model: the clock, the working directory
    ([process.cwd()], taken to return), the handle of a spawned process
    or the fact that the spawn throws, and whether a stdin can be
    written.  The first half of the file holds the model, the second
    half the lemmas and the theorems about it. *)

From Stdlib Require Import ZArith Lia Bool Ascii String.
From Stdlib Require DecimalString.
From stdpp Require Import base option list strings gmap.

Local Open Scope Z_scope.

Set Warnings "-register-all".

(* ===================================================================== *)
(** * Part I: the model                                                   *)
(* ===================================================================== *)

(** ** JavaScript numbers

    A Number is a double.  [Finite negative m e] is the value
    [(-1)^negative * m * 2^e]; a double has [0 <= m < 2^53] and
    [-1074 <= e <= 971], and [m = 0] is one of the two zeros.
    [JSON.parse] yields the infinities for a literal that is too large
    (1e999); NaN is no JSON value, the type has it for completeness.
    [ofZ] and [ofDecimal] give the double of an integer and of a decimal
    literal, [toString] the text JavaScript prints for a double. *)
Module JsNumber.

Inductive t :=
| Finite (negative : bool) (mantissa : Z) (exponent : Z)
| Infinity (negative : bool)
| NaN.

Definition minExponent : Z := -1074.

Definition maxExponent : Z := 971.

(** The mantissa and the exponent of the format: the mantissa is in
    [2^52, 2^53), or the exponent is the smallest one (a subnormal
    number). *)
Definition normalize (m e : Z) : Z * Z :=
  let b := Z.log2 m in
  if b <? 52 then
    let d := Z.max 0 (Z.min (52 - b) (e - minExponent)) in
    (Z.shiftl m d, e - d)
  else
    let d := b - 52 in
    if m mod 2 ^ d =? 0 then (m / 2 ^ d, e + d) else (m, e).

(** The Number value for the integer [z]: the double nearest to [z], the
    one with the even mantissa when two are as near; an integer that is
    a double is its own Number value. *)
Definition ofZ (z : Z) : t :=
  let a := Z.abs z in
  let b := Z.log2 a in
  if b <? 53 then Finite (z <? 0) a 0
  else
    let d := b - 52 in
    let q := a / 2 ^ d in
    let r := a mod 2 ^ d in
    let half := 2 ^ (d - 1) in
    let q := if (half <? r) || ((r =? half) && Z.odd q) then q + 1 else q in
    let '(q, d) := if q =? 2 ^ 53 then (2 ^ 52, d + 1) else (q, d) in
    if d >? maxExponent then Infinity (z <? 0) else Finite (z <? 0) q d.


(** The decimal digits of an integer that is not negative. *)
Definition digits (n : Z) : string :=
  DecimalString.NilZero.string_of_int (Z.to_int n).

(** [s * 10^p] compared with [q * 2^x], exactly. *)
Definition compareScaled (s p q x : Z) : comparison :=
  (Z.shiftl (s * 10 ^ Z.max p 0) (Z.max (- x) 0)
     ?= Z.shiftl q (Z.max x 0) * 10 ^ Z.max (- p) 0).

Fixpoint adjustExponent (fuel : nat) (m e n : Z) : Z :=
  match fuel with
  | O => n
  | S fuel' =>
      match compareScaled 1 n m e with
      | Gt =>
          match compareScaled 1 (n - 1) m e with
          | Gt => adjustExponent fuel' m e (n - 1)
          | _ => n
          end
      | _ => adjustExponent fuel' m e (n + 1)
      end
  end.

(** The [n] with [10^(n-1) <= m * 2^e < 10^n], from an estimate by the
    binary logarithm that is off by two at most. *)
Definition decimalExponent (m e : Z) : Z :=
  adjustExponent 8 m e ((Z.log2 m + e) * 30103 / 100000 + 1).

(** [s * 10^p] is read back as the double [m * 2^e]: it lies between the
    midpoints to the two neighbours of the double, a midpoint itself
    counting when the mantissa is even.  In units of a quarter of
    [2^e]; below a power of two the neighbour is half as far. *)
Definition roundsTo (m e s p : Z) : bool :=
  let low :=
    if (m =? 2 ^ 52) && (e >? minExponent) then 4 * m - 1 else 4 * m - 2 in
  let high := 4 * m + 2 in
  let closed := Z.even m in
  match compareScaled s p low (e - 2) with
  | Gt => true
  | Eq => closed
  | Lt => false
  end
  &&
  match compareScaled s p high (e - 2) with
  | Lt => true
  | Eq => closed
  | Gt => false
  end.

(** The [s] of [k] digits for which [s * 10^(n-k)] is read back as the
    double, the nearest to the double if there are two, the even one if
    both are as near. *)
Definition candidate (m e n k : Z) : option Z :=
  let p := n - k in
  let s0 := (Z.shiftl m (Z.max e 0) * 10 ^ Z.max (- p) 0)
              / Z.shiftl (10 ^ Z.max p 0) (Z.max (- e) 0) in
  let s1 := s0 + 1 in
  match roundsTo m e s0 p, roundsTo m e s1 p with
  | true, false => Some s0
  | false, true => Some s1
  | true, true =>
      match compareScaled (2 * s0 + 1) p (2 * m) e with
      | Gt => Some s0
      | Lt => Some s1
      | Eq => Some (if Z.even s0 then s0 else s1)
      end
  | false, false => None
  end.

(** The least number of digits [k] that has a candidate, from [k] on;
    seventeen digits tell any two doubles apart. *)
Fixpoint shortest (fuel : nat) (m e n k : Z) : Z * Z :=
  match candidate m e n k with
  | Some s => (s, k)
  | None =>
      match fuel with
      | O => (Z.shiftl m (Z.max e 0) * 10 ^ Z.max (k - n) 0
                / Z.shiftl (10 ^ Z.max (n - k) 0) (Z.max (- e) 0), k)
      | S fuel' => shortest fuel' m e n (k + 1)
      end
  end.

Fixpoint zeros (n : nat) : string :=
  match n with
  | O => EmptyString
  | S n' => String "0" (zeros n')
  end.

(** The notation of the value [0.ds * 10^n] ([ds] the digits): plain up
    to 21 digits before the point and 6 zeros after it, with an exponent
    beyond. *)
Definition format (ds : string) (n : Z) : string :=
  let k := Z.of_nat (String.length ds) in
  if (k <=? n) && (n <=? 21) then
    ds +:+ zeros (Z.to_nat (n - k))
  else if (0 <? n) && (n <=? 21) then
    substring 0 (Z.to_nat n) ds +:+ "."
      +:+ substring (Z.to_nat n) (Z.to_nat (k - n)) ds
  else if (-6 <? n) && (n <=? 0) then
    "0." +:+ zeros (Z.to_nat (- n)) +:+ ds
  else
    let sign : string := if n - 1 <? 0 then "-" else "+" in
    let exponent := sign +:+ digits (Z.abs (n - 1)) in
    if k =? 1 then ds +:+ "e" +:+ exponent
    else substring 0 1 ds +:+ "." +:+ substring 1 (Z.to_nat (k - 1)) ds
           +:+ "e" +:+ exponent.

(** [String(v)], that is [Number::toString] in radix 10: the shortest
    decimal that is read back as the same double. *)
Definition toString (v : t) : string :=
  match v with
  | NaN => "NaN"
  | Infinity negative => if negative then "-Infinity" else "Infinity"
  | Finite negative mantissa exponent =>
      if mantissa <=? 0 then "0"
      else
        let '(m, e) := normalize mantissa exponent in
        let n := decimalExponent m e in
        let '(s, k) := shortest 20 m e n 1 in
        let '(ds, n) :=
          if s =? 10 ^ k then ("1"%string, n + 1) else (digits s, n) in
        let sign : string := if negative then "-" else "" in
        sign +:+ format ds n
  end.

(** Truthiness: the zeros and NaN are falsy. *)
Definition truthy (v : t) : bool :=
  match v with
  | Finite _ mantissa _ => negb (mantissa =? 0)
  | Infinity _ => true
  | NaN => false
  end.

Definition isFinite (v : t) : bool :=
  match v with
  | Finite _ _ _ => true
  | _ => false
  end.

End JsNumber.

(** ** JavaScript strings

    A JavaScript string is a sequence of UTF-16 code units.  The model is
    Rocq's [string], each [ascii] standing for one code unit in the range
    0..255 (Latin-1); code units above 255 are outside the model. *)
Module JsString.

(** [String.prototype.length]. *)
Definition length (s : string) : Z := Z.of_nat (String.length s).

(** White space and line terminators, as [String.prototype.trim] strips
    them, among the code units 0..255: TAB, LF, VT, FF, CR, SP and NBSP. *)
Definition isWhiteSpace (c : ascii) : bool :=
  let n := N_of_ascii c in
  ((9 <=? n) && (n <=? 13) || (n =? 32) || (n =? 160))%N.

Fixpoint indexOfFrom (c : ascii) (s : string) (i : Z) : Z :=
  match s with
  | EmptyString => -1
  | String a s' => if Ascii.eqb a c then i else indexOfFrom c s' (i + 1)
  end.

(** [s.indexOf(c)] for a one-character search string: the index of the
    first occurrence, or -1. *)
Definition indexOf (s : string) (c : ascii) : Z := indexOfFrom c s 0.

(** The clamping of a relative index that [slice] applies to both of its
    arguments: a negative index counts from the end. *)
Definition relativeIndex (len k : Z) : Z :=
  if k <? 0 then Z.max (len + k) 0 else Z.min k len.

(** [s.slice(start, stop)]; [stop = None] is the one-argument call. *)
Definition slice (s : string) (start : Z) (stop : option Z) : string :=
  let len := length s in
  let from := relativeIndex len start in
  let to := match stop with Some e => relativeIndex len e | None => len end in
  substring (Z.to_nat from) (Z.to_nat (Z.max (to - from) 0)) s.

Fixpoint trimStart (s : string) : string :=
  match s with
  | EmptyString => EmptyString
  | String a s' => if isWhiteSpace a then trimStart s' else s
  end.

Fixpoint trimEnd (s : string) : string :=
  match s with
  | EmptyString => EmptyString
  | String a s' =>
      match trimEnd s' with
      | EmptyString => if isWhiteSpace a then EmptyString else String a EmptyString
      | t => String a t
      end
  end.

(** [s.trim()]. *)
Definition trim (s : string) : string := trimEnd (trimStart s).

(** [s.startsWith(p)]. *)
Definition startsWith (s p : string) : bool := String.prefix p s.

(** [String(n)] for the Number whose value is the integer [n]: all the
    digits of an integer below 2^53, which is where a clock value and an
    exit code are. *)
Definition ofNumber (n : Z) : string := JsNumber.toString (JsNumber.ofZ n).

(** [`${code}`] for [code: number | null]. *)
Definition ofExitCode (code : option Z) : string :=
  match code with
  | Some c => ofNumber c
  | None => "null"
  end.

Fixpoint join (sep : string) (parts : list string) : string :=
  match parts with
  | [] => ""%string
  | [p] => p
  | p :: rest => p +:+ sep +:+ join sep rest
  end.

(** *** Vocabulary for the statements about strings *)

(** The character [c] occurs in [s]. *)
Fixpoint occurs (c : ascii) (s : string) : Prop :=
  match s with
  | EmptyString => False
  | String a s' => a = c \/ occurs c s'
  end.

Definition firstChar (s : string) : option ascii :=
  match s with
  | EmptyString => None
  | String a _ => Some a
  end.

Fixpoint lastChar (s : string) : option ascii :=
  match s with
  | EmptyString => None
  | String a EmptyString => Some a
  | String _ s' => lastChar s'
  end.

(** [s] has no leading and no trailing white space. *)
Definition noOuterWhiteSpace (s : string) : Prop :=
  (forall c, firstChar s = Some c -> isWhiteSpace c = false) /\
  (forall c, lastChar s = Some c -> isWhiteSpace c = false).

End JsString.

(** ** JavaScript arrays *)
Module JsArray.

(** [l.slice(start)]: from a relative index to the end. *)
Definition slice {T : Type} (l : list T) (start : Z) : list T :=
  let len := Z.of_nat (List.length l) in
  drop (Z.to_nat (JsString.relativeIndex len start)) l.

(** [l.shift()]: the array without its first element. *)
Definition shift {T : Type} (l : list T) : list T := tail l.

End JsArray.

(** ** mcp-base/src/answer-parser.ts *)
Module AnswerParser.

Record ParsedAnswer := { decision : string; reason : option string }.

Definition parseAnswer (answer : string) : ParsedAnswer :=
  let colonIndex := JsString.indexOf answer ":" in
  if colonIndex =? -1 then
    {| decision := JsString.trim answer; reason := None |}
  else
    {| decision := JsString.trim (JsString.slice answer 0 (Some colonIndex));
       reason := Some (JsString.trim (JsString.slice answer (colonIndex + 1) None)) |}.

End AnswerParser.

(** ** mcp-base/src/event-buffer.ts *)
Module EventBuffer.

Section Buffer.
Context {T : Type}.

Record t := { events : list T; maxSize : Z }.

Definition defaultMaxSize : Z := 500.

Definition create (maxSize : Z) : t := {| events := []; maxSize := maxSize |}.

Definition push (b : t) (event : T) : t :=
  let pushed := events b ++ [event] in
  {| events := if Z.of_nat (List.length pushed) >? maxSize b
               then JsArray.shift pushed else pushed;
     maxSize := maxSize b |}.

Definition getRecent (b : t) (n : Z) : list T := JsArray.slice (events b) (- n).

Definition getAll (b : t) : list T := events b.

Definition length (b : t) : Z := Z.of_nat (List.length (events b)).

Definition clear (b : t) : t := {| events := []; maxSize := maxSize b |}.

Definition extract {R : Type} (fn : T -> option R) (count : Z) (b : t) : list R :=
  JsArray.slice (omap fn (events b)) (- count).

(** The buffer after pushing a sequence of events, oldest first. *)
Definition pushAll (b : t) (es : list T) : t := fold_left push es b.

End Buffer.

Arguments t : clear implicits.

End EventBuffer.

(** ** JSON values

    What [JSON.parse] returns for a line of the agent's output.  An
    object is the list of its own properties in the order JavaScript
    enumerates them (the keys that are array indices first, in ascending
    order, then the other keys in insertion order), with distinct keys;
    its prototype is [Object.prototype], whatever its keys are. *)
Module Json.

Inductive json :=
| JNull
| JBool (b : bool)
| JNum (n : JsNumber.t)
| JStr (s : string)
| JArr (items : list json)
| JObj (fields : list (string * json)).

Definition object := list (string * json).

(** [o[k]]; [None] is [undefined]. *)
Fixpoint get (o : object) (k : string) : option json :=
  match o with
  | [] => None
  | (k', v) :: rest => if String.eqb k' k then Some v else get rest k
  end.

(** [k in o]. *)
Definition has (o : object) (k : string) : bool :=
  match get o k with Some _ => true | None => false end.

(** [o[k] = v]: an existing key keeps its place, a new one goes last. *)
Fixpoint set (o : object) (k : string) (v : json) : object :=
  match o with
  | [] => [(k, v)]
  | (k', v') :: rest =>
      if String.eqb k' k then (k', v) :: rest else (k', v') :: set rest k v
  end.

(** [Object.keys(o)]. *)
Definition keys (o : object) : list string := map fst o.

(** Truthiness of a value ([undefined] is falsy). *)
Definition truthy (v : option json) : bool :=
  match v with
  | None | Some JNull => false
  | Some (JBool b) => b
  | Some (JNum n) => JsNumber.truthy n
  | Some (JStr s) => negb (String.eqb s "")
  | Some (JArr _) | Some (JObj _) => true
  end.

(** [String(v)], which is also what a template literal applies; [None]
    when the conversion throws a TypeError.  An object is converted by
    its [toString] method, which is [Object.prototype.toString] unless
    the object has a [toString] property of its own; no JSON value is a
    function, so an object with such a property has no method that
    converts it ([valueOf] gives no primitive value either) and the
    conversion throws.  An array is joined, [null] elements as empty
    strings, the others converted in turn. *)
Fixpoint toString (v : json) : option string :=
  match v with
  | JNull => Some "null"%string
  | JBool true => Some "true"%string
  | JBool false => Some "false"%string
  | JNum n => Some (JsNumber.toString n)
  | JStr s => Some s
  | JArr items =>
      match
        (fix each (l : list json) : option (list string) :=
           match l with
           | [] => Some []
           | x :: l' =>
               match
                 match x with
                 | JNull => Some ""%string
                 | _ => toString x
                 end
               with
               | Some text =>
                   match each l' with
                   | Some texts => Some (text :: texts)
                   | None => None
                   end
               | None => None
               end
           end) items
      with
      | Some texts => Some (JsString.join "," texts)
      | None => None
      end
  | JObj fields =>
      if has fields "toString" then None else Some "[object Object]"%string
  end.

(** [String(v)] where [v] may be [undefined]. *)
Definition toStringU (v : option json) : option string :=
  match v with Some x => toString x | None => Some "undefined"%string end.

Definition hexDigit (n : N) : ascii :=
  ascii_of_N (if (n <? 10)%N then 48 + n else 87 + n)%N.

(** The escape of one code unit inside a JSON string literal. *)
Definition escapeChar (c : ascii) : string :=
  let n := N_of_ascii c in
  let backslash := ascii_of_N 92 in
  if (n =? 34)%N then String backslash (String (ascii_of_N 34) "")
  else if (n =? 92)%N then String backslash (String backslash "")
  else if (n =? 8)%N then String backslash "b"
  else if (n =? 12)%N then String backslash "f"
  else if (n =? 10)%N then String backslash "n"
  else if (n =? 13)%N then String backslash "r"
  else if (n =? 9)%N then String backslash "t"
  else if (n <? 32)%N then
    String backslash
      (String "u" (String "0" (String "0"
         (String (hexDigit (n / 16)) (String (hexDigit (n mod 16)) "")))))
  else String c "".

Fixpoint escape (s : string) : string :=
  match s with
  | EmptyString => ""
  | String c s' => escapeChar c +:+ escape s'
  end.

Definition quote (s : string) : string :=
  String (ascii_of_N 34) (escape s +:+ String (ascii_of_N 34) "").

Definition newline : string := String (ascii_of_N 10) "".

(** [JSON.stringify(v, null, gap)] at the current indentation [indent];
    [gap = ""] is the compact one-argument form. *)
Fixpoint serialize (gap indent : string) (v : json) : string :=
  let stepback := indent in
  let indent := (indent +:+ gap)%string in
  let compact := String.eqb gap "" in
  let separator :=
    if compact then ","%string else ("," +:+ newline +:+ indent)%string in
  let wrap (opening closing : string) (parts : list string) : string :=
    match parts with
    | [] => (opening +:+ closing)%string
    | _ =>
        if compact then
          (opening +:+ JsString.join separator parts +:+ closing)%string
        else
          (opening +:+ newline +:+ indent +:+ JsString.join separator parts
             +:+ newline +:+ stepback +:+ closing)%string
    end in
  match v with
  | JNull => "null"
  | JBool true => "true"
  | JBool false => "false"
  | JNum n => if JsNumber.isFinite n then JsNumber.toString n else "null"
  | JStr s => quote s
  | JArr items =>
      wrap "[" "]"
        ((fix each (l : list json) : list string :=
            match l with
            | [] => []
            | x :: l' => serialize gap indent x :: each l'
            end) items)
  | JObj fields =>
      wrap "{" "}"
        ((fix each (l : list (string * json)) : list string :=
            match l with
            | [] => []
            | (k, x) :: l' =>
                (quote k +:+ (if compact then ":" else ": ")
                   +:+ serialize gap indent x)%string :: each l'
            end) fields)
  end.

(** [JSON.stringify(v)]. *)
Definition stringify (v : json) : string := serialize "" "" v.

(** [JSON.stringify(v, null, 2)]. *)
Definition stringifyPretty (v : json) : string := serialize "  " "" v.

End Json.

(** ** Vocabulary for the statements about JSON values *)
Module JsonProps.
Import Json.

(** The values that [String(v)] throws for: an object with a [toString]
    property of its own, and an array that holds such a value. *)
Inductive notConvertible : json -> Prop :=
| notConvertible_object fields :
    has fields "toString" = true -> notConvertible (JObj fields)
| notConvertible_array items x :
    In x items -> notConvertible x -> notConvertible (JArr items).

End JsonProps.

(** ** JavaScript [Map]s

    A [Map] iterates in insertion order; setting an existing key keeps its
    place, deleting and setting again moves it to the end. *)
Module JsMap.

Section Map.
Context {V : Type}.

Definition t := list (string * V).

Definition empty : t := [].

Fixpoint get (m : t) (k : string) : option V :=
  match m with
  | [] => None
  | (k', v) :: rest => if String.eqb k' k then Some v else get rest k
  end.

Fixpoint set (m : t) (k : string) (v : V) : t :=
  match m with
  | [] => [(k, v)]
  | (k', v') :: rest =>
      if String.eqb k' k then (k', v) :: rest else (k', v') :: set rest k v
  end.

Fixpoint delete (m : t) (k : string) : t :=
  match m with
  | [] => []
  | (k', v') :: rest =>
      if String.eqb k' k then rest else (k', v') :: delete rest k
  end.

(** [m.values()], in iteration order. *)
Definition values (m : t) : list V := map snd m.

End Map.

Arguments t : clear implicits.

End JsMap.

(** ** claude-code-mcp/src/stream-parser.ts: [parseEvent] *)
Module ClaudeStreamParser.
Import Json.

Definition unknownEvent (data : json) : json :=
  JObj [("type"%string, JStr "unknown"); ("raw"%string, data)].

Definition isTypedKind (type : option json) : bool :=
  match type with
  | Some (JStr s) =>
      String.eqb s "init" || String.eqb s "stream_event" || String.eqb s "result"
  | _ => false
  end.

(** An array is an object without a [type] property. *)
Definition parseEvent (data : json) : json :=
  match data with
  | JObj fields =>
      if negb (has fields "type") then unknownEvent data
      else
        let type := get fields "type" in
        if isTypedKind type then data else data
  | _ => unknownEvent data
  end.

End ClaudeStreamParser.

(** ** codex/src/stream-parser.ts: [parseEvent] *)
Module CodexStreamParser.
Import Json.

Definition KNOWN_TYPES : list string :=
  [ "thread.started"; "turn.started"; "turn.completed"; "turn.failed";
    "item.started"; "item.updated"; "item.completed"; "error" ]%string.

(** [KNOWN_TYPES.has(v)]: only a string can be a member. *)
Definition knownType (v : option json) : bool :=
  match v with
  | Some (JStr s) => existsb (String.eqb s) KNOWN_TYPES
  | _ => false
  end.

Definition errorEvent (message : string) : json :=
  JObj [("type"%string, JStr "error"); ("message"%string, JStr message)].

(** [None]: the call throws a TypeError, which the conversion of
    [obj.type] to a string does for a type that is an object with a
    [toString] property of its own. *)
Definition parseEvent (data : json) : option json :=
  match data with
  | JObj fields =>
      if negb (has fields "type") then
        Some (errorEvent ("Unparseable event: " +:+ stringify data))
      else if knownType (get fields "type") then Some data
      else
        match toStringU (get fields "type") with
        | Some type => Some (errorEvent ("Unknown event type: " +:+ type))
        | None => None
        end
  | _ => Some (errorEvent ("Unparseable event: " +:+ stringify data))
  end.

End CodexStreamParser.

(** ** The claude-code-mcp connector *)
Module Claude.
Import Json AnswerParser.

(** *** types.ts

    The declarations of claude-code-mcp/src/types.ts, which the sources
    hold as the last part of claude-code-mcp/PLAN.md. *)

(** [SessionStatus]: the five string literals. *)
Inductive SessionStatus :=
| active | awaiting_input | done | error | interrupted.

(** [QuestionType]. *)
Inductive QuestionType := tool_approval | plan_approval | question.

Inductive Behavior := allow | deny.

(** [PermissionResponse], [{behavior, message?, updatedInput?}]; [None]
    is an absent or [undefined] property. *)
Record PermissionResponse := {
  behavior : Behavior;
  message : option string;
  updatedInput : option object;
}.

Record QuestionItem := {
  item_question : option json;
  item_options : option json;
}.

(** [Omit<PendingQuestion, "resolve">], as [buildQuestion] fills it. *)
Record QuestionData := {
  q_id : string;
  q_type : QuestionType;
  q_toolName : string;
  q_toolInput : object;
  q_questions : list QuestionItem;
}.

(** [PendingQuestion]; [resolve] is the resolver, here the index of the
    promise it settles.  The type declares the question and the options
    of an item as a string and strings; [buildQuestion] copies them from
    the tool input unchecked, so an item holds any JSON value, or
    nothing. *)
Record PendingQuestion := {
  data : QuestionData;
  resolve : nat;
}.

Record PermissionCallbackRequest := {
  req_sessionId : string;
  req_toolName : string;
  req_toolInput : object;
  req_requestId : string;
}.

Record EnvConfig := {
  claudeCodePath : string;
  permissionTimeoutMs : Z;
  maxSessions : Z;
  logLevel : string;
  eventBufferSize : Z;
}.

(** What a function of the connector throws. *)
Inductive Thrown :=
| UnknownSession (sessionId : string)
| NoPendingQuestion (sessionId : string)
| QuestionIdMismatch (expected got : string)
| NoActiveProcess (sessionId : string)
| MaxSessionsReached (maxSessions : Z)
| StdinNotAvailable
| TypeError
| SpawnError.

Inductive result (A : Type) :=
| Ok (a : A)
| Throw (e : Thrown).
Arguments Ok {A} a.
Arguments Throw {A} e.

(** *** permission-manager.ts *)

Definition classifyRequest (toolName : string) : QuestionType :=
  if String.eqb toolName "ExitPlanMode" then plan_approval
  else if String.eqb toolName "AskUserQuestion" then question
  else tool_approval.

(** [None]: a template literal, or [String(input[k])], throws a
    TypeError. *)
Definition summarizeInput (_toolName : string) (input : object)
    : option string :=
  let labelled (key label : string) : option (list string) :=
    if truthy (get input key) then
      match toStringU (get input key) with
      | Some text => Some [(label +:+ ": " +:+ text)%string]
      | None => None
      end
    else Some [] in
  let content : list string :=
    match get input "content" with
    | Some (JStr c) =>
        if truthy (Some (JStr c)) then
          [("content: " +:+ JsString.slice c 0 (Some 100)
              +:+ (if JsString.length c >? 100 then "..." else ""))%string]
        else []
    | _ => []
    end in
  command ← labelled "command" "command";
  file ← labelled "file_path" "file";
  path ← labelled "path" "path";
  pattern ← labelled "pattern" "pattern";
  query ← labelled "query" "query";
  url ← labelled "url" "url";
  let parts := command ++ file ++ path ++ pattern ++ query ++ url ++ content in
  parts ←
    match parts with
    | [] =>
        match take 3 (keys input) with
        | [] => Some []
        | ks =>
            shown ←
              mapM (fun k =>
                      text ← toStringU (get input k);
                      Some (k +:+ ": " +:+ JsString.slice text 0 (Some 50))%string)
                   ks;
            Some [JsString.join ", " shown]
        end
    | _ => Some parts
    end;
  let joined := JsString.join ", " parts in
  Some (if String.eqb joined "" then "(no details)"%string else joined).

(** [q.question] and [q.options] of one element of [toolInput.questions];
    reading a property of [null] throws. *)
Definition questionItem (q : json) : result QuestionItem :=
  match q with
  | JNull => Throw TypeError
  | JObj fields =>
      Ok {| item_question := get fields "question";
            item_options := get fields "options" |}
  | _ => Ok {| item_question := None; item_options := None |}
  end.

Fixpoint questionItems (qs : list json) : result (list QuestionItem) :=
  match qs with
  | [] => Ok []
  | q :: rest =>
      match questionItem q with
      | Throw e => Throw e
      | Ok item =>
          match questionItems rest with
          | Throw e => Throw e
          | Ok items => Ok (item :: items)
          end
      end
  end.

Definition stringOptions (opts : list string) : option json :=
  Some (JArr (map JStr opts)).

Definition buildQuestion (toolName : string) (toolInput : object)
    (requestId : string) : result QuestionData :=
  let type := classifyRequest toolName in
  match type with
  | tool_approval =>
      match summarizeInput toolName toolInput with
      | None => Throw TypeError
      | Some summary =>
          Ok {| q_id := requestId; q_type := tool_approval;
                q_toolName := toolName; q_toolInput := toolInput;
                q_questions :=
                  [{| item_question :=
                        Some (JStr ("Claude wants to use " +:+ toolName +:+ ": "
                                      +:+ summary));
                      item_options := stringOptions ["allow"; "deny"]%string |}] |}
      end
  | plan_approval =>
      let plan :=
        if truthy (get toolInput "plan") then toStringU (get toolInput "plan")
        else Some (stringifyPretty (JObj toolInput)) in
      match plan with
      | None => Throw TypeError
      | Some plan =>
          Ok {| q_id := requestId; q_type := plan_approval;
                q_toolName := toolName; q_toolInput := toolInput;
                q_questions :=
                  [{| item_question :=
                        Some (JStr ("Claude has completed a plan:" +:+ newline
                                      +:+ newline +:+ plan +:+ newline +:+ newline
                                      +:+ "Approve this plan and begin implementation?"));
                      item_options := stringOptions ["approve"; "reject"]%string |}] |}
      end
  | question =>
      (* [toolInput.questions || []], then [.map]: a truthy value that is
         no array has no [map] *)
      let questions : result (list json) :=
        if truthy (get toolInput "questions") then
          match get toolInput "questions" with
          | Some (JArr items) => Ok items
          | _ => Throw TypeError
          end
        else Ok [] in
      match questions with
      | Throw e => Throw e
      | Ok qs =>
          match questionItems qs with
          | Throw e => Throw e
          | Ok items =>
              Ok {| q_id := requestId; q_type := question;
                    q_toolName := toolName; q_toolInput := toolInput;
                    q_questions := items |}
          end
      end
  end.

Definition translateAnswer (type : QuestionType) (answers : list string)
    (originalInput : object) : PermissionResponse :=
  let parsed := map parseAnswer answers in
  match type with
  | tool_approval =>
      let first :=
        match parsed with
        | p :: _ => p
        | [] => {| decision := "deny"; reason := None |}
        end in
      if String.eqb (decision first) "allow"
      then {| behavior := allow; message := None; updatedInput := None |}
      else {| behavior := deny; message := reason first; updatedInput := None |}
  | plan_approval =>
      let first :=
        match parsed with
        | p :: _ => p
        | [] => {| decision := "reject"; reason := None |}
        end in
      if String.eqb (decision first) "approve"
      then {| behavior := allow; message := None;
              updatedInput := Some originalInput |}
      else {| behavior := deny; message := reason first; updatedInput := None |}
  | question =>
      {| behavior := allow; message := None;
         updatedInput :=
           Some (set originalInput "answers" (JArr (map JStr answers))) |}
  end.

(** *** Sessions (types.ts) *)

(** A child process handle; the process itself belongs to the operating
    system and shows in the model through [Effect]s only. *)
Definition ChildProcess := nat.

Record SessionConfig := {
  workingDirectory : string;
  model : option string;
  permissionMode : option string;
  allowedTools : option (list string);
  disallowedTools : option (list string);
  maxTurns : option JsNumber.t;
  maxBudgetUsd : option JsNumber.t;
  systemPrompt : option string;
  dangerouslySkipPermissions : option bool;
}.

Record SpawnConfig := {
  prompt : string;
  spawn_workingDirectory : string;
  resumeSessionId : option string;
  spawn_config : SessionConfig;
}.

Record Delta := { delta_type : string; delta_text : option string }.

Record ContentBlock := { block_type : string; block_name : option string }.

Record InnerEvent := {
  inner_type : string;
  inner_delta : option Delta;
  inner_content_block : option ContentBlock;
}.

Inductive ResultStatus := success | failure | halted.

(** [ParsedEvent], with the fields session-manager.ts reads: [init],
    [stream_event], [result] (its status one of "success", "error",
    "interrupted", here [success], [failure], [halted]) and anything
    else. *)
Inductive ParsedEvent :=
| InitEvent (session_id : string) (timestamp : string)
| StreamEvent (event : option InnerEvent)
| ResultEvent (status : ResultStatus) (result : option string)
    (cost_usd : option JsNumber.t) (turns : option JsNumber.t)
| UnknownEvent (raw : json).

(** The status of a tool use; the type declares "denied" as well, which
    nothing assigns. *)
Inductive ToolStatus := running | completed.

Record ToolUseEvent := { tool_name : string; tool_status : ToolStatus }.

(** [Session]; [createdAt] is the time value of the [Date]. *)
Record Session := {
  id : string;
  status : SessionStatus;
  process : option ChildProcess;
  createdAt : Z;
  session_workingDirectory : string;
  config : SessionConfig;
  eventBuffer : list ParsedEvent;
  pendingQuestion : option PendingQuestion;
  toolUseEvents : list ToolUseEvent;
  session_result : option string;
  session_error : option string;
  costUsd : option JsNumber.t;
  turnCount : option JsNumber.t;
}.

Definition with_id (v : string) (s : Session) : Session :=
  {| id := v; status := status s; process := process s;
     createdAt := createdAt s;
     session_workingDirectory := session_workingDirectory s;
     config := config s; eventBuffer := eventBuffer s;
     pendingQuestion := pendingQuestion s; toolUseEvents := toolUseEvents s;
     session_result := session_result s; session_error := session_error s;
     costUsd := costUsd s; turnCount := turnCount s |}.

Definition with_status (v : SessionStatus) (s : Session) : Session :=
  {| id := id s; status := v; process := process s;
     createdAt := createdAt s;
     session_workingDirectory := session_workingDirectory s;
     config := config s; eventBuffer := eventBuffer s;
     pendingQuestion := pendingQuestion s; toolUseEvents := toolUseEvents s;
     session_result := session_result s; session_error := session_error s;
     costUsd := costUsd s; turnCount := turnCount s |}.

Definition with_process (v : option ChildProcess) (s : Session) : Session :=
  {| id := id s; status := status s; process := v;
     createdAt := createdAt s;
     session_workingDirectory := session_workingDirectory s;
     config := config s; eventBuffer := eventBuffer s;
     pendingQuestion := pendingQuestion s; toolUseEvents := toolUseEvents s;
     session_result := session_result s; session_error := session_error s;
     costUsd := costUsd s; turnCount := turnCount s |}.

Definition with_config (v : SessionConfig) (s : Session) : Session :=
  {| id := id s; status := status s; process := process s;
     createdAt := createdAt s;
     session_workingDirectory := session_workingDirectory s;
     config := v; eventBuffer := eventBuffer s;
     pendingQuestion := pendingQuestion s; toolUseEvents := toolUseEvents s;
     session_result := session_result s; session_error := session_error s;
     costUsd := costUsd s; turnCount := turnCount s |}.

Definition with_eventBuffer (v : list ParsedEvent) (s : Session) : Session :=
  {| id := id s; status := status s; process := process s;
     createdAt := createdAt s;
     session_workingDirectory := session_workingDirectory s;
     config := config s; eventBuffer := v;
     pendingQuestion := pendingQuestion s; toolUseEvents := toolUseEvents s;
     session_result := session_result s; session_error := session_error s;
     costUsd := costUsd s; turnCount := turnCount s |}.

Definition with_pendingQuestion (v : option PendingQuestion) (s : Session)
    : Session :=
  {| id := id s; status := status s; process := process s;
     createdAt := createdAt s;
     session_workingDirectory := session_workingDirectory s;
     config := config s; eventBuffer := eventBuffer s;
     pendingQuestion := v; toolUseEvents := toolUseEvents s;
     session_result := session_result s; session_error := session_error s;
     costUsd := costUsd s; turnCount := turnCount s |}.

Definition with_toolUseEvents (v : list ToolUseEvent) (s : Session) : Session :=
  {| id := id s; status := status s; process := process s;
     createdAt := createdAt s;
     session_workingDirectory := session_workingDirectory s;
     config := config s; eventBuffer := eventBuffer s;
     pendingQuestion := pendingQuestion s; toolUseEvents := v;
     session_result := session_result s; session_error := session_error s;
     costUsd := costUsd s; turnCount := turnCount s |}.

Definition with_result (v : option string) (s : Session) : Session :=
  {| id := id s; status := status s; process := process s;
     createdAt := createdAt s;
     session_workingDirectory := session_workingDirectory s;
     config := config s; eventBuffer := eventBuffer s;
     pendingQuestion := pendingQuestion s; toolUseEvents := toolUseEvents s;
     session_result := v; session_error := session_error s;
     costUsd := costUsd s; turnCount := turnCount s |}.

Definition with_error (v : option string) (s : Session) : Session :=
  {| id := id s; status := status s; process := process s;
     createdAt := createdAt s;
     session_workingDirectory := session_workingDirectory s;
     config := config s; eventBuffer := eventBuffer s;
     pendingQuestion := pendingQuestion s; toolUseEvents := toolUseEvents s;
     session_result := session_result s; session_error := v;
     costUsd := costUsd s; turnCount := turnCount s |}.

Definition with_costUsd (v : option JsNumber.t) (s : Session) : Session :=
  {| id := id s; status := status s; process := process s;
     createdAt := createdAt s;
     session_workingDirectory := session_workingDirectory s;
     config := config s; eventBuffer := eventBuffer s;
     pendingQuestion := pendingQuestion s; toolUseEvents := toolUseEvents s;
     session_result := session_result s; session_error := session_error s;
     costUsd := v; turnCount := turnCount s |}.

Definition with_turnCount (v : option JsNumber.t) (s : Session) : Session :=
  {| id := id s; status := status s; process := process s;
     createdAt := createdAt s;
     session_workingDirectory := session_workingDirectory s;
     config := config s; eventBuffer := eventBuffer s;
     pendingQuestion := pendingQuestion s; toolUseEvents := toolUseEvents s;
     session_result := session_result s; session_error := session_error s;
     costUsd := costUsd s; turnCount := v |}.

Definition with_permissionMode (v : option string) (c : SessionConfig)
    : SessionConfig :=
  {| workingDirectory := workingDirectory c; model := model c;
     permissionMode := v; allowedTools := allowedTools c;
     disallowedTools := disallowedTools c; maxTurns := maxTurns c;
     maxBudgetUsd := maxBudgetUsd c; systemPrompt := systemPrompt c;
     dangerouslySkipPermissions := dangerouslySkipPermissions c |}.

(** *** The state of a running connector

    Session objects are shared: the [sessions] map, the closures handed to
    [spawnClaudeProcess] and the closures of the permission callback all
    hold the same object.  [heap] maps an object reference to the current
    contents of the object, [sessions] maps a session id to a reference.
    A promise is the index of its settled value in [promises], a timer the
    index of its closure in [timers] ([None] once fired or cleared). *)

Inductive Effect :=
| Spawned (child : ChildProcess) (config : SpawnConfig)
| SentMessage (child : ChildProcess) (sessionId message : string)
| Killed (child : ChildProcess) (signal : string).

(** The closure of the timeout armed by [handlePermissionRequest]. *)
Record Timer := {
  timer_requestId : string;
  timer_session : nat;
  timer_resolve : nat;
}.

Record Manager := {
  heap : gmap nat Session;
  nextRef : nat;
  sessions : JsMap.t nat;
  promises : list (option PermissionResponse);
  timers : list (option Timer);
  pendingTimeouts : JsMap.t nat;
  effects : list Effect;
}.

Definition initial : Manager :=
  {| heap := ∅; nextRef := 0; sessions := JsMap.empty; promises := [];
     timers := []; pendingTimeouts := JsMap.empty; effects := [] |}.

Definition with_heap (v : gmap nat Session) (m : Manager) : Manager :=
  {| heap := v; nextRef := nextRef m; sessions := sessions m;
     promises := promises m; timers := timers m;
     pendingTimeouts := pendingTimeouts m; effects := effects m |}.

Definition with_sessions (v : JsMap.t nat) (m : Manager) : Manager :=
  {| heap := heap m; nextRef := nextRef m; sessions := v;
     promises := promises m; timers := timers m;
     pendingTimeouts := pendingTimeouts m; effects := effects m |}.

Definition with_promises (v : list (option PermissionResponse)) (m : Manager)
    : Manager :=
  {| heap := heap m; nextRef := nextRef m; sessions := sessions m;
     promises := v; timers := timers m;
     pendingTimeouts := pendingTimeouts m; effects := effects m |}.

Definition with_timers (v : list (option Timer)) (m : Manager) : Manager :=
  {| heap := heap m; nextRef := nextRef m; sessions := sessions m;
     promises := promises m; timers := v;
     pendingTimeouts := pendingTimeouts m; effects := effects m |}.

Definition with_pendingTimeouts (v : JsMap.t nat) (m : Manager) : Manager :=
  {| heap := heap m; nextRef := nextRef m; sessions := sessions m;
     promises := promises m; timers := timers m;
     pendingTimeouts := v; effects := effects m |}.

(** Allocate a session object. *)
Definition alloc (s : Session) (m : Manager) : nat * Manager :=
  (nextRef m,
   {| heap := <[nextRef m := s]> (heap m); nextRef := S (nextRef m);
      sessions := sessions m; promises := promises m; timers := timers m;
      pendingTimeouts := pendingTimeouts m; effects := effects m |}).

(** Assign to fields of the object [r]. *)
Definition update (r : nat) (f : Session -> Session) (m : Manager) : Manager :=
  with_heap (alter f r (heap m)) m.

Definition emit (e : Effect) (m : Manager) : Manager :=
  {| heap := heap m; nextRef := nextRef m; sessions := sessions m;
     promises := promises m; timers := timers m;
     pendingTimeouts := pendingTimeouts m; effects := effects m ++ [e] |}.

(** [new Promise(...)]: a promise that is not settled yet. *)
Definition newPromise (m : Manager) : nat * Manager :=
  (List.length (promises m), with_promises (promises m ++ [None]) m).

(** Calling the [resolve] function of promise [p]: the first call settles
    it, later calls do nothing. *)
Definition settle (p : nat) (v : PermissionResponse) (m : Manager) : Manager :=
  match promises m !! p with
  | Some None => with_promises (<[p := Some v]> (promises m)) m
  | _ => m
  end.

(** [setTimeout(closure, timeoutMs)]. *)
Definition setTimeout (t : Timer) (m : Manager) : nat * Manager :=
  (List.length (timers m), with_timers (timers m ++ [Some t]) m).

(** [clearTimeout(t)]. *)
Definition clearTimeout (t : nat) (m : Manager) : Manager :=
  with_timers (<[t := None]> (timers m)) m.

(** The session objects of [this.sessions.values()], in iteration order,
    each with its reference. *)
Definition sessionObjects (m : Manager) : list (nat * Session) :=
  omap (fun r => match heap m !! r with
                 | Some s => Some (r, s)
                 | None => None
                 end)
       (JsMap.values (sessions m)).

Definition isSome {A : Type} (o : option A) : bool :=
  match o with Some _ => true | None => false end.

Definition getActiveSessionCount (m : Manager) : Z :=
  Z.of_nat
    (List.length (filter (fun rs => isSome (process rs.2) = true)
                         (sessionObjects m))).

Definition status_eqb (a b : SessionStatus) : bool :=
  match a, b with
  | active, active | awaiting_input, awaiting_input | done, done
  | error, error | interrupted, interrupted => true
  | _, _ => false
  end.

(** *** permission-manager.ts: [PermissionManager] *)

Definition timedOutResponse : PermissionResponse :=
  {| behavior := deny; message := Some "Permission request timed out"%string;
     updatedInput := None |}.

(** [handlePermissionRequest], called with the two closures that
    [SessionManager]'s constructor builds over the session object [r]:
    [(q) => session.pendingQuestion = q] and
    [(status) => session.status = status].  The result is the promise
    whose value answers the agent, or what [buildQuestion] threw. *)
Definition handlePermissionRequest (request : PermissionCallbackRequest)
    (r : nat) (m : Manager) : Manager * result nat :=
  match buildQuestion (req_toolName request) (req_toolInput request)
          (req_requestId request) with
  | Throw e => (m, Throw e)
  | Ok questionData =>
      let '(p, m) := newPromise m in
      let fullQuestion := {| data := questionData; resolve := p |} in
      let m := update r (with_pendingQuestion (Some fullQuestion)) m in
      let m := update r (with_status awaiting_input) m in
      let '(timeout, m) :=
        setTimeout {| timer_requestId := req_requestId request;
                      timer_session := r; timer_resolve := p |} m in
      let m :=
        with_pendingTimeouts
          (JsMap.set (pendingTimeouts m) (req_requestId request) timeout) m in
      (m, Ok p)
  end.

(** The timer [t] fires: the closure armed by [handlePermissionRequest]
    runs.  A timer that was cleared, or has fired, does not run. *)
Definition fireTimeout (t : nat) (m : Manager) : Manager :=
  match timers m !! t with
  | Some (Some timer) =>
      let m := with_timers (<[t := None]> (timers m)) m in
      let m :=
        with_pendingTimeouts
          (JsMap.delete (pendingTimeouts m) (timer_requestId timer)) m in
      let m := update (timer_session timer) (with_pendingQuestion None) m in
      settle (timer_resolve timer) timedOutResponse m
  | _ => m
  end.

(** [resolveQuestion], called with the closure
    [(q) => session.pendingQuestion = q] over the session object [r]. *)
Definition resolveQuestion (q : PendingQuestion) (answers : list string)
    (r : nat) (m : Manager) : Manager :=
  let m :=
    match JsMap.get (pendingTimeouts m) (q_id (data q)) with
    | Some timeout =>
        with_pendingTimeouts
          (JsMap.delete (pendingTimeouts m) (q_id (data q)))
          (clearTimeout timeout m)
    | None => m
    end in
  let response :=
    translateAnswer (q_type (data q)) answers (q_toolInput (data q)) in
  let m := update r (with_pendingQuestion None) m in
  settle (resolve q) response m.

(** [cleanup]. *)
Definition cleanup (m : Manager) : Manager :=
  with_pendingTimeouts JsMap.empty
    (fold_left (fun m t => clearTimeout t m)
               (JsMap.values (pendingTimeouts m)) m).

(** *** stream-parser.ts: [extractTextFromEvents] *)

Definition eventText (e : ParsedEvent) : option string :=
  match e with
  | StreamEvent (Some inner) =>
      match inner_delta inner with
      | Some d =>
          match delta_text d with
          | Some text => if String.eqb text "" then None else Some text
          | None => None
          end
      | None => None
      end
  | _ => None
  end.

Definition extractTextFromEvents (events : list ParsedEvent) (count : Z)
    : list string :=
  JsArray.slice (omap eventText events) (- count).

(** *** session-manager.ts: [SessionManager] *)

Definition is_terminal (st : SessionStatus) : bool :=
  match st with
  | done | error | interrupted => true
  | active | awaiting_input => false
  end.

(** [handleExit], on the session object. *)
Definition handleExit_session (code : option Z) (signal : option string)
    (s : Session) : Session :=
  let s := with_process None s in
  match status s with
  | active | awaiting_input =>
      if bool_decide (signal = Some "SIGINT"%string) then
        with_status interrupted s
      else if bool_decide (code = Some 0) then
        with_status done s
      else
        with_error
          (Some ("Process exited with code " +:+ JsString.ofExitCode code)%string)
          (with_status error s)
  | _ => s
  end.

Definition handleExit (r : nat) (code : option Z) (signal : option string)
    (m : Manager) : Manager :=
  update r (handleExit_session code signal) m.

(** The last tool use still running becomes completed. *)
Fixpoint completeFirstRunning (l : list ToolUseEvent) : list ToolUseEvent :=
  match l with
  | [] => []
  | t :: rest =>
      match tool_status t with
      | running => {| tool_name := tool_name t; tool_status := completed |} :: rest
      | completed => t :: completeFirstRunning rest
      end
  end.

Definition completeLastRunning (l : list ToolUseEvent) : list ToolUseEvent :=
  rev (completeFirstRunning (rev l)).

Definition handleStreamEvent_session (event : ParsedEvent) (s : Session)
    : Session :=
  match event with
  | StreamEvent (Some innerEvent) =>
      let s :=
        match inner_content_block innerEvent with
        | Some block =>
            if String.eqb (inner_type innerEvent) "content_block_start"
               && String.eqb (block_type block) "tool_use"
            then
              with_toolUseEvents
                (toolUseEvents s ++
                 [{| tool_name :=
                       match block_name block with
                       | Some n => if String.eqb n "" then "unknown"%string else n
                       | None => "unknown"%string
                       end;
                     tool_status := running |}]) s
            else s
        | None => s
        end in
      if String.eqb (inner_type innerEvent) "content_block_stop"
      then with_toolUseEvents (completeLastRunning (toolUseEvents s)) s
      else s
  | _ => s
  end.

(** The ring buffer kept by hand in [handleEvent]. *)
Definition bufferEvent (env : EnvConfig) (event : ParsedEvent) (s : Session)
    : Session :=
  let pushed := eventBuffer s ++ [event] in
  with_eventBuffer
    (if Z.of_nat (List.length pushed) >? eventBufferSize env
     then JsArray.shift pushed else pushed) s.

Definition handleResult_session (st : ResultStatus) (res : option string)
    (cost_usd turns : option JsNumber.t) (s : Session) : Session :=
  let s :=
    match st with
    | success => with_result res (with_status done s)
    | halted => with_status interrupted s
    | failure =>
        with_error
          (Some match res with
                | Some text => if String.eqb text "" then "Unknown error"%string else text
                | None => "Unknown error"%string
                end)
          (with_status error s)
    end in
  let s := match cost_usd with Some c => with_costUsd (Some c) s | None => s end in
  match turns with Some t => with_turnCount (Some t) s | None => s end.

Definition handleEvent (env : EnvConfig) (r : nat) (event : ParsedEvent)
    (m : Manager) : Manager :=
  match heap m !! r with
  | None => m
  | Some session =>
      let m := update r (bufferEvent env event) m in
      match event with
      | InitEvent newId _ =>
          let oldId := id session in
          if negb (String.eqb oldId newId) then
            let m := with_sessions (JsMap.delete (sessions m) oldId) m in
            let m := update r (with_id newId) m in
            with_sessions (JsMap.set (sessions m) newId r) m
          else m
      | StreamEvent _ => update r (handleStreamEvent_session event) m
      | ResultEvent st res cost_usd turns =>
          update r (handleResult_session st res cost_usd turns) m
      | UnknownEvent _ => m
      end
  end.

Definition spawnConfigOf (message : string) (resume : option string)
    (s : Session) : SpawnConfig :=
  {| prompt := message;
     spawn_workingDirectory := session_workingDirectory s;
     resumeSessionId := resume;
     spawn_config := config s |}.

(** [resumeSession]; [child] is the handle [spawnClaudeProcess] returns,
    unless [spawnThrows]: [child_process.spawn] throws instead of
    returning a handle when an argument is not acceptable (a prompt with
    a NUL character, for instance), and [spawnClaudeProcess] does not
    catch it. *)
Definition resumeSession (env : EnvConfig) (r : nat) (message : string)
    (child : ChildProcess) (spawnThrows : bool) (m : Manager)
    : Manager * result unit :=
  if getActiveSessionCount m >=? maxSessions env then
    (m, Throw (MaxSessionsReached (maxSessions env)))
  else
    match heap m !! r with
    | None => (m, Ok tt)
    | Some session =>
        if spawnThrows then (m, Throw SpawnError)
        else
          let m := emit (Spawned child
                           (spawnConfigOf message (Some (id session)) session)) m in
          let m := update r (with_process (Some child)) m in
          (update r (with_status active) m, Ok tt)
    end.

(** [createTrackedSession]; [now] is the clock and [cwd] is
    [process.cwd()]. *)
Definition createTrackedSession (sessionId : string) (now : Z) (cwd : string)
    (m : Manager) : nat * Manager :=
  let session :=
    {| id := sessionId; status := done; process := None; createdAt := now;
       session_workingDirectory := cwd;
       config := {| workingDirectory := cwd; model := None;
                    permissionMode := None; allowedTools := None;
                    disallowedTools := None; maxTurns := None;
                    maxBudgetUsd := None; systemPrompt := None;
                    dangerouslySkipPermissions := None |};
       eventBuffer := []; pendingQuestion := None; toolUseEvents := [];
       session_result := None; session_error := None;
       costUsd := None; turnCount := None |} in
  let '(r, m) := alloc session m in
  (r, with_sessions (JsMap.set (sessions m) sessionId r) m).

Record StartParams := {
  start_prompt : string;
  start_workingDirectory : option string;
  start_model : option string;
  start_permissionMode : option string;
  start_allowedTools : option (list string);
  start_disallowedTools : option (list string);
  start_maxTurns : option JsNumber.t;
  start_maxBudgetUsd : option JsNumber.t;
  start_systemPrompt : option string;
  start_dangerouslySkipPermissions : option bool;
}.

(** What the runtime supplies to a call: the clock, the working
    directory of the connector, the random suffix of a temp id, the handle
    of the process a spawn returns, whether the spawn throws instead of
    returning it, and whether the stdin of the session's process can be
    written. *)
Record Runtime := {
  now : Z;
  cwd : string;
  randomSuffix : string;
  child : ChildProcess;
  spawnThrows : bool;
  stdinAvailable : bool;
}.

(** [startSession] up to the wait for the init event: the reference of
    the new session object, whose id is what the call returns after the
    wait.  The session is stored before the process is spawned: when the
    spawn throws, the call throws with the session in the store. *)
Definition startSession (env : EnvConfig) (rt : Runtime) (params : StartParams)
    (m : Manager) : Manager * result nat :=
  if getActiveSessionCount m >=? maxSessions env then
    (m, Throw (MaxSessionsReached (maxSessions env)))
  else
    let workingDirectory :=
      match start_workingDirectory params with
      | Some d => if String.eqb d "" then cwd rt else d
      | None => cwd rt
      end in
    let config :=
      {| workingDirectory := workingDirectory;
         model := start_model params;
         permissionMode := start_permissionMode params;
         allowedTools := start_allowedTools params;
         disallowedTools := start_disallowedTools params;
         maxTurns := start_maxTurns params;
         maxBudgetUsd := start_maxBudgetUsd params;
         systemPrompt := start_systemPrompt params;
         dangerouslySkipPermissions := start_dangerouslySkipPermissions params |} in
    let tempId :=
      ("temp_" +:+ JsString.ofNumber (now rt) +:+ "_" +:+ randomSuffix rt)%string in
    let session :=
      {| id := tempId; status := active; process := None;
         createdAt := now rt; session_workingDirectory := workingDirectory;
         config := config; eventBuffer := []; pendingQuestion := None;
         toolUseEvents := []; session_result := None; session_error := None;
         costUsd := None; turnCount := None |} in
    let '(r, m) := alloc session m in
    let m := with_sessions (JsMap.set (sessions m) tempId r) m in
    if spawnThrows rt then (m, Throw SpawnError)
    else
      let m := emit (Spawned (child rt)
                       (spawnConfigOf (start_prompt params) None session)) m in
      (update r (with_process (Some (child rt))) m, Ok r).

(** The value a tool call returns: [{sessionId, status}]. *)
Record Reply := { reply_sessionId : string; reply_status : SessionStatus }.

Definition replyOf (r : nat) (m : Manager) : result (option Reply) :=
  Ok (match heap m !! r with
      | Some s => Some {| reply_sessionId := id s; reply_status := status s |}
      | None => None
      end).

(** Where [sayToSession] stands when it returns or suspends. *)
Inductive SayOutcome :=
| Said (reply : option Reply)
| AwaitingExit (r : nat).

(** [sayToSession] up to its first suspension.  With a live process and a
    mode change the call interrupts the process and suspends in
    [waitForExit]; [sayAfterExit] is the rest of the call. *)
Definition sayToSession (env : EnvConfig) (rt : Runtime) (sessionId : string)
    (message : string) (mode : option string) (m : Manager)
    : Manager * result SayOutcome :=
  let '(r, m) :=
    match JsMap.get (sessions m) sessionId with
    | Some r => (r, m)
    | None => createTrackedSession sessionId (now rt) (cwd rt) m
    end in
  match heap m !! r with
  | None => (m, Ok (Said None))
  | Some session =>
      let needsModeChange :=
        isSome mode && negb (bool_decide (mode = permissionMode (config session))) in
      match process session with
      | Some proc =>
          if status_eqb (status session) active then
            if needsModeChange then
              (emit (Killed proc "SIGINT") m, Ok (AwaitingExit r))
            else if stdinAvailable rt then
              let m := emit (SentMessage proc (id session) message) m in
              (m, Ok (Said (Some {| reply_sessionId := id session;
                                    reply_status := status session |})))
            else (m, Throw StdinNotAvailable)
          else
            let m :=
              if needsModeChange
              then update r (fun s => with_config (with_permissionMode mode (config s)) s) m
              else m in
            match resumeSession env r message (child rt) (spawnThrows rt) m with
            | (m, Throw e) => (m, Throw e)
            | (m, Ok _) =>
                (m, match replyOf r m with Ok v => Ok (Said v) | Throw e => Throw e end)
            end
      | None =>
          let m :=
            if needsModeChange
            then update r (fun s => with_config (with_permissionMode mode (config s)) s) m
            else m in
          match resumeSession env r message (child rt) (spawnThrows rt) m with
          | (m, Throw e) => (m, Throw e)
          | (m, Ok _) =>
              (m, match replyOf r m with Ok v => Ok (Said v) | Throw e => Throw e end)
          end
      end
  end.

(** The rest of [sayToSession] once [waitForExit] has resolved: either
    the exit handler has cleared the process handle, or the five seconds
    are over and the process is killed and its handle cleared here. *)
Definition sayAfterExit (env : EnvConfig) (rt : Runtime) (r : nat)
    (message : string) (mode : option string) (m : Manager)
    : Manager * result SayOutcome :=
  match heap m !! r with
  | None => (m, Ok (Said None))
  | Some session =>
      let m :=
        match process session with
        | Some proc =>
            update r (with_process None) (emit (Killed proc "SIGKILL") m)
        | None => m
        end in
      let m := update r (fun s => with_config (with_permissionMode mode (config s)) s) m in
      match resumeSession env r message (child rt) (spawnThrows rt) m with
      | (m, Throw e) => (m, Throw e)
      | (m, Ok _) =>
          (m, match replyOf r m with Ok v => Ok (Said v) | Throw e => Throw e end)
      end
  end.

Record QuestionView := {
  view_id : string;
  view_type : QuestionType;
  view_questions : list QuestionItem;
}.

Record StatusView := {
  view_sessionId : string;
  view_status : SessionStatus;
  view_result : option string;
  view_recentOutput : list string;
  view_pendingQuestion : option QuestionView;
  view_toolUseEvents : list ToolUseEvent;
  view_costUsd : option JsNumber.t;
  view_turnCount : option JsNumber.t;
}.

Definition defaultOutputLines : Z := 50.

Definition statusView (session : Session) (outputLines : Z) : StatusView :=
  {| view_sessionId := id session;
     view_status := status session;
     view_result :=
       match session_result session with
       | Some text => if String.eqb text "" then None else Some text
       | None => None
       end;
     view_recentOutput := extractTextFromEvents (eventBuffer session) outputLines;
     view_pendingQuestion :=
       match pendingQuestion session with
       | Some q =>
           if status_eqb (status session) awaiting_input then
             Some {| view_id := q_id (data q); view_type := q_type (data q);
                     view_questions := q_questions (data q) |}
           else None
       | None => None
       end;
     view_toolUseEvents := toolUseEvents session;
     view_costUsd := costUsd session;
     view_turnCount := turnCount session |}.

(** The session object stored under [sessionId]. *)
Definition lookup (m : Manager) (sessionId : string) : option (nat * Session) :=
  match JsMap.get (sessions m) sessionId with
  | Some r =>
      match heap m !! r with
      | Some s => Some (r, s)
      | None => None
      end
  | None => None
  end.

Definition getSessionStatus (m : Manager) (sessionId : string)
    (outputLines : Z) : result StatusView :=
  match lookup m sessionId with
  | None => Throw (UnknownSession sessionId)
  | Some (_, session) => Ok (statusView session outputLines)
  end.

Definition respondToQuestion (sessionId : string) (questionId : string)
    (answers : list string) (m : Manager) : Manager * result (option Reply) :=
  match lookup m sessionId with
  | None => (m, Throw (UnknownSession sessionId))
  | Some (r, session) =>
      match pendingQuestion session with
      | None => (m, Throw (NoPendingQuestion sessionId))
      | Some q =>
          if negb (String.eqb (q_id (data q)) questionId) then
            (m, Throw (QuestionIdMismatch (q_id (data q)) questionId))
          else
            let m := resolveQuestion q answers r m in
            let m := update r (with_status active) m in
            (m, replyOf r m)
      end
  end.

Definition interruptSession (sessionId : string) (m : Manager)
    : Manager * result (option Reply) :=
  match lookup m sessionId with
  | None => (m, Throw (UnknownSession sessionId))
  | Some (r, session) =>
      match process session with
      | None => (m, Throw (NoActiveProcess sessionId))
      | Some proc =>
          let m := emit (Killed proc "SIGINT") m in
          let m := update r (with_status interrupted) m in
          (m, Ok (Some {| reply_sessionId := id session;
                          reply_status := interrupted |}))
      end
  end.

(** The loop of the fallback: the most recently created session that is
    active or awaiting input; of two created at the same instant the one
    met first stays. *)
Fixpoint latestOpen (latest : option (nat * Session))
    (l : list (nat * Session)) : option (nat * Session) :=
  match l with
  | [] => latest
  | (r, session) :: rest =>
      let latest :=
        if status_eqb (status session) active
           || status_eqb (status session) awaiting_input
        then
          match latest with
          | None => Some (r, session)
          | Some (_, l0) =>
              if createdAt session >? createdAt l0 then Some (r, session)
              else latest
          end
        else latest in
      latestOpen latest rest
  end.

(** The loop of the ["__pending__"] branch: the first session in
    iteration order with a temp id and status active. *)
Fixpoint firstPending (l : list (nat * Session)) : option (nat * Session) :=
  match l with
  | [] => None
  | (r, session) :: rest =>
      if JsString.startsWith (id session) "temp_"
         && status_eqb (status session) active
      then Some (r, session) else firstPending rest
  end.

Definition findSessionForPermission (m : Manager) (permSessionId : string)
    : option (nat * Session) :=
  match lookup m permSessionId with
  | Some exact => Some exact
  | None =>
      let pending :=
        if String.eqb permSessionId "__pending__"
        then firstPending (sessionObjects m) else None in
      match pending with
      | Some found => Some found
      | None => latestOpen None (sessionObjects m)
      end
  end.

Definition unknownSessionResponse : PermissionResponse :=
  {| behavior := deny; message := Some "Unknown session"%string;
     updatedInput := None |}.

(** The handler [SessionManager]'s constructor gives to the permission
    callback server: the promise whose value is sent back to the agent. *)
Definition onPermissionRequest (request : PermissionCallbackRequest)
    (m : Manager) : Manager * result nat :=
  match findSessionForPermission m (req_sessionId request) with
  | None =>
      let '(p, m) := newPromise m in
      (settle p unknownSessionResponse m, Ok p)
  | Some (r, _) => handlePermissionRequest request r m
  end.

(** [stop]: SIGTERM to every live process, all pending timeouts cleared. *)
Definition stop (m : Manager) : Manager :=
  cleanup
    (fold_left
       (fun m rs =>
          match process rs.2 with
          | Some proc => emit (Killed proc "SIGTERM") m
          | None => m
          end)
       (sessionObjects m) m).

(** *** The connector as a transition system

    One label per entry point: the tool operations, the callbacks of a
    child process on the session object it was spawned for, the
    permission callback, and a timer firing. *)
Inductive Label :=
| Start (rt : Runtime) (params : StartParams)
| Say (rt : Runtime) (sessionId message : string) (mode : option string)
| SayResumes (rt : Runtime) (r : nat) (message : string) (mode : option string)
| Respond (sessionId questionId : string) (answers : list string)
| Interrupt (sessionId : string)
| OnEvent (r : nat) (event : ParsedEvent)
| OnExit (r : nat) (code : option Z) (signal : option string)
| OnPermission (request : PermissionCallbackRequest)
| TimerFires (t : nat)
| Stop.

Definition step (env : EnvConfig) (m : Manager) (l : Label) : Manager :=
  match l with
  | Start rt params => (startSession env rt params m).1
  | Say rt sessionId message mode =>
      (sayToSession env rt sessionId message mode m).1
  | SayResumes rt r message mode => (sayAfterExit env rt r message mode m).1
  | Respond sessionId questionId answers =>
      (respondToQuestion sessionId questionId answers m).1
  | Interrupt sessionId => (interruptSession sessionId m).1
  | OnEvent r event => handleEvent env r event m
  | OnExit r code signal => handleExit r code signal m
  | OnPermission request => (onPermissionRequest request m).1
  | TimerFires t => fireTimeout t m
  | Stop => stop m
  end.

Definition run (env : EnvConfig) (m : Manager) (trace : list Label) : Manager :=
  fold_left (step env) trace m.

End Claude.

(** ** The codex connector *)
Module Codex.
Import AnswerParser.

(** *** types.ts *)

Inductive SessionStatus :=
| active | awaiting_approval | done | error | interrupted.

Inductive ApprovalType := command_approval | patch_approval.

Record ApprovalResponse := { approved : bool; response_reason : option string }.

Record QuestionItem := { item_question : string; item_options : list string }.

Record QuestionData := {
  q_id : string;
  q_type : ApprovalType;
  q_questions : list QuestionItem;
}.

(** [resolve] is the index of the promise the question settles. *)
Record PendingQuestion := { data : QuestionData; resolve : nat }.

Record SessionConfig := {
  workingDirectory : string;
  model : option string;
  approvalPolicy : option string;
  sandbox : option string;
  fullAuto : option bool;
  profile : option string;
  config_overrides : option (list (string * string));
  baseInstructions : option string;
  images : option (list string);
  skipGitRepoCheck : option bool;
  dangerouslyBypassApprovalsAndSandbox : option bool;
}.

Record SpawnConfig := {
  prompt : string;
  spawn_workingDirectory : string;
  resumeSessionId : option string;
  spawn_images : option (list string);
  spawn_config : SessionConfig;
}.

Record Usage := {
  input_tokens : option Z;
  cached_input_tokens : option Z;
  output_tokens : option Z;
}.

Record Item := {
  item_id : string;
  item_type : string;
  item_text : option string;
  item_command : option string;
  item_status : option string;
}.

Inductive CodexEvent :=
| ThreadStarted (thread_id : string)
| TurnStarted
| TurnCompleted (usage : option Usage)
| TurnFailed (error : option string)
| ItemStarted (item : Item)
| ItemUpdated (item : Item)
| ItemCompleted (item : Item)
| StreamError (message : string).

Inductive ItemStatus := started | in_progress | completed | failed.

Record ItemEvent := {
  itemType : string;
  itemStatus : ItemStatus;
  summary : option string;
}.

Definition ChildProcess := nat.

Record Session := {
  id : string;
  status : SessionStatus;
  process : option ChildProcess;
  createdAt : Z;
  session_workingDirectory : string;
  config : SessionConfig;
  eventBuffer : EventBuffer.t CodexEvent;
  pendingQuestion : option PendingQuestion;
  session_result : option string;
  session_error : option string;
  itemEvents : JsMap.t ItemEvent;
  session_usage : option Usage;
  turnCount : Z;
}.

Record EnvConfig := {
  cliPath : string;
  approvalTimeoutMs : Z;
  maxSessions : Z;
  logLevel : string;
  eventBufferSize : Z;
  codexHome : string;
}.

Inductive Thrown :=
| UnknownSession (sessionId : string)
| NoPendingQuestion (sessionId : string)
| QuestionIdMismatch (expected got : string)
| NoActiveProcess (sessionId : string)
| MaxSessionsReached (maxSessions : Z)
| StillProcessing (sessionId : string)
| StdinNotAvailable
| SpawnError.

Inductive result (A : Type) :=
| Ok (a : A)
| Throw (e : Thrown).
Arguments Ok {A} a.
Arguments Throw {A} e.

Definition with_status (v : SessionStatus) (s : Session) : Session :=
  {| id := id s; status := v; process := process s; createdAt := createdAt s;
     session_workingDirectory := session_workingDirectory s;
     config := config s; eventBuffer := eventBuffer s;
     pendingQuestion := pendingQuestion s;
     session_result := session_result s; session_error := session_error s;
     itemEvents := itemEvents s; session_usage := session_usage s;
     turnCount := turnCount s |}.

Definition with_process (v : option ChildProcess) (s : Session) : Session :=
  {| id := id s; status := status s; process := v; createdAt := createdAt s;
     session_workingDirectory := session_workingDirectory s;
     config := config s; eventBuffer := eventBuffer s;
     pendingQuestion := pendingQuestion s;
     session_result := session_result s; session_error := session_error s;
     itemEvents := itemEvents s; session_usage := session_usage s;
     turnCount := turnCount s |}.

Definition with_pendingQuestion (v : option PendingQuestion) (s : Session)
    : Session :=
  {| id := id s; status := status s; process := process s;
     createdAt := createdAt s;
     session_workingDirectory := session_workingDirectory s;
     config := config s; eventBuffer := eventBuffer s;
     pendingQuestion := v;
     session_result := session_result s; session_error := session_error s;
     itemEvents := itemEvents s; session_usage := session_usage s;
     turnCount := turnCount s |}.

Definition with_error (v : option string) (s : Session) : Session :=
  {| id := id s; status := status s; process := process s;
     createdAt := createdAt s;
     session_workingDirectory := session_workingDirectory s;
     config := config s; eventBuffer := eventBuffer s;
     pendingQuestion := pendingQuestion s;
     session_result := session_result s; session_error := v;
     itemEvents := itemEvents s; session_usage := session_usage s;
     turnCount := turnCount s |}.

(** *** approval-manager.ts *)

Definition isWordChar (c : ascii) : bool :=
  let n := N_of_ascii c in
  ((48 <=? n) && (n <=? 57) || (65 <=? n) && (n <=? 90)
   || (97 <=? n) && (n <=? 122) || (n =? 95))%N.

Definition lowerChar (c : ascii) : ascii :=
  let n := N_of_ascii c in
  if ((65 <=? n) && (n <=? 90))%N then ascii_of_N (n + 32) else c.

Fixpoint lower (s : string) : string :=
  match s with
  | EmptyString => EmptyString
  | String c s' => String (lowerChar c) (lower s')
  end.

Definition patchStems : list string :=
  ["patch"; "file"; "chang"; "modif"; "writ"; "creat"; "delet"; "apply"]%string.

(** A match of [/\b(patch|file|chang|modif|writ|creat|delet|apply)/i]:
    one of the stems starts a word.  [prev] is the character before the
    current position. *)
Fixpoint matchesPatch (prev : option ascii) (s : string) : bool :=
  let boundary :=
    match prev with
    | None => true
    | Some c => negb (isWordChar c)
    end in
  (boundary && existsb (fun stem => String.prefix stem (lower s)) patchStems)
  || match s with
     | EmptyString => false
     | String c s' => matchesPatch (Some c) s'
     end.

Definition classifyApproval (requestText : string) : ApprovalType :=
  if matchesPatch None requestText then patch_approval else command_approval.

Definition buildQuestion (requestText requestId : string) : QuestionData :=
  {| q_id := requestId;
     q_type := classifyApproval requestText;
     q_questions :=
       [{| item_question := requestText;
           item_options := ["approve"; "deny"]%string |}] |}.

Definition translateAnswer (answers : list string) : ApprovalResponse :=
  let first :=
    match answers with
    | a :: _ => if String.eqb a "" then "deny"%string else a
    | [] => "deny"%string
    end in
  let parsed := parseAnswer first in
  {| approved :=
       String.eqb (decision parsed) "approve"
       || String.eqb (decision parsed) "allow"
       || String.eqb (decision parsed) "yes";
     response_reason := reason parsed |}.

(** *** The state of a running connector

    As for the claude connector: session objects live in [heap], the
    [sessions] map holds references, a promise is the index of its settled
    value, a timer the index of its closure. *)

Inductive Effect :=
| Spawned (child : ChildProcess) (config : SpawnConfig)
| WroteStdin (child : ChildProcess) (payload : string)
| Killed (child : ChildProcess) (signal : string).

(** The closure [QuestionManager.register] arms: the question id and the
    [onTimeout] lambda of [handleApprovalRequest], which holds the session
    object. *)
Record Timer := {
  timer_questionId : string;
  timer_session : nat;
  timer_resolve : nat;
}.

Record Manager := {
  heap : gmap nat Session;
  nextRef : nat;
  sessions : JsMap.t nat;
  promises : list (option ApprovalResponse);
  timers : list (option Timer);
  pendingTimeouts : JsMap.t nat;
  effects : list Effect;
}.

Definition initial : Manager :=
  {| heap := ∅; nextRef := 0; sessions := JsMap.empty; promises := [];
     timers := []; pendingTimeouts := JsMap.empty; effects := [] |}.

Definition with_heap (v : gmap nat Session) (m : Manager) : Manager :=
  {| heap := v; nextRef := nextRef m; sessions := sessions m;
     promises := promises m; timers := timers m;
     pendingTimeouts := pendingTimeouts m; effects := effects m |}.

Definition with_sessions (v : JsMap.t nat) (m : Manager) : Manager :=
  {| heap := heap m; nextRef := nextRef m; sessions := v;
     promises := promises m; timers := timers m;
     pendingTimeouts := pendingTimeouts m; effects := effects m |}.

Definition with_promises (v : list (option ApprovalResponse)) (m : Manager)
    : Manager :=
  {| heap := heap m; nextRef := nextRef m; sessions := sessions m;
     promises := v; timers := timers m;
     pendingTimeouts := pendingTimeouts m; effects := effects m |}.

Definition with_timers (v : list (option Timer)) (m : Manager) : Manager :=
  {| heap := heap m; nextRef := nextRef m; sessions := sessions m;
     promises := promises m; timers := v;
     pendingTimeouts := pendingTimeouts m; effects := effects m |}.

Definition with_pendingTimeouts (v : JsMap.t nat) (m : Manager) : Manager :=
  {| heap := heap m; nextRef := nextRef m; sessions := sessions m;
     promises := promises m; timers := timers m;
     pendingTimeouts := v; effects := effects m |}.

Definition alloc (s : Session) (m : Manager) : nat * Manager :=
  (nextRef m,
   {| heap := <[nextRef m := s]> (heap m); nextRef := S (nextRef m);
      sessions := sessions m; promises := promises m; timers := timers m;
      pendingTimeouts := pendingTimeouts m; effects := effects m |}).

Definition update (r : nat) (f : Session -> Session) (m : Manager) : Manager :=
  with_heap (alter f r (heap m)) m.

Definition emit (e : Effect) (m : Manager) : Manager :=
  {| heap := heap m; nextRef := nextRef m; sessions := sessions m;
     promises := promises m; timers := timers m;
     pendingTimeouts := pendingTimeouts m; effects := effects m ++ [e] |}.

Definition settle (p : nat) (v : ApprovalResponse) (m : Manager) : Manager :=
  match promises m !! p with
  | Some None => with_promises (<[p := Some v]> (promises m)) m
  | _ => m
  end.

Definition sessionObjects (m : Manager) : list (nat * Session) :=
  omap (fun r => match heap m !! r with
                 | Some s => Some (r, s)
                 | None => None
                 end)
       (JsMap.values (sessions m)).

Definition isSome {A : Type} (o : option A) : bool :=
  match o with Some _ => true | None => false end.

(** mcp-base/src/session-base.ts: [countActiveSessions]. *)
Definition countActiveSessions (m : Manager) : Z :=
  Z.of_nat
    (List.length (filter (fun rs => isSome (process rs.2) = true)
                         (sessionObjects m))).

Definition status_eqb (a b : SessionStatus) : bool :=
  match a, b with
  | active, active | awaiting_approval, awaiting_approval | done, done
  | error, error | interrupted, interrupted => true
  | _, _ => false
  end.

(** *** process-manager.ts: [sendApprovalResponse]

    [stdinAvailable] says whether the stdin of the process can be
    written. *)
Definition sendApprovalResponse (stdinAvailable : bool) (child : ChildProcess)
    (response : ApprovalResponse) (m : Manager) : Manager * result unit :=
  if stdinAvailable then
    (emit (WroteStdin child
             (if approved response
              then String "y" (String (ascii_of_N 10) "")
              else String "n" (String (ascii_of_N 10) ""))) m,
     Ok tt)
  else (m, Throw StdinNotAvailable).

(** *** mcp-base/src/question-manager.ts: [QuestionManager] *)

(** [register]: a new promise, and a timer over the closure. *)
Definition register (questionId : string) (onTimeoutSession : nat)
    (m : Manager) : nat * Manager :=
  let p := List.length (promises m) in
  let m := with_promises (promises m ++ [None]) m in
  let timeout := List.length (timers m) in
  let m :=
    with_timers
      (timers m ++ [Some {| timer_questionId := questionId;
                            timer_session := onTimeoutSession;
                            timer_resolve := p |}]) m in
  (p, with_pendingTimeouts (JsMap.set (pendingTimeouts m) questionId timeout) m).

Definition clearTimeout (questionId : string) (m : Manager) : Manager :=
  match JsMap.get (pendingTimeouts m) questionId with
  | Some timeout =>
      with_pendingTimeouts (JsMap.delete (pendingTimeouts m) questionId)
        (with_timers (<[timeout := None]> (timers m)) m)
  | None => m
  end.

Definition cleanup (m : Manager) : Manager :=
  with_pendingTimeouts JsMap.empty
    (fold_left (fun m t => with_timers (<[t := None]> (timers m)) m)
               (JsMap.values (pendingTimeouts m)) m).

(** *** session-manager.ts: [SessionManager] *)

Definition timedOutResponse : ApprovalResponse :=
  {| approved := false; response_reason := Some "Approval timed out"%string |}.

(** The [onTimeout] lambda of [handleApprovalRequest] over the session
    object [r]: the value the registry resolves the promise with, unless
    the write to stdin throws. *)
Definition onTimeout (stdinAvailable : bool) (r : nat) (m : Manager)
    : Manager * result ApprovalResponse :=
  let m := update r (with_pendingQuestion None) m in
  let m := update r (with_status active) m in
  match heap m !! r with
  | Some session =>
      match process session with
      | Some proc =>
          match sendApprovalResponse stdinAvailable proc timedOutResponse m with
          | (m, Throw e) => (m, Throw e)
          | (m, Ok _) => (m, Ok timedOutResponse)
          end
      | None => (m, Ok timedOutResponse)
      end
  | None => (m, Ok timedOutResponse)
  end.

(** The timer [t] fires: the closure armed by [register] runs. *)
Definition fireTimeout (stdinAvailable : bool) (t : nat) (m : Manager)
    : Manager :=
  match timers m !! t with
  | Some (Some timer) =>
      let m := with_timers (<[t := None]> (timers m)) m in
      let m :=
        with_pendingTimeouts
          (JsMap.delete (pendingTimeouts m) (timer_questionId timer)) m in
      match onTimeout stdinAvailable (timer_session timer) m with
      | (m, Ok v) => settle (timer_resolve timer) v m
      | (m, Throw _) => m
      end
  | _ => m
  end.

(** [handleApprovalRequest] on the session object [r]; the request id is
    built from the clock and a random suffix. *)
Definition handleApprovalRequest (r : nat) (requestText : string)
    (now : Z) (randomSuffix : string) (m : Manager) : Manager :=
  let requestId :=
    ("approval_" +:+ JsString.ofNumber now +:+ "_" +:+ randomSuffix)%string in
  let questionData := buildQuestion requestText requestId in
  let '(p, m) := register requestId r m in
  let fullQuestion := {| data := questionData; resolve := p |} in
  let m := update r (with_pendingQuestion (Some fullQuestion)) m in
  update r (with_status awaiting_approval) m.

Definition handleExit_session (code : option Z) (signal : option string)
    (s : Session) : Session :=
  let s := with_process None s in
  match status s with
  | active | awaiting_approval =>
      if bool_decide (signal = Some "SIGINT"%string) then
        with_status interrupted s
      else if bool_decide (code = Some 0) then
        with_status done s
      else
        with_error
          (Some ("Process exited with code " +:+ JsString.ofExitCode code)%string)
          (with_status error s)
  | _ => s
  end.

Definition handleExit (r : nat) (code : option Z) (signal : option string)
    (m : Manager) : Manager :=
  update r (handleExit_session code signal) m.

Definition spawnConfigOf (message : string) (imgs : option (list string))
    (s : Session) : SpawnConfig :=
  {| prompt := message;
     spawn_workingDirectory := session_workingDirectory s;
     resumeSessionId := Some (id s);
     spawn_images :=
       match imgs with
       | Some l => Some l
       | None => images (config s)
       end;
     spawn_config := config s |}.

(** [resumeSession]; [child] is the handle [spawnCodexProcess] returns,
    unless [spawnThrows]: [child_process.spawn] throws instead of
    returning a handle when an argument is not acceptable, and
    [spawnCodexProcess] does not catch it. *)
Definition resumeSession (env : EnvConfig) (r : nat) (message : string)
    (imgs : option (list string)) (child : ChildProcess) (spawnThrows : bool)
    (m : Manager) : Manager * result unit :=
  if countActiveSessions m >=? maxSessions env then
    (m, Throw (MaxSessionsReached (maxSessions env)))
  else
    match heap m !! r with
    | None => (m, Ok tt)
    | Some session =>
        if spawnThrows then (m, Throw SpawnError)
        else
          let m := emit (Spawned child (spawnConfigOf message imgs session)) m in
          let m := update r (with_process (Some child)) m in
          (update r (with_status active) m, Ok tt)
    end.

Definition createTrackedSession (env : EnvConfig) (sessionId : string)
    (now : Z) (cwd : string) (m : Manager) : nat * Manager :=
  let session :=
    {| id := sessionId; status := done; process := None; createdAt := now;
       session_workingDirectory := cwd;
       config := {| workingDirectory := cwd; model := None;
                    approvalPolicy := None; sandbox := None; fullAuto := None;
                    profile := None; config_overrides := None;
                    baseInstructions := None; images := None;
                    skipGitRepoCheck := None;
                    dangerouslyBypassApprovalsAndSandbox := None |};
       eventBuffer := EventBuffer.create (eventBufferSize env);
       pendingQuestion := None; session_result := None;
       session_error := None; itemEvents := JsMap.empty;
       session_usage := None; turnCount := 0 |} in
  let '(r, m) := alloc session m in
  (r, with_sessions (JsMap.set (sessions m) sessionId r) m).

Record Reply := { reply_sessionId : string; reply_status : SessionStatus }.

Definition lookup (m : Manager) (sessionId : string) : option (nat * Session) :=
  match JsMap.get (sessions m) sessionId with
  | Some r =>
      match heap m !! r with
      | Some s => Some (r, s)
      | None => None
      end
  | None => None
  end.

Definition sayToSession (env : EnvConfig) (sessionId message : string)
    (imgs : option (list string)) (now : Z) (cwd : string)
    (child : ChildProcess) (spawnThrows : bool) (m : Manager)
    : Manager * result (option Reply) :=
  let '(r, m) :=
    match JsMap.get (sessions m) sessionId with
    | Some r => (r, m)
    | None => createTrackedSession env sessionId now cwd m
    end in
  match heap m !! r with
  | None => (m, Ok None)
  | Some session =>
      if isSome (process session) && status_eqb (status session) active then
        (m, Throw (StillProcessing sessionId))
      else
        match resumeSession env r message imgs child spawnThrows m with
        | (m, Throw e) => (m, Throw e)
        | (m, Ok _) =>
            (m, Ok match heap m !! r with
                   | Some s => Some {| reply_sessionId := id s;
                                       reply_status := status s |}
                   | None => None
                   end)
        end
  end.

(** codex/src/stream-parser.ts: [extractTextFromEvents]. *)
Definition eventText (e : CodexEvent) : option string :=
  match e with
  | ItemCompleted item =>
      if String.eqb (item_type item) "agent_message" then
        match item_text item with
        | Some text => if String.eqb text "" then None else Some text
        | None => None
        end
      else None
  | _ => None
  end.

Definition extractTextFromEvents (events : list CodexEvent) (count : Z)
    : list string :=
  JsArray.slice (omap eventText events) (- count).

Record QuestionView := {
  view_id : string;
  view_type : ApprovalType;
  view_questions : list QuestionItem;
}.

Record StatusView := {
  view_sessionId : string;
  view_status : SessionStatus;
  view_result : option string;
  view_recentOutput : list string;
  view_pendingQuestion : option QuestionView;
  view_itemEvents : list ItemEvent;
  view_usage : option Usage;
  view_turnCount : option Z;
}.

Definition statusView (session : Session) (outputLines : Z) : StatusView :=
  {| view_sessionId := id session;
     view_status := status session;
     view_result :=
       match session_result session with
       | Some text => if String.eqb text "" then None else Some text
       | None => None
       end;
     view_recentOutput :=
       extractTextFromEvents (EventBuffer.getAll (eventBuffer session))
         outputLines;
     view_pendingQuestion :=
       match pendingQuestion session with
       | Some q =>
           if status_eqb (status session) awaiting_approval then
             Some {| view_id := q_id (data q); view_type := q_type (data q);
                     view_questions := q_questions (data q) |}
           else None
       | None => None
       end;
     view_itemEvents := JsMap.values (itemEvents session);
     view_usage := session_usage session;
     view_turnCount :=
       if turnCount session >? 0 then Some (turnCount session) else None |}.

Definition getSessionStatus (m : Manager) (sessionId : string)
    (outputLines : Z) : result StatusView :=
  match lookup m sessionId with
  | None => Throw (UnknownSession sessionId)
  | Some (_, session) => Ok (statusView session outputLines)
  end.

(** Every reference in use was allocated: the next reference is new. *)
Definition wellFormed (m : Manager) : Prop :=
  (forall r, In r (JsMap.values (sessions m)) -> (r < nextRef m)%nat) /\
  (forall r s, heap m !! r = Some s -> (r < nextRef m)%nat).

(** *** session-manager.ts: the remaining entry points *)

Definition with_id (v : string) (s : Session) : Session :=
  {| id := v; status := status s; process := process s;
     createdAt := createdAt s;
     session_workingDirectory := session_workingDirectory s;
     config := config s; eventBuffer := eventBuffer s;
     pendingQuestion := pendingQuestion s;
     session_result := session_result s; session_error := session_error s;
     itemEvents := itemEvents s; session_usage := session_usage s;
     turnCount := turnCount s |}.

Definition with_eventBuffer (v : EventBuffer.t CodexEvent) (s : Session)
    : Session :=
  {| id := id s; status := status s; process := process s;
     createdAt := createdAt s;
     session_workingDirectory := session_workingDirectory s;
     config := config s; eventBuffer := v;
     pendingQuestion := pendingQuestion s;
     session_result := session_result s; session_error := session_error s;
     itemEvents := itemEvents s; session_usage := session_usage s;
     turnCount := turnCount s |}.

Definition with_result (v : option string) (s : Session) : Session :=
  {| id := id s; status := status s; process := process s;
     createdAt := createdAt s;
     session_workingDirectory := session_workingDirectory s;
     config := config s; eventBuffer := eventBuffer s;
     pendingQuestion := pendingQuestion s;
     session_result := v; session_error := session_error s;
     itemEvents := itemEvents s; session_usage := session_usage s;
     turnCount := turnCount s |}.

Definition with_itemEvents (v : JsMap.t ItemEvent) (s : Session) : Session :=
  {| id := id s; status := status s; process := process s;
     createdAt := createdAt s;
     session_workingDirectory := session_workingDirectory s;
     config := config s; eventBuffer := eventBuffer s;
     pendingQuestion := pendingQuestion s;
     session_result := session_result s; session_error := session_error s;
     itemEvents := v; session_usage := session_usage s;
     turnCount := turnCount s |}.

Definition with_usage (v : option Usage) (s : Session) : Session :=
  {| id := id s; status := status s; process := process s;
     createdAt := createdAt s;
     session_workingDirectory := session_workingDirectory s;
     config := config s; eventBuffer := eventBuffer s;
     pendingQuestion := pendingQuestion s;
     session_result := session_result s; session_error := session_error s;
     itemEvents := itemEvents s; session_usage := v;
     turnCount := turnCount s |}.

Definition with_turnCount (v : Z) (s : Session) : Session :=
  {| id := id s; status := status s; process := process s;
     createdAt := createdAt s;
     session_workingDirectory := session_workingDirectory s;
     config := config s; eventBuffer := eventBuffer s;
     pendingQuestion := pendingQuestion s;
     session_result := session_result s; session_error := session_error s;
     itemEvents := itemEvents s; session_usage := session_usage s;
     turnCount := v |}.

(** A string property that is set and not empty. *)
Definition nonEmpty (text : option string) : option string :=
  match text with
  | Some t => if String.eqb t "" then None else Some t
  | None => None
  end.

(** The [item.started] case of [handleEvent]. *)
Definition itemStarted (item : Item) (s : Session) : Session :=
  with_itemEvents
    (JsMap.set (itemEvents s) (item_id item)
       {| itemType := item_type item; itemStatus := started; summary := None |})
    s.

(** The [item.updated] case. *)
Definition itemUpdated (item : Item) (s : Session) : Session :=
  match JsMap.get (itemEvents s) (item_id item) with
  | Some itemEvent =>
      with_itemEvents
        (JsMap.set (itemEvents s) (item_id item)
           {| itemType := itemType itemEvent; itemStatus := in_progress;
              summary := summary itemEvent |})
        s
  | None => s
  end.

(** The [item.completed] case. *)
Definition itemCompleted (item : Item) (s : Session) : Session :=
  let agentText :=
    if String.eqb (item_type item) "agent_message"
    then nonEmpty (item_text item) else None in
  let s :=
    match JsMap.get (itemEvents s) (item_id item) with
    | Some itemEvent =>
        let status :=
          if bool_decide (item_status item = Some "failed"%string)
          then failed else completed in
        let summary :=
          match agentText with
          | Some text => Some (JsString.slice text 0 (Some 200))
          | None =>
              if String.eqb (item_type item) "command_execution" then
                match nonEmpty (item_command item) with
                | Some command => Some command
                | None => summary itemEvent
                end
              else summary itemEvent
          end in
        with_itemEvents
          (JsMap.set (itemEvents s) (item_id item)
             {| itemType := itemType itemEvent; itemStatus := status;
                summary := summary |})
          s
    | None => s
    end in
  match agentText with
  | Some text => with_result (Some text) s
  | None => s
  end.

(** What [handleEvent] assigns to the session object, the re-keying of
    [thread.started] apart. *)
Definition handleEvent_session (event : CodexEvent) (s : Session) : Session :=
  let s := with_eventBuffer (EventBuffer.push (eventBuffer s) event) s in
  match event with
  | ThreadStarted _ => s
  | TurnStarted => with_turnCount (turnCount s + 1) s
  | TurnCompleted usage =>
      let s := with_status done s in
      match usage with
      | Some u => with_usage (Some u) s
      | None => s
      end
  | TurnFailed err =>
      with_error
        (Some match nonEmpty err with
              | Some text => text
              | None => "Turn failed"%string
              end)
        (with_status error s)
  | ItemStarted item => itemStarted item s
  | ItemUpdated item => itemUpdated item s
  | ItemCompleted item => itemCompleted item s
  | StreamError _ => s
  end.

Definition handleEvent (r : nat) (event : CodexEvent) (m : Manager) : Manager :=
  match heap m !! r with
  | None => m
  | Some session =>
      let m := update r (handleEvent_session event) m in
      match event with
      | ThreadStarted newId =>
          let oldId := id session in
          if negb (String.eqb oldId newId) then
            let m := with_sessions (JsMap.delete (sessions m) oldId) m in
            let m := update r (with_id newId) m in
            with_sessions (JsMap.set (sessions m) newId r) m
          else m
      | _ => m
      end
  end.

Record StartParams := {
  start_prompt : string;
  start_workingDirectory : option string;
  start_model : option string;
  start_approvalPolicy : option string;
  start_sandbox : option string;
  start_fullAuto : option bool;
  start_profile : option string;
  start_config : option (list (string * string));
  start_baseInstructions : option string;
  start_images : option (list string);
  start_skipGitRepoCheck : option bool;
  start_dangerouslyBypassApprovalsAndSandbox : option bool;
}.

(** [startSession] up to the wait for the [thread.started] event: the
    reference of the new session object.  [now], [cwd] and [randomSuffix]
    are the clock, [process.cwd()] and the random part of the temp id,
    [child] the handle [spawnCodexProcess] returns, unless [spawnThrows].
    The session is stored before the process is spawned: when the spawn
    throws, the call throws with the session in the store. *)
Definition startSession (env : EnvConfig) (now : Z) (cwd randomSuffix : string)
    (child : ChildProcess) (spawnThrows : bool) (params : StartParams)
    (m : Manager) : Manager * result nat :=
  if countActiveSessions m >=? maxSessions env then
    (m, Throw (MaxSessionsReached (maxSessions env)))
  else
    let workingDirectory :=
      match start_workingDirectory params with
      | Some d => if String.eqb d "" then cwd else d
      | None => cwd
      end in
    let config :=
      {| workingDirectory := workingDirectory;
         model := start_model params;
         approvalPolicy := start_approvalPolicy params;
         sandbox := start_sandbox params;
         fullAuto := start_fullAuto params;
         profile := start_profile params;
         config_overrides := start_config params;
         baseInstructions := start_baseInstructions params;
         images := start_images params;
         skipGitRepoCheck := start_skipGitRepoCheck params;
         dangerouslyBypassApprovalsAndSandbox :=
           start_dangerouslyBypassApprovalsAndSandbox params |} in
    let tempId :=
      ("temp_" +:+ JsString.ofNumber now +:+ "_" +:+ randomSuffix)%string in
    let session :=
      {| id := tempId; status := active; process := None; createdAt := now;
         session_workingDirectory := workingDirectory; config := config;
         eventBuffer := EventBuffer.create (eventBufferSize env);
         pendingQuestion := None; session_result := None;
         session_error := None; itemEvents := JsMap.empty;
         session_usage := None; turnCount := 0 |} in
    let '(r, m) := alloc session m in
    let m := with_sessions (JsMap.set (sessions m) tempId r) m in
    if spawnThrows then (m, Throw SpawnError)
    else
      let m :=
        emit (Spawned child
                {| prompt := start_prompt params;
                   spawn_workingDirectory := workingDirectory;
                   resumeSessionId := None;
                   spawn_images := start_images params;
                   spawn_config := config |}) m in
      (update r (with_process (Some child)) m, Ok r).

Definition replyOf (r : nat) (m : Manager) : option Reply :=
  match heap m !! r with
  | Some s => Some {| reply_sessionId := id s; reply_status := status s |}
  | None => None
  end.

(** [respondToQuestion]; [stdinAvailable] says whether the stdin of the
    session's process can be written. *)
Definition respondToQuestion (stdinAvailable : bool)
    (sessionId questionId : string) (answers : list string) (m : Manager)
    : Manager * result (option Reply) :=
  match lookup m sessionId with
  | None => (m, Throw (UnknownSession sessionId))
  | Some (r, session) =>
      match pendingQuestion session with
      | None => (m, Throw (NoPendingQuestion sessionId))
      | Some q =>
          if negb (String.eqb (q_id (data q)) questionId) then
            (m, Throw (QuestionIdMismatch (q_id (data q)) questionId))
          else
            let response := translateAnswer answers in
            let m := clearTimeout questionId m in
            let sent :=
              match process session with
              | Some proc => sendApprovalResponse stdinAvailable proc response m
              | None => (m, Ok tt)
              end in
            match sent with
            | (m, Throw e) => (m, Throw e)
            | (m, Ok _) =>
                let m := settle (resolve q) response m in
                let m := update r (with_pendingQuestion None) m in
                let m := update r (with_status active) m in
                (m, Ok (replyOf r m))
            end
      end
  end.

Definition interruptSession (sessionId : string) (m : Manager)
    : Manager * result (option Reply) :=
  match lookup m sessionId with
  | None => (m, Throw (UnknownSession sessionId))
  | Some (r, session) =>
      match process session with
      | None => (m, Throw (NoActiveProcess sessionId))
      | Some proc =>
          let m := emit (Killed proc "SIGINT") m in
          let m := update r (with_status interrupted) m in
          (m, Ok (Some {| reply_sessionId := id session;
                          reply_status := interrupted |}))
      end
  end.

(** [stop]: SIGTERM to every live process, all pending timeouts cleared. *)
Definition stop (m : Manager) : Manager :=
  cleanup
    (fold_left
       (fun m rs =>
          match process rs.2 with
          | Some proc => emit (Killed proc "SIGTERM") m
          | None => m
          end)
       (sessionObjects m) m).

(** *** The connector as a transition system

    One label per entry point, with what the runtime supplies to the
    call. *)
Inductive Label :=
| Start (now : Z) (cwd randomSuffix : string) (child : ChildProcess)
    (spawnThrows : bool) (params : StartParams)
| Say (sessionId message : string) (imgs : option (list string)) (now : Z)
    (cwd : string) (child : ChildProcess) (spawnThrows : bool)
| Respond (stdinAvailable : bool) (sessionId questionId : string)
    (answers : list string)
| Interrupt (sessionId : string)
| OnEvent (r : nat) (event : CodexEvent)
| OnApproval (r : nat) (requestText : string) (now : Z) (randomSuffix : string)
| OnExit (r : nat) (code : option Z) (signal : option string)
| TimerFires (stdinAvailable : bool) (t : nat)
| Stop.

Definition step (env : EnvConfig) (m : Manager) (l : Label) : Manager :=
  match l with
  | Start now cwd randomSuffix child spawnThrows params =>
      (startSession env now cwd randomSuffix child spawnThrows params m).1
  | Say sessionId message imgs now cwd child spawnThrows =>
      (sayToSession env sessionId message imgs now cwd child spawnThrows m).1
  | Respond stdinAvailable sessionId questionId answers =>
      (respondToQuestion stdinAvailable sessionId questionId answers m).1
  | Interrupt sessionId => (interruptSession sessionId m).1
  | OnEvent r event => handleEvent r event m
  | OnApproval r requestText now randomSuffix =>
      handleApprovalRequest r requestText now randomSuffix m
  | OnExit r code signal => handleExit r code signal m
  | TimerFires stdinAvailable t => fireTimeout stdinAvailable t m
  | Stop => stop m
  end.

Definition run (env : EnvConfig) (m : Manager) (trace : list Label) : Manager :=
  fold_left (step env) trace m.

End Codex.

(** ** Vocabulary for the statements about sessions *)
Module SessionProps.
Import Claude.

(** A property of session objects holds of every object of the heap. *)
Definition holds (P : Session -> Prop) (m : Manager) : Prop :=
  forall r s, heap m !! r = Some s -> P s.

(** Status AWAITING_INPUT comes with a pending question. *)
Definition awaitingHasQuestion (s : Session) : Prop :=
  status s = awaiting_input -> pendingQuestion s <> None.

(** A terminal status comes with no process handle. *)
Definition terminalHasNoProcess (s : Session) : Prop :=
  is_terminal (status s) = true -> process s = None.

(** Every reference in use was allocated: the next reference is new. *)
Definition wellFormed (m : Manager) : Prop :=
  (forall r, In r (JsMap.values (sessions m)) -> (r < nextRef m)%nat) /\
  (forall r s, heap m !! r = Some s -> (r < nextRef m)%nat).

Definition isTimer (l : Label) : bool :=
  match l with
  | TimerFires _ => true
  | _ => false
  end.

(** The two entry points that set a terminal status on a session whose
    process is still running: interrupt, and a result event. *)
Definition endsTurn (l : Label) : bool :=
  match l with
  | Interrupt _ | OnEvent _ (ResultEvent _ _ _ _) => true
  | _ => false
  end.

(** The timer [t] is armed, for the session object [r]. *)
Definition timerOf (m : Manager) (t r : nat) : Prop :=
  exists timer, timers m !! t = Some (Some timer) /\ timer_session timer = r.

(** What a timeout leaves behind: a session awaiting input that has no
    pending question. *)
Definition timedOutState (s : Session) : Prop :=
  status s = awaiting_input /\ pendingQuestion s = None.

(** In the course of [trace] a timeout has fired on the session object
    [r], which has been awaiting input without a pending question in
    every state since. *)
Definition timedOutSince (env : EnvConfig) (trace : list Label) (r : nat)
    : Prop :=
  exists pre t post,
    trace = pre ++ TimerFires t :: post /\
    timerOf (run env initial pre) t r /\
    forall post1 post2,
      post = post1 ++ post2 ->
      exists s,
        heap (run env initial (pre ++ TimerFires t :: post1)) !! r = Some s /\
        timedOutState s.

(** The entry point [l], run in state [m], is an interrupt of the session
    object [r], which has a process, or a result event for it. *)
Definition endsTurnOf (m : Manager) (l : Label) (r : nat) : Prop :=
  match l with
  | Interrupt sessionId =>
      exists s, lookup m sessionId = Some (r, s) /\ process s <> None
  | OnEvent r' (ResultEvent _ _ _ _) => r' = r
  | _ => False
  end.

Definition isExitOf (r : nat) (l : Label) : bool :=
  match l with
  | OnExit r' _ _ => Nat.eqb r' r
  | _ => false
  end.

(** After [trace] the session object [r] is between an interrupt or a
    result event and the exit-handler run that follows. *)
Definition inWindow (env : EnvConfig) (trace : list Label) (r : nat) : Prop :=
  exists pre l post,
    trace = pre ++ l :: post /\
    endsTurnOf (run env initial pre) l r /\
    Forall (fun l' => isExitOf r l' = false) post.

(** A session that the ["__pending__"] branch accepts. *)
Definition pendingTemp (x : nat * Session) : Prop :=
  JsString.startsWith (id x.2) "temp_" = true /\ status x.2 = active.

(** A session that the fallback accepts. *)
Definition isOpen (x : nat * Session) : Prop :=
  status x.2 = active \/ status x.2 = awaiting_input.

(** [x] is the first element of [l] with [P]. *)
Definition isFirst {A : Type} (P : A -> Prop) (l : list A) (x : A) : Prop :=
  exists l1 l2, l = l1 ++ x :: l2 /\ P x /\ Forall (fun y => ~ P y) l1.

(** [x] is the most recently created open session of [l], and the first
    of [l] among those created at the same instant. *)
Definition isLatestOpen (l : list (nat * Session)) (x : nat * Session) : Prop :=
  exists l1 l2,
    l = l1 ++ x :: l2 /\ isOpen x /\
    Forall (fun y => isOpen y -> createdAt y.2 < createdAt x.2) l1 /\
    Forall (fun y => isOpen y -> createdAt y.2 <= createdAt x.2) l2.

(** What the loop of the fallback has found after a prefix [pre] of the
    sessions. *)
Definition latestSoFar (pre : list (nat * Session))
    (acc : option (nat * Session)) : Prop :=
  match acc with
  | None => Forall (fun y => ~ isOpen y) pre
  | Some x => isLatestOpen pre x
  end.

(** *** What an entry point does to the session objects

    [changes env l f]: running the entry point [l] may assign to the
    fields of a session object as [f] does.  [fresh l s]: running [l] may
    create the object [s].  [evolves] relates the heap before and after:
    every object afterwards is an object from before, or a created one,
    changed by some such [f]. *)

Definition setMode (mode : option string) (s : Session) : Session :=
  with_config (with_permissionMode mode (config s)) s.

Definition resumed (c : ChildProcess) (s : Session) : Session :=
  with_status active (with_process (Some c) s).

Inductive changes (env : EnvConfig) : Label -> (Session -> Session) -> Prop :=
| change_nothing l :
    changes env l (fun s => s)
| change_say_mode rt sessionId message mode :
    changes env (Say rt sessionId message mode) (setMode mode)
| change_say_resume rt sessionId message mode :
    changes env (Say rt sessionId message mode) (resumed (child rt))
| change_say_mode_resume rt sessionId message mode :
    changes env (Say rt sessionId message mode)
      (fun s => resumed (child rt) (setMode mode s))
| change_resumes_mode rt r message mode :
    changes env (SayResumes rt r message mode) (setMode mode)
| change_resumes_kill rt r message mode :
    changes env (SayResumes rt r message mode)
      (fun s => setMode mode (with_process None s))
| change_resumes_resume rt r message mode :
    changes env (SayResumes rt r message mode)
      (fun s => resumed (child rt) (setMode mode s))
| change_resumes_kill_resume rt r message mode :
    changes env (SayResumes rt r message mode)
      (fun s => resumed (child rt) (setMode mode (with_process None s)))
| change_respond sessionId questionId answers :
    changes env (Respond sessionId questionId answers)
      (fun s => with_status active (with_pendingQuestion None s))
| change_interrupt sessionId :
    changes env (Interrupt sessionId) (with_status interrupted)
| change_event_init r newId timestamp :
    changes env (OnEvent r (InitEvent newId timestamp))
      (fun s => with_id newId (bufferEvent env (InitEvent newId timestamp) s))
| change_event r event :
    changes env (OnEvent r event)
      (fun s =>
         match event with
         | InitEvent _ _ | UnknownEvent _ => bufferEvent env event s
         | StreamEvent _ =>
             handleStreamEvent_session event (bufferEvent env event s)
         | ResultEvent st res cost_usd turns =>
             handleResult_session st res cost_usd turns
               (bufferEvent env event s)
         end)
| change_exit r code signal :
    changes env (OnExit r code signal) (handleExit_session code signal)
| change_permission request q :
    changes env (OnPermission request)
      (fun s => with_status awaiting_input (with_pendingQuestion (Some q) s))
| change_timer t :
    changes env (TimerFires t) (with_pendingQuestion None).

Definition fresh (l : Label) (s : Session) : Prop :=
  match l with
  | Start rt _ =>
      status s = active
      /\ (process s = Some (child rt) \/ process s = None)
      /\ pendingQuestion s = None
  | Say _ sessionId _ _ =>
      id s = sessionId /\ status s = done /\ process s = None
      /\ pendingQuestion s = None
  | _ => False
  end.

Definition evolves (F : (Session -> Session) -> Prop) (N : Session -> Prop)
    (h h' : gmap nat Session) : Prop :=
  forall r s',
    h' !! r = Some s' ->
    exists f, F f /\
      ((exists s, h !! r = Some s /\ s' = f s) \/ (exists s, N s /\ s' = f s)).


End SessionProps.

(** ** Fixtures: the configuration and the inputs of the scenarios *)
Module Fixture.
Import Json Claude.

Definition env : EnvConfig :=
  {| claudeCodePath := "claude"; permissionTimeoutMs := 500;
     maxSessions := 10; logLevel := "error"; eventBufferSize := 100 |}.

Definition rt1 : Runtime :=
  {| now := 1; cwd := "/work"; randomSuffix := "a"; child := 11%nat;
     spawnThrows := false; stdinAvailable := true |}.

Definition rt2 : Runtime :=
  {| now := 2; cwd := "/work"; randomSuffix := "b"; child := 12%nat;
     spawnThrows := false; stdinAvailable := true |}.

Definition params : StartParams :=
  {| start_prompt := "Edit something"; start_workingDirectory := None;
     start_model := None; start_permissionMode := None;
     start_allowedTools := None; start_disallowedTools := None;
     start_maxTurns := None; start_maxBudgetUsd := None;
     start_systemPrompt := None; start_dangerouslySkipPermissions := None |}.

(** The approval request of scenario B. *)
Definition editRequest : PermissionCallbackRequest :=
  {| req_sessionId := "__pending__"; req_toolName := "Edit";
     req_toolInput := [("file_path"%string, JStr "test.ts")];
     req_requestId := "req_1" |}.

Definition activeSession : Session :=
  {| id := "s1"; status := active; process := Some 7%nat; createdAt := 0;
     session_workingDirectory := "/";
     config := {| workingDirectory := "/"; model := None;
                  permissionMode := None; allowedTools := None;
                  disallowedTools := None; maxTurns := None;
                  maxBudgetUsd := None; systemPrompt := None;
                  dangerouslySkipPermissions := None |};
     eventBuffer := []; pendingQuestion := None; toolUseEvents := [];
     session_result := None; session_error := None;
     costUsd := None; turnCount := None |}.

(** One session started and not yet initialised. *)
Definition started : Manager := run env initial [Start rt1 params].

(** Two sessions started one after the other, both still on temp ids. *)
Definition startedTwice : Manager :=
  run env initial [Start rt1 params; Start rt2 params].

(** Scenario B up to the approval request. *)
Definition awaiting : Manager :=
  run env initial [Start rt1 params; OnPermission editRequest].

(** Scenario G: one slot, taken by a running session. *)
Definition envOne : EnvConfig :=
  {| claudeCodePath := "claude"; permissionTimeoutMs := 500;
     maxSessions := 1; logLevel := "error"; eventBufferSize := 100 |}.

Definition startedOne : Manager := run envOne initial [Start rt1 params].

(** The same for the codex connector: the one slot is taken by a session
    adopted and resumed through [sayToSession]. *)
Definition codexEnvOne : Codex.EnvConfig :=
  {| Codex.cliPath := "codex"; Codex.approvalTimeoutMs := 500;
     Codex.maxSessions := 1; Codex.logLevel := "error";
     Codex.eventBufferSize := 100; Codex.codexHome := "/home/.codex" |}.

Definition codexBusy : Codex.Manager :=
  (Codex.sayToSession codexEnvOne "thread-1" "Hello" None 1 "/work" 21%nat
     false Codex.initial).1.

(** A session interrupted while running, whose process then exits with
    code 0 and no signal; no result event arrives. *)
Definition interruptedThenExited : Manager :=
  run env initial
    [Start rt1 params; Interrupt "temp_1_a"; OnExit 0%nat (Some 0) None].

End Fixture.

(** ** claude-code-mcp/src/process-manager.ts: [sendMessage] *)
Module ClaudeProcess.
Import Json Claude.

(** What [sendMessage] writes to the stdin of the process: the JSON text
    of the user message and a line feed; it throws when the stdin of the
    process cannot be written. *)
Definition sendMessage (stdinAvailable : bool) (sessionId message : string)
    : result string :=
  if stdinAvailable then
    Ok (stringify
          (JObj [("type"%string, JStr "user");
                 ("message"%string,
                  JObj [("role"%string, JStr "user");
                        ("content"%string, JStr message)]);
                 ("session_id"%string, JStr sessionId)])
        +:+ newline)%string
  else Throw StdinNotAvailable.

(** The line feed, the separator of the line protocol. *)
Definition lineFeed : ascii := ascii_of_N 10.

End ClaudeProcess.

(** ** Vocabulary for the statements about tool use and shutdown *)
Module ToolUseProps.
Import Claude.

Definition isRunning (t : ToolUseEvent) : Prop := tool_status t = running.

Definition isCompleted (t : ToolUseEvent) : Prop := tool_status t = completed.

Definition complete (t : ToolUseEvent) : ToolUseEvent :=
  {| tool_name := tool_name t; tool_status := completed |}.

(** The stream event that starts a tool-use block. *)
Definition toolStart (name : option string) : ParsedEvent :=
  StreamEvent (Some {| inner_type := "content_block_start";
                       inner_delta := None;
                       inner_content_block :=
                         Some {| block_type := "tool_use";
                                 block_name := name |} |}).

(** The stream event that stops a block. *)
Definition blockStop (block : option ContentBlock) : ParsedEvent :=
  StreamEvent (Some {| inner_type := "content_block_stop";
                       inner_delta := None;
                       inner_content_block := block |}).

(** The timer [t] is not armed. *)
Definition cleared (ts : list (option Timer)) (t : nat) : Prop :=
  forall timer, ts !! t <> Some (Some timer).

(** The SIGTERM signals for the sessions [l] that have a process. *)
Definition sigterms (l : list (nat * Session)) : list Effect :=
  omap (fun rs => match process rs.2 with
                  | Some proc => Some (Killed proc "SIGTERM")
                  | None => None
                  end) l.

End ToolUseProps.

(** ** Vocabulary for the statements about the store *)
Module StoreProps.
Import Claude SessionProps.

(** Every entry of the store is filed under the id of its session
    object, and no id is filed twice. *)
Definition keyed (m : Manager) : Prop :=
  NoDup (map fst (sessions m)) /\
  forall k r, In (k, r) (sessions m) ->
    exists s, heap m !! r = Some s /\ id s = k.

Definition consistent (m : Manager) : Prop := wellFormed m /\ keyed m.

(** The objects of [h] are still there in [h'], under the same ids. *)
Definition idsKept (h h' : gmap nat Session) : Prop :=
  forall r s, h !! r = Some s -> exists s', h' !! r = Some s' /\ id s' = id s.

(** What an entry point creates, with the history it starts from. *)
Definition created (l : Label) (s : Session) : Prop :=
  fresh l s /\ eventBuffer s = [] /\ toolUseEvents s = [].

(** The history of a session is within the configured size. *)
Definition historyBounded (env : EnvConfig) (s : Session) : Prop :=
  Z.of_nat (List.length (eventBuffer s)) <= eventBufferSize env.

End StoreProps.

(** ** Vocabulary for the statements about codex sessions *)
Module CodexProps.
Import Codex.

(** A property of session objects holds of every object of the heap. *)
Definition holds (P : Session -> Prop) (m : Manager) : Prop :=
  forall r s, heap m !! r = Some s -> P s.

(** Status AWAITING_APPROVAL comes with a pending question. *)
Definition awaitingHasQuestion (s : Session) : Prop :=
  status s = awaiting_approval -> pendingQuestion s <> None.

Definition isTurnStarted (e : CodexEvent) : bool :=
  match e with
  | TurnStarted => true
  | _ => false
  end.

(** The events [es] arrive, in order, for the session object [r]. *)
Definition handleEvents (r : nat) (es : list CodexEvent) (m : Manager)
    : Manager :=
  fold_left (fun m e => handleEvent r e m) es m.

End CodexProps.

(* ===================================================================== *)
(** * Part II: lemmas and theorems                                        *)
(* ===================================================================== *)

(** ** Strings *)
Module JsStringFacts.
Import JsString.

Lemma append_nil b : "" +:+ b = b.
Proof. reflexivity. Qed.

Lemma append_cons x a b : String x a +:+ b = String x (a +:+ b).
Proof. reflexivity. Qed.

Lemma append_char a c b : (a +:+ String c "") +:+ b = a +:+ String c b.
Proof.
  induction a as [|x a IH]; rewrite ?append_nil, ?append_cons;
    [reflexivity|now rewrite IH].
Qed.

Lemma indexOfFrom_absent c s i :
  ~ occurs c s -> indexOfFrom c s i = -1.
Proof.
  revert i; induction s as [|a s IH]; intros i Hno; simpl; [reflexivity|].
  simpl in Hno.
  destruct (Ascii.eqb_spec a c) as [->|Hne].
  - exfalso; apply Hno; now left.
  - apply IH; intros Hocc; apply Hno; now right.
Qed.

Lemma indexOfFrom_first c a b i :
  ~ occurs c a ->
  indexOfFrom c (a +:+ String c b) i = i + length a.
Proof.
  revert i; induction a as [|x a IH]; intros i Hno;
    rewrite ?append_nil, ?append_cons; cbn [indexOfFrom].
  - rewrite Ascii.eqb_refl. unfold length; cbn [String.length]; lia.
  - simpl in Hno.
    destruct (Ascii.eqb_spec x c) as [->|Hne].
    + exfalso; apply Hno; now left.
    + rewrite IH by (intros Hocc; apply Hno; now right).
      unfold length; cbn [String.length]; rewrite Nat2Z.inj_succ; lia.
Qed.

Lemma occurs_split c s :
  occurs c s -> exists a b, s = a +:+ String c b /\ ~ occurs c a.
Proof.
  induction s as [|x s IH]; simpl; [intros []|].
  destruct (Ascii.eqb_spec x c) as [->|Hne]; intros Hocc.
  - exists EmptyString, s; split; [reflexivity|simpl; tauto].
  - destruct Hocc as [Heq|Hocc]; [contradiction|].
    destruct (IH Hocc) as (a & b & -> & Hno).
    exists (String x a), b; split; [reflexivity|].
    simpl; intros [Heq|Hin]; [contradiction|tauto].
Qed.

Lemma length_app a b : length (a +:+ b) = length a + length b.
Proof.
  unfold length; induction a as [|x a IH];
    rewrite ?append_nil, ?append_cons; cbn [String.length]; [lia|].
  rewrite !Nat2Z.inj_succ; lia.
Qed.

Lemma length_nonneg s : 0 <= length s.
Proof. unfold length; lia. Qed.

Lemma substring_all s : substring 0 (String.length s) s = s.
Proof. induction s as [|x s IH]; simpl; [reflexivity|now rewrite IH]. Qed.

Lemma substring_prefix a b : substring 0 (String.length a) (a +:+ b) = a.
Proof.
  induction a as [|x a IH]; rewrite ?append_nil, ?append_cons; simpl.
  - now destruct b.
  - now rewrite IH.
Qed.

Lemma substring_suffix a b :
  substring (String.length a) (String.length b) (a +:+ b) = b.
Proof.
  induction a as [|x a IH]; rewrite ?append_nil, ?append_cons; simpl;
    [apply substring_all|exact IH].
Qed.

Lemma slice_prefix a b : slice (a +:+ b) 0 (Some (length a)) = a.
Proof.
  unfold slice, relativeIndex. rewrite length_app.
  pose proof (length_nonneg a); pose proof (length_nonneg b).
  replace (0 <? 0) with false by reflexivity.
  destruct (length a <? 0) eqn:E; [apply Z.ltb_lt in E; lia|].
  rewrite (Z.min_l 0) by lia. rewrite (Z.min_l (length a)) by lia.
  rewrite Z.sub_0_r, Z.max_l by lia.
  unfold length; rewrite Nat2Z.id. apply substring_prefix.
Qed.

Lemma slice_suffix a b : slice (a +:+ b) (length a) None = b.
Proof.
  unfold slice, relativeIndex. rewrite length_app.
  pose proof (length_nonneg a); pose proof (length_nonneg b).
  destruct (length a <? 0) eqn:E; [apply Z.ltb_lt in E; lia|].
  rewrite Z.min_l by lia.
  replace (length a + length b - length a) with (length b) by lia.
  rewrite Z.max_l by lia.
  unfold length; rewrite !Nat2Z.id. apply substring_suffix.
Qed.

Lemma trimEnd_fixed s :
  (forall c, lastChar s = Some c -> isWhiteSpace c = false) -> trimEnd s = s.
Proof.
  induction s as [|a s IH]; intros Hlast; [reflexivity|].
  destruct s as [|b s].
  - simpl. now rewrite (Hlast a eq_refl).
  - change (trimEnd (String a (String b s)))
      with (match trimEnd (String b s) with
            | EmptyString =>
                if isWhiteSpace a then EmptyString else String a EmptyString
            | t => String a t
            end).
    rewrite IH by exact Hlast. reflexivity.
Qed.

Lemma trimStart_fixed s :
  (forall c, firstChar s = Some c -> isWhiteSpace c = false) -> trimStart s = s.
Proof.
  destruct s as [|a s]; intros Hfirst; [reflexivity|].
  simpl. now rewrite (Hfirst a eq_refl).
Qed.

Lemma trim_fixed s : noOuterWhiteSpace s -> trim s = s.
Proof.
  intros [Hfirst Hlast]. unfold trim.
  rewrite trimStart_fixed by exact Hfirst. now apply trimEnd_fixed.
Qed.

Lemma trim_after_space s : noOuterWhiteSpace s -> trim (String " " s) = s.
Proof. intros Hs. unfold trim; simpl trimStart. now apply trim_fixed. Qed.

End JsStringFacts.

(** ** The answer parser *)
Module AnswerParserFacts.
Import JsString JsStringFacts AnswerParser.

Lemma parseAnswer_no_colon s :
  ~ occurs ":" s -> parseAnswer s = {| decision := trim s; reason := None |}.
Proof.
  intros Hno. unfold parseAnswer, indexOf.
  now rewrite indexOfFrom_absent.
Qed.

Lemma parseAnswer_first_colon a b :
  ~ occurs ":" a ->
  parseAnswer (a +:+ String ":" b) =
    {| decision := trim a; reason := Some (trim b) |}.
Proof.
  intros Hno. unfold parseAnswer, indexOf.
  rewrite indexOfFrom_first by exact Hno.
  pose proof (length_nonneg a).
  destruct (0 + length a =? -1) eqn:E; [apply Z.eqb_eq in E; lia|].
  rewrite Z.add_0_l, slice_prefix.
  rewrite <- append_char.
  replace (length a + 1) with (length (a +:+ ":"))
    by (rewrite length_app; reflexivity).
  now rewrite slice_suffix.
Qed.

(** C9. The answer parser: without a colon the whole trimmed input is the
    decision and there is no reason (the empty input gives the empty
    decision); with a colon the input is split at its first colon only,
    both sides are trimmed and the reason keeps its own colons; hence
    [parse (d + ": " + r) = {d, r}] and [parse d = {d}] for [d], [r] free
    of outer white space and [d] free of colons. *)
Theorem parseAnswer_spec (s a b d r : string) :
  (~ occurs ":" s ->
     parseAnswer s = {| decision := trim s; reason := None |}) /\
  parseAnswer "" = {| decision := ""; reason := None |} /\
  (occurs ":" s ->
     exists a' b', s = a' +:+ ":" +:+ b' /\ ~ occurs ":" a') /\
  (~ occurs ":" a ->
     parseAnswer (a +:+ ":" +:+ b) =
       {| decision := trim a; reason := Some (trim b) |}) /\
  (noOuterWhiteSpace d -> noOuterWhiteSpace r -> ~ occurs ":" d ->
     parseAnswer (d +:+ ": " +:+ r) = {| decision := d; reason := Some r |} /\
     parseAnswer d = {| decision := d; reason := None |}).
Proof.
  split; [apply parseAnswer_no_colon|].
  split; [reflexivity|].
  split; [apply occurs_split|].
  split; [apply parseAnswer_first_colon|].
  intros Hd Hr Hno; split.
  - change (d +:+ ": " +:+ r) with (d +:+ String ":" (String " " r)).
    rewrite parseAnswer_first_colon by exact Hno.
    now rewrite trim_fixed, trim_after_space.
  - rewrite parseAnswer_no_colon by exact Hno. now rewrite trim_fixed.
Qed.

Lemma parseAnswer_spec_witness :
  AnswerParser.parseAnswer "deny: reason: with: colons" =
    {| decision := "deny"; reason := Some "reason: with: colons" |} /\
  AnswerParser.parseAnswer "deny" = {| decision := "deny"; reason := None |}.
Proof.
  apply (parseAnswer_spec "" "" "" "deny" "reason: with: colons").
  - split; intros c [= <-]; reflexivity.
  - split; intros c [= <-]; reflexivity.
  - simpl; intros H; repeat (destruct H as [H|H]; [discriminate H|]); exact H.
Defined.

End AnswerParserFacts.

(** ** The ring history *)
Module EventBufferFacts.
Import EventBuffer.

Section Facts.
Context {T : Type}.
Implicit Types (b : t T) (es : list T) (e : T).

Lemma shift_drop (l : list T) : JsArray.shift l = drop 1 l.
Proof. now destruct l. Qed.

Lemma pushAll_snoc b es e : pushAll b (es ++ [e]) = push (pushAll b es) e.
Proof. unfold pushAll. now rewrite fold_left_app. Qed.

Lemma maxSize_pushAll b es : maxSize (pushAll b es) = maxSize b.
Proof.
  induction es as [|e es IH] using rev_ind; [reflexivity|].
  now rewrite pushAll_snoc.
Qed.

(** After any sequence of pushes the buffer holds the last
    [min n k] pushed events, oldest first. *)
Lemma events_pushAll (k : Z) es :
  0 <= k ->
  events (pushAll (create k) es) = drop (List.length es - Z.to_nat k) es.
Proof.
  intros Hk. induction es as [|e es IH] using rev_ind; [reflexivity|].
  rewrite pushAll_snoc. unfold push.
  rewrite maxSize_pushAll, IH. cbn [events maxSize create].
  rewrite !length_app, length_drop. cbn [List.length].
  destruct (Z.gtb_spec
              (Z.of_nat (List.length es - (List.length es - Z.to_nat k) + 1)) k)
    as [Hgt|Hle].
  - rewrite shift_drop, <- drop_app_le by lia.
    rewrite drop_drop. f_equal. lia.
  - rewrite <- drop_app_le by lia. f_equal. lia.
Qed.

Lemma length_pushAll (k : Z) es :
  0 <= k ->
  length (pushAll (create k) es) = Z.min (Z.of_nat (List.length es)) k.
Proof.
  intros Hk. unfold length. rewrite events_pushAll by exact Hk.
  rewrite length_drop. lia.
Qed.

(** [getRecent m] for [1 <= m <= length]: the last [m] events. *)
Lemma getRecent_pos b (m : Z) :
  1 <= m <= length b ->
  getRecent b m = drop (List.length (events b) - Z.to_nat m) (events b).
Proof.
  unfold getRecent, length, JsArray.slice, JsString.relativeIndex.
  intros Hm. destruct (Z.ltb_spec (- m) 0) as [_|Hge]; [|lia].
  f_equal. lia.
Qed.

Lemma getRecent_pushAll (k : Z) es (m : Z) :
  0 <= k -> 1 <= m <= length (pushAll (create k) es) ->
  getRecent (pushAll (create k) es) m = drop (List.length es - Z.to_nat m) es.
Proof.
  intros Hk Hm. rewrite getRecent_pos by exact Hm.
  rewrite length_pushAll in Hm by exact Hk.
  rewrite events_pushAll by exact Hk.
  rewrite length_drop, drop_drop. f_equal. lia.
Qed.

(** [getRecent 0] is [slice(-0)], that is [slice(0)]: the whole buffer. *)
Lemma getRecent_zero b : getRecent b 0 = events b.
Proof.
  unfold getRecent, JsArray.slice, JsString.relativeIndex. cbn.
  now rewrite Z.min_l by lia.
Qed.

End Facts.

(** C7 (the failing input). With capacity 3 and the two events 1, 2
    appended, the length is [min 2 3 = 2], and [getRecent 0], which is
    [slice(-0)], returns both events, where the last 0 events are none. *)
Theorem getRecent_zero_returns_all :
  length (pushAll (create 3) [1; 2]) = 2 /\
  getRecent (pushAll (create 3) [1; 2]) 0 = [1; 2].
Proof. split; reflexivity. Qed.

End EventBufferFacts.

(** ** JSON objects *)
Module JsonFacts.
Import Json.

Lemma object_get_set_eq (o : object) k v : get (set o k v) k = Some v.
Proof.
  induction o as [|[k' v'] o IH]; simpl.
  - now rewrite String.eqb_refl.
  - destruct (String.eqb k' k) eqn:E; simpl; rewrite E; [reflexivity|exact IH].
Qed.

Lemma object_get_set_ne (o : object) k k' v : k' <> k -> get (set o k v) k' = get o k'.
Proof.
  intros Hne. induction o as [|[k0 v0] o IH]; simpl.
  - destruct (String.eqb_spec k k'); [congruence|reflexivity].
  - destruct (String.eqb_spec k0 k) as [->|Hk]; simpl.
    + destruct (String.eqb_spec k k'); [congruence|reflexivity].
    + destruct (String.eqb_spec k0 k'); [reflexivity|exact IH].
Qed.

Lemma object_set_fresh (o : object) k v : has o k = false -> set o k v = o ++ [(k, v)].
Proof.
  unfold has. induction o as [|[k0 v0] o IH]; simpl; [reflexivity|].
  destruct (String.eqb k0 k); [discriminate|].
  intros H. now rewrite IH.
Qed.

End JsonFacts.

(** ** The answer translator of the claude connector *)
Module TranslateFacts.
Import Json JsonFacts AnswerParser Claude.

(** C8. [translateAnswer]: a tool approval whose first parsed decision is
    "allow" is allowed, any other (or no) answer is denied with the parsed
    reason as message; a plan approval whose first decision is "approve"
    is allowed with the original input as updated input, any other is
    denied with the reason; a question is allowed, and its updated input
    is the original input with the field [answers] set to the list of the
    operator's answers, all other fields kept. *)
Theorem translateAnswer_spec (a : string) (rest answers : list string)
    (input : object) :
  (decision (parseAnswer a) = "allow"%string ->
     translateAnswer tool_approval (a :: rest) input =
       {| behavior := allow; message := None; updatedInput := None |}) /\
  (decision (parseAnswer a) <> "allow"%string ->
     translateAnswer tool_approval (a :: rest) input =
       {| behavior := deny; message := reason (parseAnswer a);
          updatedInput := None |}) /\
  translateAnswer tool_approval [] input =
    {| behavior := deny; message := None; updatedInput := None |} /\
  (decision (parseAnswer a) = "approve"%string ->
     translateAnswer plan_approval (a :: rest) input =
       {| behavior := allow; message := None; updatedInput := Some input |}) /\
  (decision (parseAnswer a) <> "approve"%string ->
     translateAnswer plan_approval (a :: rest) input =
       {| behavior := deny; message := reason (parseAnswer a);
          updatedInput := None |}) /\
  translateAnswer plan_approval [] input =
    {| behavior := deny; message := None; updatedInput := None |} /\
  (exists updated,
     translateAnswer question answers input =
       {| behavior := allow; message := None; updatedInput := Some updated |} /\
     get updated "answers" = Some (JArr (map JStr answers)) /\
     (forall k, k <> "answers"%string -> get updated k = get input k) /\
     (has input "answers" = false ->
        updated = input ++ [("answers"%string, JArr (map JStr answers))])).
Proof.
  repeat split.
  - intros H. cbn [translateAnswer map]. now rewrite H.
  - intros H. cbn [translateAnswer map].
    destruct (String.eqb_spec (decision (parseAnswer a)) "allow");
      [contradiction|reflexivity].
  - intros H. cbn [translateAnswer map]. now rewrite H.
  - intros H. cbn [translateAnswer map].
    destruct (String.eqb_spec (decision (parseAnswer a)) "approve");
      [contradiction|reflexivity].
  - eexists; split; [reflexivity|]. split; [apply object_get_set_eq|].
    split; [intros k Hk; now apply object_get_set_ne|apply object_set_fresh].
Qed.

Lemma translateAnswer_spec_witness :
  translateAnswer tool_approval ["allow"%string] [] =
    {| behavior := allow; message := None; updatedInput := None |} /\
  translateAnswer plan_approval
      ["reject: also cover the auth module"%string]
      [("plan"%string, JStr "1. Refactor auth")] =
    {| behavior := deny; message := Some "also cover the auth module"%string;
       updatedInput := None |}.
Proof.
  split.
  - apply (translateAnswer_spec "allow" [] [] []). reflexivity.
  - apply (translateAnswer_spec "reject: also cover the auth module" [] []
             [("plan"%string, JStr "1. Refactor auth")]).
    vm_compute. discriminate.
Defined.

End TranslateFacts.

(** ** The event parsers *)
Module ParserFacts.
Import Json JsonProps.

(** [String(v)] throws for the values that are not convertible, and for
    no other. *)
Lemma toString_None (v : json) : toString v = None <-> notConvertible v.
Proof.
  revert v. fix IH 1. intros v.
  destruct v as [|[]|n|s|items|fields]; cbn [toString];
    try (split; [discriminate|intros H; inversion H]).
  - assert (Heach :
      (fix each (l : list json) : option (list string) :=
         match l with
         | [] => Some []
         | x :: l' =>
             match
               match x with
               | JNull => Some ""%string
               | _ => toString x
               end
             with
             | Some text =>
                 match each l' with
                 | Some texts => Some (text :: texts)
                 | None => None
                 end
             | None => None
             end
         end) items = None <->
      exists x, In x items /\ notConvertible x).
    { induction items as [|x items IHitems].
      - split; [discriminate|]. intros (x & [] & _).
      - assert (Hx : match x with
                     | JNull => Some ""%string
                     | _ => toString x
                     end = None <-> notConvertible x).
        { rewrite <- (IH x). destruct x; try reflexivity.
          split; discriminate. }
        destruct (match x with
                  | JNull => Some ""%string
                  | _ => toString x
                  end) as [text|].
        + match goal with
          | |- match ?e with _ => _ end = None <-> _ =>
              destruct e as [texts|] eqn:E
          end.
          * split; [discriminate|].
            intros (y & [<-|Hy] & Hn).
            -- apply Hx in Hn. discriminate Hn.
            -- assert (Hnone : @None (list string) = None) by reflexivity.
               destruct IHitems as [_ IHitems].
               discriminate (IHitems (ex_intro _ y (conj Hy Hn))).
          * split; [|reflexivity]. intros _.
            destruct IHitems as [IHitems _].
            destruct (IHitems eq_refl) as (y & Hy & Hn).
            exists y. split; [now right|exact Hn].
        + split; [|reflexivity]. intros _. exists x.
          split; [now left|]. now apply Hx. }
    match goal with
    | |- match ?e with _ => _ end = None <-> _ => destruct e as [texts|]
    end.
    + split; [discriminate|]. intros H. inversion H as [|items' x Hin Hx]; subst.
      destruct Heach as [_ Heach].
      discriminate (Heach (ex_intro _ x (conj Hin Hx))).
    + split; [|reflexivity]. intros _.
      destruct Heach as [Heach _].
      destruct (Heach eq_refl) as (x & Hin & Hx).
      exact (notConvertible_array items x Hin Hx).
  - destruct (has fields "toString") eqn:E.
    + split; [|reflexivity]. intros _. now constructor.
    + split; [discriminate|]. intros H. inversion H; congruence.
Qed.




End ParserFacts.

(** ** The exit handler *)
Module ExitFacts.
Import Claude Fixture.

(** C6 (as amended). [handleExit] clears the process handle in all
    cases.  A status that is already terminal (DONE, ERROR or
    INTERRUPTED), whoever set it, is preserved together with the error
    text; a status ACTIVE or AWAITING_INPUT becomes INTERRUPTED when the
    signal is SIGINT, else DONE when the code is 0, else ERROR with the
    error text "Process exited with code <code>". *)
Theorem handleExit_spec (s : Session) (code : option Z)
    (signal : option string) :
  process (handleExit_session code signal s) = None /\
  (is_terminal (status s) = true ->
     status (handleExit_session code signal s) = status s /\
     session_error (handleExit_session code signal s) = session_error s) /\
  (is_terminal (status s) = false ->
     (signal = Some "SIGINT"%string ->
        status (handleExit_session code signal s) = interrupted) /\
     (signal <> Some "SIGINT"%string -> code = Some 0 ->
        status (handleExit_session code signal s) = done) /\
     (signal <> Some "SIGINT"%string -> code <> Some 0 ->
        status (handleExit_session code signal s) = error /\
        session_error (handleExit_session code signal s) =
          Some ("Process exited with code " +:+ JsString.ofExitCode code)%string)).
Proof.
  unfold handleExit_session.
  destruct s as [i st p c w cfg buf q tools res err cost turns].
  cbn [status with_process process session_error].
  split; [|split].
  - destruct st; repeat case_bool_decide; reflexivity.
  - destruct st; intros [=]; split; reflexivity.
  - destruct st; intros [=]; (split; [|split]).
    all: intros; repeat case_bool_decide; try congruence; cbn;
      try split; reflexivity.
Qed.

Lemma handleExit_spec_witness :
  status (handleExit_session (Some 1) None activeSession) = error /\
  session_error (handleExit_session (Some 1) None activeSession) =
    Some "Process exited with code 1"%string.
Proof.
  apply (handleExit_spec activeSession (Some 1) None);
    [reflexivity|discriminate|discriminate].
Defined.

(** C6 (counterexample). A running session is interrupted, which sets
    the status INTERRUPTED, and its process then exits with code 0 and no
    signal: the status stays INTERRUPTED although no result event has set
    it, where the claim gives DONE.  And a session that is active when
    its process exits with code 1 gets the error text "Process exited
    with code 1", with a capital P. *)
Lemma exit_after_interrupt_keeps_interrupted :
  (status <$> heap interruptedThenExited !! 0%nat) = Some interrupted /\
  (process <$> heap interruptedThenExited !! 0%nat) = Some None /\
  eventBuffer <$> heap interruptedThenExited !! 0%nat = Some [] /\
  session_error (handleExit_session (Some 1) None activeSession) =
    Some "Process exited with code 1"%string.
Proof. vm_compute. repeat split. Qed.

End ExitFacts.

(** ** The heap of the claude connector *)
Module ManagerFacts.
Import Claude SessionProps.

Lemma alter_alter (f g : Session -> Session) r (h : gmap nat Session) :
  alter g r (alter f r h) = alter (fun s => g (f s)) r h.
Proof.
  apply map_eq; intros j. destruct (decide (r = j)) as [->|Hne].
  - rewrite !lookup_alter_eq. now destruct (h !! j).
  - now rewrite !lookup_alter_ne by exact Hne.
Qed.

Lemma alter_insert_same (f : Session -> Session) r s (h : gmap nat Session) :
  alter f r (<[r := s]> h) = <[r := f s]> h.
Proof.
  apply map_eq; intros j. destruct (decide (r = j)) as [->|Hne].
  - now rewrite lookup_alter_eq, !lookup_insert_eq.
  - now rewrite lookup_alter_ne, !lookup_insert_ne by exact Hne.
Qed.

Lemma heap_settle p v m : heap (settle p v m) = heap m.
Proof. unfold settle. now destruct (promises m !! p) as [[]|]. Qed.

Lemma heap_cleanup m : heap (cleanup m) = heap m.
Proof.
  unfold cleanup. cbn [heap with_pendingTimeouts].
  generalize (JsMap.values (pendingTimeouts m)). intros l.
  revert m; induction l as [|t l IH]; intros m; [reflexivity|].
  cbn [fold_left]. now rewrite IH.
Qed.

Lemma heap_stop m : heap (stop m) = heap m.
Proof.
  unfold stop. rewrite heap_cleanup.
  generalize (sessionObjects m). intros l.
  revert m; induction l as [|x l IH]; intros m; [reflexivity|].
  cbn [fold_left]. rewrite IH. now destruct (process x.2).
Qed.

Lemma heap_resolveQuestion q answers r m :
  heap (resolveQuestion q answers r m) =
    alter (with_pendingQuestion None) r (heap m).
Proof.
  unfold resolveQuestion. rewrite heap_settle. cbn [heap update with_heap].
  now destruct (JsMap.get _ _).
Qed.

Lemma heap_resumeSession env r message c t m :
  heap (resumeSession env r message c t m).1 = heap m \/
  heap (resumeSession env r message c t m).1 = alter (resumed c) r (heap m).
Proof.
  unfold resumeSession. destruct (_ >=? _); [now left|].
  destruct (heap m !! r) eqn:E; [|now left].
  destruct t; [now left|right].
  cbn [fst heap update with_heap emit].
  exact (alter_alter (with_process (Some c)) (with_status active) r (heap m)).
Qed.

Section Evolves.
Context (env : EnvConfig).

Lemma evolves_refl l (h : gmap nat Session) :
  evolves (changes env l) (fresh l) h h.
Proof.
  intros r s' H. exists (fun s => s); split; [constructor|]. left; eauto.
Qed.

Lemma evolves_alter l f r (h : gmap nat Session) :
  changes env l f ->
  evolves (changes env l) (fresh l) h (alter f r h).
Proof.
  intros Hf j s' H. rewrite lookup_alter in H. case_decide.
  - subst j. destruct (h !! r) eqn:E; [|discriminate]. simplify_eq/=.
    exists f; split; [exact Hf|]. left; eauto.
  - exists (fun s => s); split; [constructor|]. left; eauto.
Qed.

Lemma evolves_alter_insert l f r n s0 (h : gmap nat Session) :
  changes env l f -> fresh l s0 ->
  evolves (changes env l) (fresh l) h (alter f r (<[n := s0]> h)).
Proof.
  intros Hf Hs j s' H. rewrite lookup_alter in H. case_decide.
  - subst j. rewrite lookup_insert in H. case_decide.
    + simplify_eq/=. exists f; split; [exact Hf|]. right; eauto.
    + destruct (h !! r) eqn:E; [|discriminate]. simplify_eq/=.
      exists f; split; [exact Hf|]. left; eauto.
  - rewrite lookup_insert in H. case_decide.
    + simplify_eq/=. exists (fun s => s); split; [constructor|]. right; eauto.
    + exists (fun s => s); split; [constructor|]. left; eauto.
Qed.

Lemma evolves_insert l n s0 (h : gmap nat Session) :
  fresh l s0 -> evolves (changes env l) (fresh l) h (<[n := s0]> h).
Proof.
  intros Hs j s' H. rewrite lookup_insert in H.
  exists (fun s => s); split; [constructor|].
  case_decide; simplify_eq/=; [right|left]; eauto.
Qed.

Ltac solve_evolves :=
  cbn [fst snd alloc heap update with_heap with_sessions with_promises
       with_timers with_pendingTimeouts emit createTrackedSession];
  rewrite ?heap_settle, ?alter_alter;
  first
    [ apply evolves_refl
    | apply evolves_insert; cbn [fresh]; repeat split;
      first [left; reflexivity | right; reflexivity]
    | apply evolves_alter; constructor
    | apply evolves_alter_insert;
      [constructor
      |cbn [fresh]; repeat split;
       first [left; reflexivity | right; reflexivity]]
    | rewrite alter_insert_same; apply evolves_insert; cbn [fresh];
      repeat split; first [left; reflexivity | right; reflexivity] ].

(** The two outcomes of the resume at the end of a call. *)
Ltac resume_cases env r message c t m :=
  let m' := fresh "m'" in
  let res := fresh "res" in
  let E := fresh "E" in
  let H := fresh "H" in
  pose proof (heap_resumeSession env r message c t m) as H;
  destruct (resumeSession env r message c t m) as [m' res] eqn:E;
  cbn [fst] in H;
  destruct res; cbn [fst]; destruct H as [-> | ->].

(** Every entry point changes the session objects as [changes] and
    [fresh] say. *)
Lemma step_evolves m l :
  evolves (changes env l) (fresh l) (heap m) (heap (step env m l)).
Proof.
  destruct l; cbn [step].
  - (* Start *)
    unfold startSession. destruct (_ >=? _); [solve_evolves|].
    destruct (spawnThrows rt); solve_evolves.
  - (* Say *)
    unfold sayToSession.
    destruct (JsMap.get (sessions m) sessionId) as [r|] eqn:Hget.
    + destruct (heap m !! r) as [session|] eqn:Hr; [|solve_evolves].
      destruct (process session) as [proc|];
        [destruct (status_eqb (status session) active)|];
        destruct (isSome mode && _); try destruct (stdinAvailable rt);
        try solve_evolves.
      all: match goal with
           | |- context [resumeSession ?e ?r ?msg ?c ?t ?m0] =>
               resume_cases e r msg c t m0
           end.
      all: solve_evolves.
    + cbn [createTrackedSession alloc with_sessions heap].
      rewrite lookup_insert_eq. cbn [process isSome].
      destruct (isSome mode && _).
      all: match goal with
           | |- context [resumeSession ?e ?r ?msg ?c ?t ?m0] =>
               resume_cases e r msg c t m0
           end.
      all: solve_evolves.
  - (* SayResumes *)
    unfold sayAfterExit.
    destruct (heap m !! r) as [session|] eqn:Hr; [|solve_evolves].
    destruct (process session) as [proc|].
    all: match goal with
         | |- context [resumeSession ?e ?r ?msg ?c ?t ?m0] =>
             resume_cases e r msg c t m0
         end.
    all: solve_evolves.
  - (* Respond *)
    unfold respondToQuestion.
    destruct (lookup m sessionId) as [[r session]|]; [|solve_evolves].
    destruct (pendingQuestion session) as [q|]; [|solve_evolves].
    destruct (negb _); [solve_evolves|].
    cbn [fst heap update with_heap]. rewrite heap_resolveQuestion.
    solve_evolves.
  - (* Interrupt *)
    unfold interruptSession.
    destruct (lookup m sessionId) as [[r session]|]; [|solve_evolves].
    destruct (process session) as [proc|]; solve_evolves.
  - (* OnEvent *)
    unfold handleEvent.
    destruct (heap m !! r) as [session|] eqn:Hr; [|solve_evolves].
    destruct event as [newId ts|inner|st res cost turns|raw].
    + destruct (negb _); cbn [heap update with_heap with_sessions];
        rewrite ?alter_alter; apply evolves_alter.
      * apply change_event_init.
      * apply (change_event env r (InitEvent newId ts)).
    + cbn [heap update with_heap]. rewrite alter_alter.
      apply evolves_alter. apply (change_event env r (StreamEvent inner)).
    + cbn [heap update with_heap]. rewrite alter_alter.
      apply evolves_alter.
      apply (change_event env r (ResultEvent st res cost turns)).
    + apply evolves_alter. apply (change_event env r (UnknownEvent raw)).
  - (* OnExit *)
    unfold handleExit. solve_evolves.
  - (* OnPermission *)
    unfold onPermissionRequest.
    destruct (findSessionForPermission m _) as [[r session]|].
    + unfold handlePermissionRequest.
      destruct (buildQuestion _ _ _) as [q|e]; [|solve_evolves].
      cbn [fst newPromise setTimeout heap update with_heap with_promises
           with_timers with_pendingTimeouts].
      rewrite alter_alter. apply evolves_alter.
      apply (change_permission env request).
    + cbn [newPromise fst]. rewrite heap_settle. solve_evolves.
  - (* TimerFires *)
    unfold fireTimeout.
    destruct (timers m !! t) as [[timer|]|]; solve_evolves.
  - (* Stop *)
    rewrite heap_stop. solve_evolves.
Qed.

End Evolves.

(** *** What the handlers do to status, process and pending question *)

Lemma handleStreamEvent_frame event s :
  status (handleStreamEvent_session event s) = status s /\
  process (handleStreamEvent_session event s) = process s /\
  pendingQuestion (handleStreamEvent_session event s) = pendingQuestion s.
Proof.
  unfold handleStreamEvent_session.
  destruct event as [| [inner|] | |]; try (repeat split; reflexivity).
  destruct (inner_content_block inner) as [block|];
    [destruct (_ && _)|]; destruct (String.eqb _ _); repeat split; reflexivity.
Qed.

Lemma handleResult_frame st res cost turns s :
  is_terminal (status (handleResult_session st res cost turns s)) = true /\
  process (handleResult_session st res cost turns s) = process s /\
  pendingQuestion (handleResult_session st res cost turns s) =
    pendingQuestion s.
Proof.
  unfold handleResult_session.
  destruct st, cost, turns; repeat split; reflexivity.
Qed.

Lemma handleExit_terminal code signal s :
  is_terminal (status (handleExit_session code signal s)) = true /\
  process (handleExit_session code signal s) = None /\
  pendingQuestion (handleExit_session code signal s) = pendingQuestion s.
Proof.
  unfold handleExit_session.
  destruct s as [i st p c w cfg buf q tools res err cost turns].
  cbn [status with_process].
  destruct st; repeat case_bool_decide; repeat split; reflexivity.
Qed.

End ManagerFacts.

(** ** Invariants of the session state machine *)
Module InvariantFacts.
Import Claude SessionProps ManagerFacts Fixture.

Lemma awaiting_changes env l f s :
  isTimer l = false -> changes env l f ->
  awaitingHasQuestion s -> awaitingHasQuestion (f s).
Proof.
  unfold awaitingHasQuestion. intros Hl Hf Hs.
  destruct Hf; try discriminate Hl; try exact Hs; cbn; try discriminate.
  - (* an event *)
    destruct event as [newId ts|inner|st res cost turns|raw].
    + exact Hs.
    + destruct (handleStreamEvent_frame (StreamEvent inner)
                  (bufferEvent env (StreamEvent inner) s)) as (-> & _ & ->).
      exact Hs.
    + destruct (handleResult_frame st res cost turns
                  (bufferEvent env (ResultEvent st res cost turns) s))
        as (Hterm & _ & _).
      intros Heq. rewrite Heq in Hterm. discriminate Hterm.
    + exact Hs.
  - (* the exit handler *)
    destruct (handleExit_terminal code signal s) as (Hterm & _ & _).
    intros Heq. rewrite Heq in Hterm. discriminate Hterm.
Qed.

Lemma awaiting_fresh l s : fresh l s -> awaitingHasQuestion s.
Proof.
  unfold awaitingHasQuestion.
  destruct l; cbn [fresh]; try tauto.
  - intros (-> & _). discriminate.
  - intros (_ & -> & _). discriminate.
Qed.

Lemma holds_initial (P : Session -> Prop) : holds P initial.
Proof. intros r s H. cbn in H. now rewrite lookup_empty in H. Qed.

Lemma awaiting_dec s : awaitingHasQuestion s \/ timedOutState s.
Proof.
  unfold awaitingHasQuestion, timedOutState.
  destruct (status s); try (left; discriminate).
  destruct (pendingQuestion s); [left; discriminate|now right].
Qed.

Lemma timedOutState_not_awaiting s :
  timedOutState s -> ~ awaitingHasQuestion s.
Proof. intros [Hst Hq] H. now apply H. Qed.

(** One entry point, one session object: the object has a pending
    question when it is awaiting input, if it had before or is new,
    unless the entry point is the firing of a timer armed for it. *)
Lemma awaiting_step_session env m l r s' :
  heap (step env m l) !! r = Some s' ->
  (forall s, heap m !! r = Some s -> awaitingHasQuestion s) ->
  awaitingHasQuestion s' \/ exists t, l = TimerFires t /\ timerOf m t r.
Proof.
  intros Hs' Hbefore. destruct (isTimer l) eqn:Hl.
  - destruct l; try discriminate Hl. cbn [step] in Hs'.
    unfold fireTimeout in Hs'.
    destruct (timers m !! t) as [[timer|]|] eqn:Ht;
      try (left; now apply Hbefore).
    rewrite heap_settle in Hs'. cbn [heap update with_heap
      with_pendingTimeouts with_timers] in Hs'.
    destruct (decide (timer_session timer = r)) as [Heq|Hne].
    + right. exists t. split; [reflexivity|]. now exists timer.
    + rewrite lookup_alter_ne in Hs' by exact Hne. left. now apply Hbefore.
  - left. destruct (step_evolves env m l r s' Hs')
      as (f & Hf & [(s & Hs & ->)|(s & Hs & ->)]).
    + apply (awaiting_changes env l); [exact Hl|exact Hf|]. now apply Hbefore.
    + apply (awaiting_changes env l); [exact Hl|exact Hf|].
      now apply (awaiting_fresh l).
Qed.

Lemma run_snoc env m trace l :
  run env m (trace ++ [l]) = step env (run env m trace) l.
Proof. unfold run. now rewrite fold_left_app. Qed.

(** In every state the connector reaches, a session that is awaiting
    input has a pending question, unless a timeout fired on it and it
    has not changed since. *)
Lemma awaiting_run env trace r s :
  heap (run env initial trace) !! r = Some s ->
  awaitingHasQuestion s \/ timedOutSince env trace r.
Proof.
  revert r s. induction trace as [|l trace IH] using rev_ind; intros r s Hs.
  - left. now apply (holds_initial awaitingHasQuestion r s).
  - rewrite run_snoc in Hs.
    destruct (awaiting_dec s) as [Hok|Hbad]; [now left|right].
    destruct (heap (run env initial trace) !! r) as [s0|] eqn:Hs0.
    + destruct (IH r s0 Hs0) as [Hok0|(pre & t & post & -> & Ht & Hsince)].
      * destruct (awaiting_step_session env _ l r s Hs) as [Hok|(t & -> & Ht)].
        -- intros s1 Hs1. rewrite Hs0 in Hs1. now injection Hs1 as <-.
        -- now apply timedOutState_not_awaiting in Hbad.
        -- exists trace, t, []. split; [reflexivity|]. split; [exact Ht|].
           intros post1 post2 Hpost. symmetry in Hpost.
           apply app_eq_nil in Hpost as [-> ->].
           exists s. split; [|exact Hbad]. now rewrite run_snoc.
      * exists pre, t, (post ++ [l]).
        split; [now rewrite <- app_assoc|]. split; [exact Ht|].
        intros post1 post2 Hpost.
        destruct post2 as [|l2 post2 _] using rev_ind.
        -- rewrite app_nil_r in Hpost. subst post1.
           exists s. split; [|exact Hbad].
           replace (pre ++ TimerFires t :: post ++ [l])
             with ((pre ++ TimerFires t :: post) ++ [l])
             by (now rewrite <- app_assoc).
           now rewrite run_snoc.
        -- rewrite app_assoc in Hpost. apply app_inj_tail in Hpost as [-> _].
           now apply (Hsince post1 post2).
    + destruct (awaiting_step_session env _ l r s Hs) as [Hok|(t & -> & Ht)].
      * intros s1 Hs1. congruence.
      * now apply timedOutState_not_awaiting in Hbad.
      * exists trace, t, []. split; [reflexivity|]. split; [exact Ht|].
        intros post1 post2 Hpost. symmetry in Hpost.
        apply app_eq_nil in Hpost as [-> ->].
        exists s. split; [|exact Hbad]. now rewrite run_snoc.
Qed.

(** C2 (as amended). One direction holds, per session: an entry point
    leaves a session that is awaiting input with a pending question, if
    the session had one before or is new, unless the entry point is the
    firing of a timer armed for this session; so in every state the
    connector reaches, every session that is awaiting input has a
    pending question, unless a timeout fired on it and it has stayed as
    the timeout left it since.  The converse does not hold: the exit
    handler, a result event, an interrupt and a resume move a session
    that is awaiting input to another status and leave its pending
    question in place; and the status view shows a pending question
    exactly when the session has one and its status is AWAITING_INPUT. *)
Theorem awaiting_input_has_question (env : EnvConfig) (m : Manager)
    (l : Label) (trace : list Label) (r : nat) (s s' : Session)
    (q : PendingQuestion) (outputLines : Z) :
  (heap (step env m l) !! r = Some s' ->
   (forall s0, heap m !! r = Some s0 -> awaitingHasQuestion s0) ->
     awaitingHasQuestion s' \/ exists t, l = TimerFires t /\ timerOf m t r) /\
  (heap (run env initial trace) !! r = Some s ->
     awaitingHasQuestion s \/ timedOutSince env trace r) /\
  (heap m !! r = Some s -> status s = awaiting_input ->
   pendingQuestion s = Some q ->
     (forall code signal,
        exists s1,
          heap (step env m (OnExit r code signal)) !! r = Some s1 /\
          is_terminal (status s1) = true /\ pendingQuestion s1 = Some q) /\
     (forall st res cost turns,
        exists s1,
          heap (step env m (OnEvent r (ResultEvent st res cost turns))) !! r
            = Some s1 /\
          is_terminal (status s1) = true /\ pendingQuestion s1 = Some q) /\
     (forall sessionId,
        lookup m sessionId = Some (r, s) -> process s <> None ->
        exists s1,
          heap (step env m (Interrupt sessionId)) !! r = Some s1 /\
          status s1 = interrupted /\ pendingQuestion s1 = Some q) /\
     (forall rt sessionId message mode out,
        lookup m sessionId = Some (r, s) ->
        (sayToSession env rt sessionId message mode m).2 = Ok out ->
        exists s1,
          heap (step env m (Say rt sessionId message mode)) !! r = Some s1 /\
          status s1 = active /\ pendingQuestion s1 = Some q)) /\
  (view_pendingQuestion (statusView s outputLines) <> None <->
     pendingQuestion s <> None /\ status s = awaiting_input).
Proof.
  split; [apply awaiting_step_session|].
  split; [apply awaiting_run|]. split.
  - intros Hs Hst Hq. split; [|split; [|split]].
    + intros code signal. cbn [step handleExit update heap with_heap].
      rewrite lookup_alter_eq, Hs. cbn [fmap option_fmap option_map].
      eexists. split; [reflexivity|].
      destruct (handleExit_terminal code signal s) as (H1 & _ & H3).
      split; [exact H1|]. now rewrite H3.
    + intros st res cost turns. cbn [step]. unfold handleEvent. rewrite Hs.
      cbn [heap update with_heap]. rewrite !lookup_alter_eq, Hs.
      cbn [fmap option_fmap option_map]. eexists. split; [reflexivity|].
      destruct (handleResult_frame st res cost turns
                  (bufferEvent env (ResultEvent st res cost turns) s))
        as (H1 & _ & H3).
      split; [exact H1|]. now rewrite H3.
    + intros sessionId Hl Hp. cbn [step]. unfold interruptSession.
      rewrite Hl. destruct (process s) as [proc|]; [|now contradiction Hp].
      cbn [fst heap update with_heap emit]. rewrite lookup_alter_eq, Hs.
      eexists. split; [reflexivity|]. now split.
    + intros rt sessionId message mode out Hl. cbn [step].
      unfold sayToSession. unfold lookup in Hl.
      destruct (JsMap.get (sessions m) sessionId) as [r0|]; [|discriminate].
      destruct (heap m !! r0) as [s0|] eqn:Hs0; [|discriminate].
      injection Hl as -> ->. rewrite Hst.
      set (needs := isSome mode && _).
      assert (Hresume : forall m1 s1,
                heap m1 !! r = Some s1 -> pendingQuestion s1 = Some q ->
                (let (m2, res) :=
                   resumeSession env r message (child rt) (spawnThrows rt) m1 in
                 match res with
                 | Ok _ =>
                     (m2, match replyOf r m2 with
                          | Ok v => Ok (Said v)
                          | Throw e => Throw e
                          end)
                 | Throw e => (m2, Throw e)
                 end).2 = Ok out ->
                exists s2,
                  heap (let (m2, res) :=
                          resumeSession env r message (child rt)
                            (spawnThrows rt) m1 in
                        match res with
                        | Ok _ =>
                            (m2, match replyOf r m2 with
                                 | Ok v => Ok (Said v)
                                 | Throw e => Throw e
                                 end)
                        | Throw e => (m2, Throw e)
                        end).1 !! r = Some s2 /\
                  status s2 = active /\ pendingQuestion s2 = Some q).
      { intros m1 s1 Hs1 Hq1. unfold resumeSession.
        destruct (_ >=? _); [discriminate|]. rewrite Hs1.
        destruct (spawnThrows rt); [discriminate|]. intros _.
        cbn [fst heap update with_heap emit].
        rewrite !lookup_alter_eq, Hs1. eexists. split; [reflexivity|].
        now split. }
      assert (Hmode : forall m1, m1 = (if needs
                         then update r (fun s1 => with_config
                                (with_permissionMode mode (config s1)) s1) m
                         else m) ->
                exists s1, heap m1 !! r = Some s1 /\
                           pendingQuestion s1 = Some q).
      { intros m1 ->. destruct needs.
        - cbn [heap update with_heap]. rewrite lookup_alter_eq, Hs0.
          eexists. split; [reflexivity|exact Hq].
        - now exists s. }
      destruct (Hmode _ eq_refl) as (s1 & Hs1 & Hq1).
      destruct (process s) as [proc|]; cbn [status_eqb];
        exact (Hresume _ s1 Hs1 Hq1).
  - unfold statusView; cbn [view_pendingQuestion].
    destruct (pendingQuestion s) as [q0|]; [|tauto].
    destruct (status s); cbn; intuition congruence.
Qed.

Lemma awaiting_input_has_question_witness :
  (forall s,
     heap (step env started (OnPermission editRequest)) !! 0%nat = Some s ->
     awaitingHasQuestion s) /\
  (forall s,
     heap awaiting !! 0%nat = Some s ->
     awaitingHasQuestion s \/
     timedOutSince env [Start rt1 params; OnPermission editRequest] 0) /\
  (exists s1,
     heap (step env awaiting (Say rt2 "temp_1_a" "go on" None)) !! 0%nat
       = Some s1 /\
     status s1 = active /\ pendingQuestion s1 <> None).
Proof.
  destruct (heap started !! 0%nat) as [s0|] eqn:Hs0;
    [|vm_compute in Hs0; discriminate Hs0].
  assert (Hactive : status s0 = active)
    by (vm_compute in Hs0; now injection Hs0 as <-).
  split.
  - intros s Hs.
    destruct (proj1 (awaiting_input_has_question env started
                       (OnPermission editRequest) [] 0%nat s0 s
                       {| data := {| q_id := ""; q_type := question;
                                     q_toolName := ""; q_toolInput := [];
                                     q_questions := [] |};
                          resolve := 0 |} 50) Hs)
      as [H|(t & Ht & _)]; [|exact H|discriminate Ht].
    intros s1 Hs1. unfold awaitingHasQuestion. intros Hst.
    rewrite Hs0 in Hs1. injection Hs1 as <-. congruence.
  - split.
    { intros s Hs.
      exact (proj1 (proj2 (awaiting_input_has_question env initial Stop
                             [Start rt1 params; OnPermission editRequest]
                             0%nat s s
                             {| data := {| q_id := ""; q_type := question;
                                           q_toolName := ""; q_toolInput := [];
                                           q_questions := [] |};
                                resolve := 0 |} 50)) Hs). }
    destruct (lookup awaiting "temp_1_a") as [[r s]|] eqn:Hl;
      [|vm_compute in Hl; discriminate Hl].
    assert (Hs : r = 0%nat /\ status s = awaiting_input /\
                 exists q, pendingQuestion s = Some q).
    { vm_compute in Hl. injection Hl as <- <-.
      split; [reflexivity|]. split; [reflexivity|]. eexists. reflexivity. }
    destruct Hs as (-> & Hst & q & Hq).
    assert (Hheap : heap awaiting !! 0%nat = Some s).
    { unfold lookup in Hl.
      destruct (JsMap.get (sessions awaiting) "temp_1_a") as [r|];
        [|discriminate Hl].
      destruct (heap awaiting !! r) as [s2|] eqn:E; [|discriminate Hl].
      injection Hl as -> ->. exact E. }
    destruct (proj2 (proj2 (proj2 (proj1 (proj2 (proj2
                (awaiting_input_has_question env awaiting Stop [] 0%nat s s
                   q 50))) Hheap Hst Hq)))
                rt2 "temp_1_a" "go on" None
                (Said (Some {| reply_sessionId := "temp_1_a";
                               reply_status := active |}))
                Hl)
      as (s1 & H1 & H2 & H3).
    + vm_compute. reflexivity.
    + exists s1. split; [exact H1|]. split; [exact H2|].
      rewrite H3. discriminate.
Defined.

(** C2 (counterexample). A session awaiting input whose process exits with
    code 0: the exit handler sets the status to DONE and leaves the
    pending question in place, so the pending question is not null while
    the status is not AWAITING_INPUT. *)
Lemma pending_question_survives_exit :
  let m := step env awaiting (OnExit 0%nat (Some 0) None) in
  (status <$> heap m !! 0%nat) = Some done /\
  (isSome <$> (pendingQuestion <$> heap m !! 0%nat)) = Some true.
Proof. vm_compute. split; reflexivity. Qed.

Lemma terminal_changes env l f s :
  endsTurn l = false -> changes env l f ->
  terminalHasNoProcess s -> terminalHasNoProcess (f s).
Proof.
  unfold terminalHasNoProcess. intros Hl Hf Hs.
  destruct Hf; try discriminate Hl; try exact Hs; cbn; try discriminate;
    try reflexivity.
  - (* an event that is no result *)
    destruct event as [newId ts|inner|st res cost turns|raw];
      [exact Hs| |discriminate Hl|exact Hs].
    destruct (handleStreamEvent_frame (StreamEvent inner)
                (bufferEvent env (StreamEvent inner) s)) as (-> & -> & _).
    exact Hs.
  - (* the exit handler *)
    intros _. apply handleExit_terminal.
Qed.

Lemma terminal_fresh l s : fresh l s -> terminalHasNoProcess s.
Proof.
  unfold terminalHasNoProcess.
  destruct l; cbn [fresh]; try tauto.
  intros (-> & _). discriminate.
Qed.

Lemma terminal_dec s :
  terminalHasNoProcess s \/ ~ terminalHasNoProcess s.
Proof.
  unfold terminalHasNoProcess.
  destruct (is_terminal (status s)); [|left; discriminate].
  destruct (process s); [right|now left].
  intros H. now discriminate (H eq_refl).
Qed.

(** One entry point, one session object: the object has no process when
    its status is terminal, if it was so before or the object is new,
    unless the entry point is an interrupt of this session or a result
    event for it. *)
Lemma terminal_step_session env m l r s' :
  heap (step env m l) !! r = Some s' ->
  (forall s, heap m !! r = Some s -> terminalHasNoProcess s) ->
  terminalHasNoProcess s' \/ endsTurnOf m l r.
Proof.
  intros Hs' Hbefore. destruct (endsTurn l) eqn:Hl.
  - destruct l as [| | | |sessionId|r0 event| | | |]; try discriminate Hl.
    + (* interrupt *)
      cbn [step] in Hs'. unfold interruptSession in Hs'. cbn [endsTurnOf].
      destruct (lookup m sessionId) as [[r0 s0]|] eqn:Hlookup;
        [|left; now apply Hbefore].
      destruct (process s0) as [proc|] eqn:Hproc; [|left; now apply Hbefore].
      cbn [fst heap update with_heap emit] in Hs'.
      destruct (decide (r0 = r)) as [->|Hne].
      { right. exists s0. split; [reflexivity|]. now rewrite Hproc. }
      rewrite lookup_alter_ne in Hs' by exact Hne. left. now apply Hbefore.
    + (* a result event *)
      destruct event as [| |st res cost turns|]; try discriminate Hl.
      cbn [step endsTurnOf] in *. unfold handleEvent in Hs'.
      destruct (decide (r0 = r)) as [->|Hne]; [now right|left].
      destruct (heap m !! r0); [|now apply Hbefore].
      cbn [heap update with_heap] in Hs'.
      rewrite !lookup_alter_ne in Hs' by exact Hne. now apply Hbefore.
  - left. destruct (step_evolves env m l r s' Hs')
      as (f & Hf & [(s & Hs & ->)|(s & Hs & ->)]).
    + apply (terminal_changes env l); [exact Hl|exact Hf|]. now apply Hbefore.
    + apply (terminal_changes env l); [exact Hl|exact Hf|].
      now apply (terminal_fresh l).
Qed.

(** The exit handler closes the window of its session. *)
Lemma terminal_exit env m r code signal s :
  heap (step env m (OnExit r code signal)) !! r = Some s ->
  is_terminal (status s) = true /\ process s = None.
Proof.
  cbn [step handleExit update heap with_heap].
  rewrite lookup_alter_eq.
  destruct (heap m !! r) as [s0|]; [|discriminate].
  intros [= <-].
  destruct (handleExit_terminal code signal s0) as (H1 & H2 & _).
  now split.
Qed.

(** In every state the connector reaches, a session with a terminal
    status has no process, unless it is between an interrupt or a result
    event and the exit-handler run that follows. *)
Lemma terminal_run env trace r s :
  heap (run env initial trace) !! r = Some s ->
  terminalHasNoProcess s \/ inWindow env trace r.
Proof.
  revert r s. induction trace as [|l trace IH] using rev_ind; intros r s Hs.
  - left. now apply (holds_initial terminalHasNoProcess r s).
  - rewrite run_snoc in Hs.
    destruct (terminal_dec s) as [Hok|Hbad]; [now left|right].
    assert (Hnew : endsTurnOf (run env initial trace) l r ->
                   inWindow env (trace ++ [l]) r).
    { intros Hends. exists trace, l, []. now repeat split. }
    destruct (heap (run env initial trace) !! r) as [s0|] eqn:Hs0.
    + destruct (IH r s0 Hs0) as [Hok0|(pre & l0 & post & -> & Hends & Hpost)].
      * destruct (terminal_step_session env _ l r s Hs) as [Hok|Hends];
          [intros s1 Hs1; rewrite Hs0 in Hs1; now injection Hs1 as <-
          |now contradiction Hbad|now apply Hnew].
      * exists pre, l0, (post ++ [l]).
        split; [now rewrite <- app_assoc|]. split; [exact Hends|].
        apply Forall_app. split; [exact Hpost|]. constructor; [|constructor].
        destruct (isExitOf r l) eqn:Hexit; [|reflexivity].
        destruct l; try discriminate Hexit. cbn [isExitOf] in Hexit.
        apply Nat.eqb_eq in Hexit as ->.
        apply terminal_exit in Hs as [_ Hproc].
        contradiction Hbad. intros _. exact Hproc.
    + destruct (terminal_step_session env _ l r s Hs) as [Hok|Hends];
        [intros s1 Hs1; congruence|now contradiction Hbad|now apply Hnew].
Qed.

(** C3 (as amended). Per session: an entry point leaves a session whose
    status is DONE, ERROR or INTERRUPTED without process handle, if the
    session was so before or is new, unless the entry point is an
    interrupt of this session or a result event for it; these two set
    the terminal status while the process handle is still set, and the
    exit handler then leaves the session with a terminal status and no
    process handle, whatever its state was.  So in every state the
    connector reaches, every session with a terminal status has no
    process handle, unless it is between an interrupt or a result event
    and the exit-handler run that follows. *)
Theorem terminal_status_has_no_process (env : EnvConfig) (m : Manager)
    (l : Label) (trace : list Label) (r : nat) (code : option Z)
    (signal : option string) (s s' : Session) (proc : ChildProcess) :
  (heap (step env m l) !! r = Some s' ->
   (forall s0, heap m !! r = Some s0 -> terminalHasNoProcess s0) ->
     terminalHasNoProcess s' \/ endsTurnOf m l r) /\
  (heap (run env initial trace) !! r = Some s ->
     terminalHasNoProcess s \/ inWindow env trace r) /\
  (heap m !! r = Some s -> process s = Some proc ->
     (forall sessionId,
        lookup m sessionId = Some (r, s) ->
        exists s1,
          heap (step env m (Interrupt sessionId)) !! r = Some s1 /\
          status s1 = interrupted /\ process s1 = Some proc) /\
     (forall st res cost turns,
        exists s1,
          heap (step env m (OnEvent r (ResultEvent st res cost turns))) !! r
            = Some s1 /\
          is_terminal (status s1) = true /\ process s1 = Some proc)) /\
  (heap (step env m (OnExit r code signal)) !! r = Some s ->
     is_terminal (status s) = true /\ process s = None).
Proof.
  split; [apply terminal_step_session|].
  split; [apply terminal_run|].
  split; [|apply terminal_exit].
  intros Hs Hp. split.
  - intros sessionId Hl. cbn [step]. unfold interruptSession.
    rewrite Hl, Hp. cbn [fst heap update with_heap emit].
    rewrite lookup_alter_eq, Hs. eexists. split; [reflexivity|]. now split.
  - intros st res cost turns. cbn [step]. unfold handleEvent. rewrite Hs.
    cbn [heap update with_heap]. rewrite !lookup_alter_eq, Hs.
    cbn [fmap option_fmap option_map]. eexists. split; [reflexivity|].
    destruct (handleResult_frame st res cost turns
                (bufferEvent env (ResultEvent st res cost turns) s))
      as (H1 & H2 & _).
    split; [exact H1|]. now rewrite H2.
Qed.

Lemma terminal_status_has_no_process_witness :
  (forall s,
     heap (step env started (OnPermission editRequest)) !! 0%nat = Some s ->
     terminalHasNoProcess s) /\
  (is_terminal (status (handleExit_session (Some 0) None activeSession)) = true
   /\ process (handleExit_session (Some 0) None activeSession) = None).
Proof.
  destruct (heap started !! 0%nat) as [s0|] eqn:Hs0;
    [|vm_compute in Hs0; discriminate Hs0].
  assert (Hactive : status s0 = active)
    by (vm_compute in Hs0; now injection Hs0 as <-).
  split.
  - intros s Hs.
    destruct (proj1 (terminal_status_has_no_process env started
                       (OnPermission editRequest) [] 0%nat None None s0 s
                       0%nat) Hs) as [H|[]]; [|exact H].
    intros s1 Hs1. unfold terminalHasNoProcess. intros Hterm.
    rewrite Hs0 in Hs1. injection Hs1 as <-.
    rewrite Hactive in Hterm. discriminate Hterm.
  - apply (terminal_status_has_no_process env
             (with_heap (<[0%nat := activeSession]> ∅) initial) Stop []
             0%nat (Some 0) None
             (handleExit_session (Some 0) None activeSession) activeSession
             0%nat).
    reflexivity.
Defined.

(** C3 (counterexample). Interrupting a running session: the call returns
    with status INTERRUPTED and the process handle still set. *)
Lemma interrupted_session_keeps_process :
  let m := step env started (Interrupt "temp_1_a") in
  (status <$> heap m !! 0%nat) = Some interrupted /\
  (process <$> heap m !! 0%nat) = Some (Some 11%nat).
Proof. vm_compute. split; reflexivity. Qed.

End InvariantFacts.

(** ** The approval timeout *)
Module TimeoutFacts.
Import Claude SessionProps ManagerFacts Fixture.

Ltac mgr_simpl :=
  cbn [heap nextRef sessions promises timers pendingTimeouts effects
       with_heap with_sessions with_promises with_timers
       with_pendingTimeouts update emit].

Lemma lookup_snoc {A : Type} (l : list A) (x : A) :
  (l ++ [x]) !! List.length l = Some x.
Proof. now apply list_lookup_middle. Qed.

Lemma lookup_insert_snoc {A : Type} (l : list A) (x y : A) :
  <[List.length l := y]> (l ++ [x]) !! List.length l = Some y.
Proof. apply list_lookup_insert_eq. rewrite length_app; cbn; lia. Qed.

(** The timeout of the claude connector, in any state: once the timer
    armed by [handlePermissionRequest] fires, the pending question is
    null and the agent is answered with the timeout deny, and the status
    is still AWAITING_INPUT. *)
Lemma claude_timeout_after_request request r m s m1 p :
  heap m !! r = Some s ->
  handlePermissionRequest request r m = (m1, Ok p) ->
  exists s2,
    heap (fireTimeout (List.length (timers m)) m1) !! r = Some s2 /\
    pendingQuestion s2 = None /\
    status s2 = awaiting_input /\
    promises (fireTimeout (List.length (timers m)) m1) !! p =
      Some (Some timedOutResponse).
Proof.
  intros Hs. unfold handlePermissionRequest.
  destruct (buildQuestion _ _ _) as [q|e]; [|discriminate].
  cbn [newPromise setTimeout]. intros [= <- <-].
  unfold fireTimeout. mgr_simpl. rewrite lookup_snoc.
  cbn [timer_session timer_resolve timer_requestId].
  unfold settle. mgr_simpl. rewrite lookup_snoc. mgr_simpl.
  rewrite !lookup_alter_eq, Hs. cbn.
  eexists; split; [reflexivity|].
  split; [reflexivity|]. split; [reflexivity|].
  apply lookup_insert_snoc.
Qed.

(** C1 (the failing input): scenario B on the claude connector.  A
    session is started, the agent asks to use Edit, and the timer fires
    with no respond in between.  Afterwards the pending question is null
    and the agent has the deny "Permission request timed out", and the
    status is AWAITING_INPUT, not ACTIVE. *)
Theorem claude_timeout_keeps_awaiting_input :
  let m := step env awaiting (TimerFires 0%nat) in
  (pendingQuestion <$> heap m !! 0%nat) = Some None /\
  promises m =
    [Some {| behavior := deny;
             message := Some "Permission request timed out"%string;
             updatedInput := None |}] /\
  (status <$> heap m !! 0%nat) = Some awaiting_input /\
  exists view,
    getSessionStatus m "temp_1_a" 50 = Ok view /\
    view_status view = awaiting_input /\
    view_pendingQuestion view = None.
Proof.
  vm_compute. repeat split. eexists. repeat split.
Qed.

End TimeoutFacts.

(** ** The approval timeout of the codex connector *)
Module CodexTimeoutFacts.
Import Codex.

Ltac codex_simpl :=
  cbn [heap nextRef sessions promises timers pendingTimeouts effects
       with_heap with_sessions with_promises with_timers
       with_pendingTimeouts update emit].

(** The sibling path.  Once the timer armed by [handleApprovalRequest]
    fires, the [onTimeout] lambda has nulled the pending question and set
    the status to ACTIVE; the promise holds the deny "Approval timed out"
    unless the write to the stdin of a live process threw. *)
Lemma codex_timeout_after_request stdinAvailable r requestText now
    randomSuffix m s :
  heap m !! r = Some s ->
  let m1 := handleApprovalRequest r requestText now randomSuffix m in
  let m2 := fireTimeout stdinAvailable (List.length (timers m)) m1 in
  exists s2,
    heap m2 !! r = Some s2 /\
    pendingQuestion s2 = None /\
    status s2 = active /\
    (stdinAvailable = true \/ process s = None ->
       promises m2 !! List.length (promises m) = Some (Some timedOutResponse)).
Proof.
  intros Hs. unfold handleApprovalRequest, register, fireTimeout.
  codex_simpl. rewrite TimeoutFacts.lookup_snoc.
  cbn [timer_session timer_resolve timer_questionId].
  unfold onTimeout. codex_simpl.
  rewrite !lookup_alter_eq, Hs. cbn [fmap option_fmap option_map].
  cbn [process with_status with_pendingQuestion].
  destruct (process s) as [proc|].
  - unfold sendApprovalResponse. destruct stdinAvailable.
    + unfold settle. codex_simpl.
      rewrite TimeoutFacts.lookup_snoc. codex_simpl.
      rewrite !lookup_alter_eq, Hs. cbn.
      eexists; split; [reflexivity|]. repeat split.
      intros _. apply TimeoutFacts.lookup_insert_snoc.
    + codex_simpl. rewrite !lookup_alter_eq, Hs. cbn.
      eexists; split; [reflexivity|]. repeat split.
      intros [H|H]; discriminate H.
  - unfold settle. codex_simpl.
    rewrite TimeoutFacts.lookup_snoc. codex_simpl.
    rewrite !lookup_alter_eq, Hs. cbn.
    eexists; split; [reflexivity|]. repeat split.
    intros _. apply TimeoutFacts.lookup_insert_snoc.
Qed.

End CodexTimeoutFacts.

(** ** The lookup of the session an approval belongs to *)
Module LookupFacts.
Import Claude SessionProps Fixture.

Lemma status_eqb_eq a b : status_eqb a b = true <-> a = b.
Proof. destruct a, b; cbn; split; congruence. Qed.

Lemma isOpen_spec (x : nat * Session) :
  status_eqb (status x.2) active || status_eqb (status x.2) awaiting_input = true
  <-> isOpen x.
Proof.
  unfold isOpen. rewrite orb_true_iff, !status_eqb_eq. reflexivity.
Qed.

Lemma pendingTemp_spec (x : nat * Session) :
  JsString.startsWith (id x.2) "temp_" && status_eqb (status x.2) active = true
  <-> pendingTemp x.
Proof.
  unfold pendingTemp. rewrite andb_true_iff, status_eqb_eq. reflexivity.
Qed.

Lemma firstPending_Some l x :
  firstPending l = Some x -> isFirst pendingTemp l x.
Proof.
  induction l as [|[r s] l IH]; cbn [firstPending]; [discriminate|].
  destruct (JsString.startsWith (id s) "temp_" && status_eqb (status s) active)
    eqn:E.
  - intros [= <-]. exists [], l. split; [reflexivity|].
    split; [now apply (pendingTemp_spec (r, s))|constructor].
  - intros H. destruct (IH H) as (l1 & l2 & -> & Hx & Hl1).
    exists ((r, s) :: l1), l2. split; [reflexivity|]. split; [exact Hx|].
    constructor; [|exact Hl1].
    intros Hp. apply (pendingTemp_spec (r, s)) in Hp. cbn in Hp. congruence.
Qed.

Lemma firstPending_None l :
  firstPending l = None -> Forall (fun y => ~ pendingTemp y) l.
Proof.
  induction l as [|[r s] l IH]; cbn [firstPending]; [constructor|].
  destruct (JsString.startsWith (id s) "temp_" && status_eqb (status s) active)
    eqn:E; [discriminate|].
  intros H. constructor; [|now apply IH].
  intros Hp. apply (pendingTemp_spec (r, s)) in Hp. cbn in Hp. congruence.
Qed.

Lemma latestOpen_invariant l pre acc :
  latestSoFar pre acc -> latestSoFar (pre ++ l) (latestOpen acc l).
Proof.
  revert pre acc; induction l as [|[r s] l IH]; intros pre acc Hacc.
  - now rewrite app_nil_r.
  - cbn [latestOpen].
    replace (pre ++ (r, s) :: l) with ((pre ++ [(r, s)]) ++ l)
      by (now rewrite <- app_assoc).
    apply IH.
    destruct (status_eqb (status s) active
              || status_eqb (status s) awaiting_input) eqn:E.
    + apply (isOpen_spec (r, s)) in E.
      destruct acc as [[r0 s0]|]; cbn [latestSoFar] in *.
      * destruct Hacc as (l1 & l2 & -> & Hopen & Hl1 & Hl2).
        destruct (Z.gtb_spec (createdAt s) (createdAt s0)) as [Hgt|Hle].
        -- exists (l1 ++ (r0, s0) :: l2), []. split; [reflexivity|].
           split; [exact E|]. split; [|constructor].
           apply Forall_app; split; [|constructor].
           ++ eapply Forall_impl; [exact Hl1|].
              cbn. intros y Hy Ho. specialize (Hy Ho). lia.
           ++ cbn. lia.
           ++ eapply Forall_impl; [exact Hl2|].
              cbn. intros y Hy Ho. specialize (Hy Ho). lia.
        -- exists l1, (l2 ++ [(r, s)]). split; [now rewrite <- app_assoc|].
           split; [exact Hopen|]. split; [exact Hl1|].
           apply Forall_app; split; [exact Hl2|].
           constructor; [|constructor]. cbn. lia.
      * exists pre, []. split; [reflexivity|]. split; [exact E|].
        split; [|constructor].
        eapply Forall_impl; [exact Hacc|]. cbn. tauto.
    + assert (Hclosed : ~ isOpen (r, s)).
      { intros Ho. apply isOpen_spec in Ho. cbn in Ho. congruence. }
      destruct acc as [[r0 s0]|]; cbn [latestSoFar] in *.
      * destruct Hacc as (l1 & l2 & -> & Hopen & Hl1 & Hl2).
        exists l1, (l2 ++ [(r, s)]). split; [now rewrite <- app_assoc|].
        split; [exact Hopen|]. split; [exact Hl1|].
        apply Forall_app; split; [exact Hl2|].
        constructor; [|constructor]. tauto.
      * apply Forall_app; split; [exact Hacc|].
        constructor; [exact Hclosed|constructor].
Qed.

Lemma latestOpen_spec l : latestSoFar l (latestOpen None l).
Proof. apply (latestOpen_invariant l [] None). constructor. Qed.

(** C4 (as amended). [findSessionForPermission]: the session stored under
    the label, if there is one; otherwise, for the label "__pending__",
    the first session in insertion order that has a temp id and status
    ACTIVE, if there is one; otherwise the most recently created session
    with status ACTIVE or AWAITING_INPUT, the first in insertion order
    among those created at the same instant; and no session when none is
    ACTIVE or AWAITING_INPUT. *)
Theorem findSessionForPermission_spec (m : Manager) (label : string) :
  match findSessionForPermission m label with
  | Some x =>
      lookup m label = Some x \/
      (lookup m label = None /\ label = "__pending__"%string /\
       isFirst pendingTemp (sessionObjects m) x) \/
      (lookup m label = None /\
       (label <> "__pending__"%string \/
        Forall (fun y => ~ pendingTemp y) (sessionObjects m)) /\
       isLatestOpen (sessionObjects m) x)
  | None =>
      lookup m label = None /\
      Forall (fun y => ~ isOpen y) (sessionObjects m)
  end.
Proof.
  unfold findSessionForPermission.
  destruct (lookup m label) as [exact|] eqn:Hexact; [now left|].
  pose proof (latestOpen_spec (sessionObjects m)) as Hlatest.
  destruct (String.eqb_spec label "__pending__") as [->|Hne].
  - destruct (firstPending (sessionObjects m)) as [found|] eqn:Hfirst.
    + right; left. repeat split. now apply firstPending_Some.
    + apply firstPending_None in Hfirst.
      destruct (latestOpen None (sessionObjects m)) as [x|];
        cbn [latestSoFar] in Hlatest.
      * right; right. repeat split; [now right|exact Hlatest].
      * now split.
  - destruct (latestOpen None (sessionObjects m)) as [x|];
      cbn [latestSoFar] in Hlatest.
    + right; right. repeat split; [now left|exact Hlatest].
    + now split.
Qed.

(** C4 (counterexample). Two sessions started one after the other, both
    still on temp ids and active: the label "__pending__" resolves to
    the one inserted first, not to the most recently inserted one. *)
Lemma pending_label_finds_first_inserted :
  map (fun x => id x.2) (sessionObjects startedTwice) =
    ["temp_1_a"; "temp_2_b"]%string /\
  option_map (fun x => id x.2)
    (findSessionForPermission startedTwice "__pending__") =
    Some "temp_1_a"%string.
Proof. vm_compute. split; reflexivity. Qed.

End LookupFacts.

(** ** Maps *)
Module JsMapFacts.

Section Facts.
Context {V : Type}.
Implicit Types (m : JsMap.t V) (k : string) (v : V).

Lemma get_set_eq m k v : JsMap.get (JsMap.set m k v) k = Some v.
Proof.
  induction m as [|[k' v'] m IH]; cbn.
  - now rewrite String.eqb_refl.
  - destruct (String.eqb k' k) eqn:E; cbn; rewrite E; [reflexivity|exact IH].
Qed.

Lemma values_set_fresh m k v :
  JsMap.get m k = None ->
  JsMap.values (JsMap.set m k v) = JsMap.values m ++ [v].
Proof.
  unfold JsMap.values. induction m as [|[k' v'] m IH]; cbn; [reflexivity|].
  destruct (String.eqb k' k); [discriminate|].
  intros H. cbn. now rewrite (IH H).
Qed.

Lemma values_set m k v r :
  In r (JsMap.values (JsMap.set m k v)) -> r = v \/ In r (JsMap.values m).
Proof.
  unfold JsMap.values. induction m as [|[k' v'] m IH]; cbn.
  - intros [<-|[]]; now left.
  - destruct (String.eqb k' k); cbn; intuition.
Qed.

Lemma values_delete m k r :
  In r (JsMap.values (JsMap.delete m k)) -> In r (JsMap.values m).
Proof.
  unfold JsMap.values. induction m as [|[k' v'] m IH]; cbn; [tauto|].
  destruct (String.eqb k' k); cbn; intuition.
Qed.

End Facts.

End JsMapFacts.

(** ** Saying something to a session the connector does not know *)
Module SayFacts.
Import Claude SessionProps ManagerFacts JsMapFacts Fixture.

Lemma omap_ext_in {A B : Type} (f g : A -> option B) (l : list A) :
  (forall x, In x l -> f x = g x) -> omap f l = omap g l.
Proof.
  induction l as [|x l IH]; intros H; cbn; [reflexivity|].
  rewrite (H x) by now left.
  rewrite IH; [reflexivity|]. intros y Hy. apply H. now right.
Qed.

(** The placeholder does not count as a live session, and does not
    disturb the count of the others. *)
Lemma count_with_placeholder m m1 sessionId s0 :
  wellFormed m ->
  JsMap.get (sessions m) sessionId = None ->
  process s0 = None ->
  heap m1 = <[nextRef m := s0]> (heap m) ->
  sessions m1 = JsMap.set (sessions m) sessionId (nextRef m) ->
  getActiveSessionCount m1 = getActiveSessionCount m.
Proof.
  intros [Hrefs _] Hget Hproc Hheap Hsessions.
  unfold getActiveSessionCount, sessionObjects.
  rewrite Hheap, Hsessions, values_set_fresh by exact Hget.
  rewrite omap_app, filter_app, length_app.
  cbn [omap list_omap]. rewrite lookup_insert_eq.
  rewrite filter_cons_False by (cbn; rewrite Hproc; discriminate).
  rewrite filter_nil, Nat.add_0_r. do 3 f_equal.
  apply omap_ext_in. intros r Hr.
  rewrite lookup_insert_ne; [reflexivity|].
  specialize (Hrefs r Hr). lia.
Qed.

Lemma lookup_placeholder m1 sessionId n s0 (sessions0 : JsMap.t nat) :
  sessions m1 = JsMap.set sessions0 sessionId n ->
  heap m1 !! n = Some s0 ->
  lookup m1 sessionId = Some (n, s0).
Proof.
  intros Hsessions Hheap. unfold lookup.
  now rewrite Hsessions, get_set_eq, Hheap.
Qed.

(** The resume of a placeholder when all the slots are taken: it throws,
    and the placeholder stays where [createTrackedSession] put it. *)
Lemma resume_placeholder_rejected env m m1 sessionId s0 message c t
    outputLines :
  wellFormed m ->
  JsMap.get (sessions m) sessionId = None ->
  getActiveSessionCount m >= maxSessions env ->
  process s0 = None ->
  heap m1 = <[nextRef m := s0]> (heap m) ->
  sessions m1 = JsMap.set (sessions m) sessionId (nextRef m) ->
  resumeSession env (nextRef m) message c t m1 =
    (m1, Throw (MaxSessionsReached (maxSessions env))) /\
  lookup m1 sessionId = Some (nextRef m, s0) /\
  getSessionStatus m1 sessionId outputLines = Ok (statusView s0 outputLines).
Proof.
  intros Hwf Hget Hcap Hproc Hheap Hsessions.
  assert (Hlookup : lookup m1 sessionId = Some (nextRef m, s0)).
  { apply lookup_placeholder with (sessions m); [exact Hsessions|].
    rewrite Hheap. apply lookup_insert_eq. }
  split; [|split; [exact Hlookup|]].
  - unfold resumeSession.
    rewrite (count_with_placeholder m m1 sessionId s0) by assumption.
    destruct (Z.geb_spec (getActiveSessionCount m) (maxSessions env));
      [reflexivity|lia].
  - unfold getSessionStatus. now rewrite Hlookup.
Qed.

(** The claude connector. *)
Lemma claude_say_unknown_session env rt sessionId message mode m outputLines :
  wellFormed m ->
  JsMap.get (sessions m) sessionId = None ->
  getActiveSessionCount m >= maxSessions env ->
  exists m' s,
    sayToSession env rt sessionId message mode m =
      (m', Throw (MaxSessionsReached (maxSessions env))) /\
    lookup m' sessionId = Some (nextRef m, s) /\
    id s = sessionId /\ status s = done /\ process s = None /\
    getSessionStatus m' sessionId outputLines = Ok (statusView s outputLines) /\
    view_status (statusView s outputLines) = done.
Proof.
  intros Hwf Hget Hcap. unfold sayToSession. rewrite Hget.
  cbn [createTrackedSession alloc with_sessions heap].
  rewrite lookup_insert_eq. cbn [process isSome config permissionMode].
  match goal with
  | |- context [<[nextRef m := ?placeholder]> (heap m)] =>
      set (s0 := placeholder)
  end.
  destruct (isSome mode && negb (bool_decide (mode = None))).
  - match goal with
    | |- context [resumeSession env (nextRef m) message (child rt) _ ?m0] =>
        set (m1 := m0)
    end.
    destruct (resume_placeholder_rejected env m m1 sessionId
                (with_config (with_permissionMode mode (config s0)) s0)
                message (child rt) (spawnThrows rt) outputLines)
      as (Hresume & Hlookup & Hstatus); try assumption; try reflexivity.
    { subst m1. cbn [update heap with_heap].
      exact (alter_insert_same
               (fun s => with_config (with_permissionMode mode (config s)) s)
               (nextRef m) s0 (heap m)). }
    rewrite Hresume.
    exists m1, (with_config (with_permissionMode mode (config s0)) s0).
    repeat split; assumption.
  - match goal with
    | |- context [resumeSession env (nextRef m) message (child rt) _ ?m0] =>
        set (m1 := m0)
    end.
    destruct (resume_placeholder_rejected env m m1 sessionId s0
                message (child rt) (spawnThrows rt) outputLines)
      as (Hresume & Hlookup & Hstatus); try assumption; try reflexivity.
    rewrite Hresume. exists m1, s0. repeat split; assumption.
Qed.

(** Whatever makes the call throw, the placeholder stays. *)
Lemma claude_say_unknown_session_throws env rt sessionId message mode m e
    outputLines :
  JsMap.get (sessions m) sessionId = None ->
  (sayToSession env rt sessionId message mode m).2 = Throw e ->
  exists s,
    lookup (sayToSession env rt sessionId message mode m).1 sessionId =
      Some (nextRef m, s) /\
    id s = sessionId /\ status s = done /\ process s = None /\
    getSessionStatus (sayToSession env rt sessionId message mode m).1
      sessionId outputLines = Ok (statusView s outputLines) /\
    (e = MaxSessionsReached (maxSessions env) \/
     e = SpawnError /\ spawnThrows rt = true).
Proof.
  intros Hget. unfold sayToSession. rewrite Hget.
  cbn [createTrackedSession alloc with_sessions heap].
  rewrite lookup_insert_eq. cbn [process isSome config permissionMode].
  match goal with
  | |- context [<[nextRef m := ?placeholder]> (heap m)] =>
      set (s0 := placeholder)
  end.
  assert (Hstays : forall m1 s1,
            sessions m1 = JsMap.set (sessions m) sessionId (nextRef m) ->
            heap m1 !! nextRef m = Some s1 ->
            id s1 = sessionId -> status s1 = done -> process s1 = None ->
            (let (m2, res) :=
               resumeSession env (nextRef m) message (child rt)
                 (spawnThrows rt) m1 in
             match res with
             | Ok _ =>
                 (m2, match replyOf (nextRef m) m2 with
                      | Ok v => Ok (Said v)
                      | Throw e0 => Throw e0
                      end)
             | Throw e0 => (m2, Throw e0)
             end).2 = Throw e ->
            exists s,
              lookup (let (m2, res) :=
                        resumeSession env (nextRef m) message (child rt)
                          (spawnThrows rt) m1 in
                      match res with
                      | Ok _ =>
                          (m2, match replyOf (nextRef m) m2 with
                               | Ok v => Ok (Said v)
                               | Throw e0 => Throw e0
                               end)
                      | Throw e0 => (m2, Throw e0)
                      end).1 sessionId = Some (nextRef m, s) /\
              id s = sessionId /\ status s = done /\ process s = None /\
              getSessionStatus
                (let (m2, res) :=
                   resumeSession env (nextRef m) message (child rt)
                     (spawnThrows rt) m1 in
                 match res with
                 | Ok _ =>
                     (m2, match replyOf (nextRef m) m2 with
                          | Ok v => Ok (Said v)
                          | Throw e0 => Throw e0
                          end)
                 | Throw e0 => (m2, Throw e0)
                 end).1 sessionId outputLines =
                Ok (statusView s outputLines) /\
              (e = MaxSessionsReached (maxSessions env) \/
               e = SpawnError /\ spawnThrows rt = true)).
  { intros m1 s1 Hsessions Hheap Hid Hst Hproc.
    assert (Hlookup : lookup m1 sessionId = Some (nextRef m, s1))
      by (now apply lookup_placeholder with (sessions m)).
    unfold resumeSession. destruct (_ >=? _); cbn [fst snd].
    - intros [= <-]. exists s1. unfold getSessionStatus. rewrite Hlookup.
      repeat split; try assumption. now left.
    - rewrite Hheap. destruct (spawnThrows rt); cbn [fst snd].
      + intros [= <-]. exists s1. unfold getSessionStatus. rewrite Hlookup.
        repeat split; try assumption. right. now split.
      + unfold replyOf. discriminate. }
  destruct (isSome mode && negb (bool_decide (mode = None))).
  - apply (Hstays _ (with_config (with_permissionMode mode (config s0)) s0));
      cbn [update heap with_heap sessions with_sessions];
      rewrite ?lookup_alter_eq, ?lookup_insert_eq; reflexivity.
  - apply (Hstays _ s0);
      cbn [update heap with_heap sessions with_sessions];
      rewrite ?lookup_insert_eq; reflexivity.
Qed.

End SayFacts.

Module CodexSayFacts.
Import Codex JsMapFacts.

Lemma codex_count_with_placeholder m m1 sessionId s0 :
  wellFormed m ->
  JsMap.get (sessions m) sessionId = None ->
  process s0 = None ->
  heap m1 = <[nextRef m := s0]> (heap m) ->
  sessions m1 = JsMap.set (sessions m) sessionId (nextRef m) ->
  countActiveSessions m1 = countActiveSessions m.
Proof.
  intros [Hrefs _] Hget Hproc Hheap Hsessions.
  unfold countActiveSessions, sessionObjects.
  rewrite Hheap, Hsessions, values_set_fresh by exact Hget.
  rewrite omap_app, filter_app, length_app.
  cbn [omap list_omap]. rewrite lookup_insert_eq.
  rewrite filter_cons_False by (cbn; rewrite Hproc; discriminate).
  rewrite filter_nil, Nat.add_0_r. do 3 f_equal.
  apply SayFacts.omap_ext_in. intros r Hr.
  rewrite lookup_insert_ne; [reflexivity|].
  specialize (Hrefs r Hr). lia.
Qed.

(** The codex connector. *)
Lemma codex_say_unknown_session env sessionId message imgs now cwd c t m
    outputLines :
  wellFormed m ->
  JsMap.get (sessions m) sessionId = None ->
  countActiveSessions m >= maxSessions env ->
  exists m' s,
    sayToSession env sessionId message imgs now cwd c t m =
      (m', Throw (MaxSessionsReached (maxSessions env))) /\
    lookup m' sessionId = Some (nextRef m, s) /\
    id s = sessionId /\ status s = done /\ process s = None /\
    getSessionStatus m' sessionId outputLines = Ok (statusView s outputLines) /\
    view_status (statusView s outputLines) = done.
Proof.
  intros Hwf Hget Hcap. unfold sayToSession. rewrite Hget.
  cbn [createTrackedSession alloc with_sessions heap].
  rewrite lookup_insert_eq. cbn [process isSome andb].
  match goal with
  | |- context [<[nextRef m := ?placeholder]> (heap m)] =>
      set (s0 := placeholder)
  end.
  match goal with
  | |- context [resumeSession env (nextRef m) message imgs c t ?m0] =>
      set (m1 := m0)
  end.
  assert (Hlookup : lookup m1 sessionId = Some (nextRef m, s0)).
  { unfold lookup. subst m1. cbn [with_sessions sessions heap].
    now rewrite get_set_eq, lookup_insert_eq. }
  unfold resumeSession.
  rewrite (codex_count_with_placeholder m m1 sessionId s0)
    by (try assumption; reflexivity).
  destruct (Z.geb_spec (countActiveSessions m) (maxSessions env)); [|lia].
  exists m1, s0. unfold getSessionStatus. rewrite Hlookup.
  repeat split.
Qed.

(** Whatever makes the call throw, the placeholder stays. *)
Lemma codex_say_unknown_session_throws env sessionId message imgs now cwd c t
    m e outputLines :
  JsMap.get (sessions m) sessionId = None ->
  (sayToSession env sessionId message imgs now cwd c t m).2 = Throw e ->
  exists s,
    lookup (sayToSession env sessionId message imgs now cwd c t m).1
      sessionId = Some (nextRef m, s) /\
    id s = sessionId /\ status s = done /\ process s = None /\
    getSessionStatus (sayToSession env sessionId message imgs now cwd c t m).1
      sessionId outputLines = Ok (statusView s outputLines) /\
    (e = MaxSessionsReached (maxSessions env) \/
     e = SpawnError /\ t = true).
Proof.
  intros Hget. unfold sayToSession. rewrite Hget.
  cbn [createTrackedSession alloc with_sessions heap].
  rewrite lookup_insert_eq. cbn [process isSome andb].
  match goal with
  | |- context [<[nextRef m := ?placeholder]> (heap m)] =>
      set (s0 := placeholder)
  end.
  match goal with
  | |- context [resumeSession env (nextRef m) message imgs c t ?m0] =>
      set (m1 := m0)
  end.
  assert (Hlookup : lookup m1 sessionId = Some (nextRef m, s0)).
  { unfold lookup. subst m1. cbn [with_sessions sessions heap].
    now rewrite get_set_eq, lookup_insert_eq. }
  assert (Hheap : heap m1 !! nextRef m = Some s0).
  { subst m1. cbn [with_sessions heap]. apply lookup_insert_eq. }
  unfold resumeSession. destruct (_ >=? _); cbn [fst snd].
  - intros [= <-]. exists s0. unfold getSessionStatus. rewrite Hlookup.
    repeat split. now left.
  - rewrite Hheap. destruct t; cbn [fst snd].
    + intros [= <-]. exists s0. unfold getSessionStatus. rewrite Hlookup.
      repeat split. right. now split.
    + discriminate.
Qed.

End CodexSayFacts.

(** ** Saying something to an unknown session, both connectors *)
Module PlaceholderFacts.
Import SessionProps.

(** C10. [sayToSession] with a session id that is not in the store first
    inserts a tracked placeholder (status DONE, no process) under that
    id; when the capacity check of the resume then rejects the spawn, the
    error reaches the caller and the placeholder stays in the store, so
    that a status call on that id succeeds.  The same holds of whatever
    else makes the call throw, which is the spawn throwing and nothing
    else. *)
Theorem say_unknown_session_keeps_placeholder
    (env : Claude.EnvConfig) (rt : Claude.Runtime)
    (sessionId message : string) (mode : option string) (m : Claude.Manager)
    (env' : Codex.EnvConfig) (imgs : option (list string)) (now : Z)
    (cwd : string) (c : Codex.ChildProcess) (spawnThrows : bool)
    (m' : Codex.Manager) (outputLines : Z)
    (e : Claude.Thrown) (e' : Codex.Thrown) :
  (wellFormed m ->
   JsMap.get (Claude.sessions m) sessionId = None ->
   Claude.getActiveSessionCount m >= Claude.maxSessions env ->
   exists after s,
     Claude.sayToSession env rt sessionId message mode m =
       (after, Claude.Throw (Claude.MaxSessionsReached (Claude.maxSessions env)))
     /\ Claude.lookup after sessionId = Some (Claude.nextRef m, s)
     /\ Claude.id s = sessionId /\ Claude.status s = Claude.done
     /\ Claude.process s = None
     /\ Claude.getSessionStatus after sessionId outputLines =
          Claude.Ok (Claude.statusView s outputLines)
     /\ Claude.view_status (Claude.statusView s outputLines) = Claude.done) /\
  (Codex.wellFormed m' ->
   JsMap.get (Codex.sessions m') sessionId = None ->
   Codex.countActiveSessions m' >= Codex.maxSessions env' ->
   exists after s,
     Codex.sayToSession env' sessionId message imgs now cwd c spawnThrows m' =
       (after, Codex.Throw (Codex.MaxSessionsReached (Codex.maxSessions env')))
     /\ Codex.lookup after sessionId = Some (Codex.nextRef m', s)
     /\ Codex.id s = sessionId /\ Codex.status s = Codex.done
     /\ Codex.process s = None
     /\ Codex.getSessionStatus after sessionId outputLines =
          Codex.Ok (Codex.statusView s outputLines)
     /\ Codex.view_status (Codex.statusView s outputLines) = Codex.done) /\
  (JsMap.get (Claude.sessions m) sessionId = None ->
   (Claude.sayToSession env rt sessionId message mode m).2 = Claude.Throw e ->
   exists s,
     Claude.lookup (Claude.sayToSession env rt sessionId message mode m).1
       sessionId = Some (Claude.nextRef m, s)
     /\ Claude.id s = sessionId /\ Claude.status s = Claude.done
     /\ Claude.process s = None
     /\ Claude.getSessionStatus
          (Claude.sayToSession env rt sessionId message mode m).1
          sessionId outputLines = Claude.Ok (Claude.statusView s outputLines)
     /\ (e = Claude.MaxSessionsReached (Claude.maxSessions env) \/
         e = Claude.SpawnError /\ Claude.spawnThrows rt = true)) /\
  (JsMap.get (Codex.sessions m') sessionId = None ->
   (Codex.sayToSession env' sessionId message imgs now cwd c spawnThrows m').2
     = Codex.Throw e' ->
   exists s,
     Codex.lookup
       (Codex.sayToSession env' sessionId message imgs now cwd c spawnThrows
          m').1 sessionId = Some (Codex.nextRef m', s)
     /\ Codex.id s = sessionId /\ Codex.status s = Codex.done
     /\ Codex.process s = None
     /\ Codex.getSessionStatus
          (Codex.sayToSession env' sessionId message imgs now cwd c
             spawnThrows m').1
          sessionId outputLines = Codex.Ok (Codex.statusView s outputLines)
     /\ (e' = Codex.MaxSessionsReached (Codex.maxSessions env') \/
         e' = Codex.SpawnError /\ spawnThrows = true)).
Proof.
  split; [|split; [|split]].
  - apply SayFacts.claude_say_unknown_session.
  - apply CodexSayFacts.codex_say_unknown_session.
  - apply SayFacts.claude_say_unknown_session_throws.
  - apply CodexSayFacts.codex_say_unknown_session_throws.
Qed.

End PlaceholderFacts.

(** ** Reachable states are well formed *)
Module WellFormedFacts.
Import Claude SessionProps ManagerFacts JsMapFacts.

Lemma wf_initial : wellFormed initial.
Proof.
  split; [intros r []|]. intros r s H. cbn in H.
  now rewrite lookup_empty in H.
Qed.

Lemma wf_same m m' :
  heap m' = heap m -> sessions m' = sessions m -> nextRef m' = nextRef m ->
  wellFormed m -> wellFormed m'.
Proof. unfold wellFormed. now intros -> -> ->. Qed.

Lemma wf_update r f m : wellFormed m -> wellFormed (update r f m).
Proof.
  intros [Hrefs Hheap]. split; [exact Hrefs|].
  intros j s. cbn [update heap with_heap nextRef].
  rewrite lookup_alter. case_decide; [subst j|apply Hheap].
  destruct (heap m !! r) eqn:E; [|discriminate]. intros _. eapply Hheap, E.
Qed.

Lemma wf_emit e m : wellFormed m -> wellFormed (emit e m).
Proof. now apply wf_same. Qed.

Lemma wf_settle p v m : wellFormed m -> wellFormed (settle p v m).
Proof.
  unfold settle. destruct (promises m !! p) as [[]|]; try tauto.
Qed.

Lemma wf_with_promises v m : wellFormed m -> wellFormed (with_promises v m).
Proof. now apply wf_same. Qed.

Lemma wf_with_timers v m : wellFormed m -> wellFormed (with_timers v m).
Proof. now apply wf_same. Qed.

Lemma wf_with_pendingTimeouts v m :
  wellFormed m -> wellFormed (with_pendingTimeouts v m).
Proof. now apply wf_same. Qed.

Lemma wf_alloc k s m :
  wellFormed m ->
  wellFormed (with_sessions (JsMap.set (sessions (alloc s m).2) k (nextRef m))
                (alloc s m).2).
Proof.
  intros [Hrefs Hheap]. split.
  - intros r Hr. cbn [alloc snd with_sessions sessions nextRef] in *.
    apply values_set in Hr. destruct Hr as [->|Hr]; [lia|].
    specialize (Hrefs r Hr). lia.
  - intros r s0. cbn [alloc snd with_sessions heap nextRef].
    rewrite lookup_insert. case_decide; [lia|].
    intros H0. specialize (Hheap r s0 H0). lia.
Qed.

Lemma wf_delete k m :
  wellFormed m -> wellFormed (with_sessions (JsMap.delete (sessions m) k) m).
Proof.
  intros [Hrefs Hheap]. split; [|exact Hheap].
  intros r Hr. cbn [with_sessions sessions nextRef] in *.
  apply values_delete in Hr. now apply Hrefs.
Qed.

Lemma wf_set k r s m :
  heap m !! r = Some s ->
  wellFormed m -> wellFormed (with_sessions (JsMap.set (sessions m) k r) m).
Proof.
  intros Hr [Hrefs Hheap]. split; [|exact Hheap].
  intros j Hj. cbn [with_sessions sessions nextRef] in *.
  apply values_set in Hj. destruct Hj as [->|Hj]; [|now apply Hrefs].
  eapply Hheap, Hr.
Qed.

Lemma wf_resumeSession env r message c t m :
  wellFormed m -> wellFormed (resumeSession env r message c t m).1.
Proof.
  intros Hwf. unfold resumeSession. destruct (_ >=? _); [exact Hwf|].
  destruct (heap m !! r); [|exact Hwf]. destruct t; [exact Hwf|].
  cbn [fst]. now apply wf_update, wf_update, wf_emit.
Qed.

Lemma wf_cleanup m : wellFormed m -> wellFormed (cleanup m).
Proof.
  intros Hwf. unfold cleanup. apply wf_with_pendingTimeouts.
  generalize (JsMap.values (pendingTimeouts m)). intros l.
  revert m Hwf; induction l as [|t l IH]; intros m Hwf; [exact Hwf|].
  cbn [fold_left]. apply IH. now apply wf_with_timers.
Qed.

Lemma wf_stop m : wellFormed m -> wellFormed (stop m).
Proof.
  intros Hwf. unfold stop. apply wf_cleanup.
  generalize (sessionObjects m). intros l.
  revert m Hwf; induction l as [|x l IH]; intros m Hwf; [exact Hwf|].
  cbn [fold_left]. apply IH. destruct (process x.2); [|exact Hwf].
  now apply wf_emit.
Qed.

Ltac solve_wf :=
  repeat first
    [ assumption
    | apply wf_update
    | apply wf_emit
    | apply wf_settle
    | apply wf_with_promises
    | apply wf_with_timers
    | apply wf_with_pendingTimeouts
    | apply wf_resumeSession
    | apply wf_alloc ].

Ltac wf_resume :=
  match goal with
  | |- context [resumeSession ?e ?r ?msg ?c ?t ?m0] =>
      let H := fresh "H" in
      assert (H : wellFormed (resumeSession e r msg c t m0).1) by solve_wf;
      destruct (resumeSession e r msg c t m0) as [? []]; exact H
  end.

Lemma wf_step env m l : wellFormed m -> wellFormed (step env m l).
Proof.
  intros Hwf. destruct l; cbn [step].
  - unfold startSession. destruct (_ >=? _); [exact Hwf|].
    cbn [alloc]. destruct (spawnThrows rt); cbn [fst].
    + exact (wf_alloc _ _ m Hwf).
    + apply wf_update, wf_emit. exact (wf_alloc _ _ m Hwf).
  - unfold sayToSession.
    destruct (JsMap.get (sessions m) sessionId) as [r|] eqn:Hget.
    + destruct (heap m !! r) as [session|] eqn:Hr; [|exact Hwf].
      destruct (process session) as [proc|];
        [destruct (status_eqb (status session) active)|];
        destruct (isSome mode && _); try destruct (stdinAvailable rt);
        cbn [fst]; solve_wf; wf_resume.
    + assert (Hwf' : wellFormed
                       (createTrackedSession sessionId (now rt) (cwd rt) m).2).
      { unfold createTrackedSession. cbn [alloc snd].
        exact (wf_alloc _ _ m Hwf). }
      destruct (createTrackedSession sessionId (now rt) (cwd rt) m)
        as [r m1]. cbn [snd] in Hwf'.
      destruct (heap m1 !! r) as [session|]; [|exact Hwf'].
      destruct (process session) as [proc|];
        [destruct (status_eqb (status session) active)|];
        destruct (isSome mode && _); try destruct (stdinAvailable rt);
        cbn [fst]; solve_wf; wf_resume.
  - unfold sayAfterExit.
    destruct (heap m !! r) as [session|] eqn:Hr; [|exact Hwf].
    destruct (process session) as [proc|]; wf_resume.
  - unfold respondToQuestion.
    destruct (lookup m sessionId) as [[r session]|]; [|exact Hwf].
    destruct (pendingQuestion session) as [q|]; [|exact Hwf].
    destruct (negb _); [exact Hwf|].
    cbn [fst]. apply wf_update. unfold resolveQuestion.
    apply wf_settle, wf_update.
    destruct (JsMap.get _ _); unfold clearTimeout; solve_wf.
  - unfold interruptSession.
    destruct (lookup m sessionId) as [[r session]|]; [|exact Hwf].
    destruct (process session) as [proc|]; cbn [fst]; solve_wf.
  - unfold handleEvent.
    destruct (heap m !! r) as [session|] eqn:Hr; [|exact Hwf].
    destruct event as [newId ts|inner|st res cost turns|raw]; solve_wf.
    destruct (negb _); solve_wf.
    eapply wf_set.
    + cbn [update with_sessions heap with_heap].
      rewrite !lookup_alter_eq, Hr. reflexivity.
    + apply wf_update, wf_delete, wf_update, Hwf.
  - unfold handleExit. solve_wf.
  - unfold onPermissionRequest.
    destruct (findSessionForPermission m _) as [[r session]|].
    + unfold handlePermissionRequest.
      destruct (buildQuestion _ _ _) as [q|e]; [|exact Hwf].
      cbn [fst newPromise setTimeout]. solve_wf.
    + cbn [newPromise fst]. solve_wf.
  - unfold fireTimeout.
    destruct (timers m !! t) as [[timer|]|]; solve_wf.
  - now apply wf_stop.
Qed.

(** Every state the connector reaches from its initial state is well
    formed. *)
Lemma wf_run env trace : wellFormed (run env initial trace).
Proof.
  unfold run. generalize wf_initial. generalize initial.
  induction trace as [|l trace IH]; intros m Hwf; [exact Hwf|].
  cbn [fold_left]. apply IH. now apply wf_step.
Qed.

End WellFormedFacts.

Module CodexWellFormedFacts.
Import Codex JsMapFacts.

Lemma codex_wf_initial : wellFormed initial.
Proof.
  split; [intros r []|]. intros r s H. cbn in H.
  now rewrite lookup_empty in H.
Qed.

Lemma codex_wf_update r f m : wellFormed m -> wellFormed (update r f m).
Proof.
  intros [Hrefs Hheap]. split; [exact Hrefs|].
  intros j s. cbn [update heap with_heap nextRef].
  rewrite lookup_alter. case_decide; [subst j|apply Hheap].
  destruct (heap m !! r) eqn:E; [|discriminate]. intros _. eapply Hheap, E.
Qed.

Lemma codex_wf_emit e m : wellFormed m -> wellFormed (emit e m).
Proof. unfold wellFormed. tauto. Qed.

Lemma codex_wf_createTrackedSession env sessionId now cwd m :
  wellFormed m -> wellFormed (createTrackedSession env sessionId now cwd m).2.
Proof.
  intros [Hrefs Hheap]. unfold createTrackedSession. cbn [alloc snd]. split.
  - intros r Hr. cbn [with_sessions sessions nextRef] in *.
    apply values_set in Hr. destruct Hr as [->|Hr]; [lia|].
    specialize (Hrefs r Hr). lia.
  - intros r s0. cbn [with_sessions heap nextRef].
    rewrite lookup_insert. case_decide; [lia|].
    intros H0. specialize (Hheap r s0 H0). lia.
Qed.

Lemma codex_wf_resumeSession env r message imgs c t m :
  wellFormed m -> wellFormed (resumeSession env r message imgs c t m).1.
Proof.
  intros Hwf. unfold resumeSession. destruct (_ >=? _); [exact Hwf|].
  destruct (heap m !! r); [|exact Hwf]. destruct t; [exact Hwf|].
  cbn [fst]. now apply codex_wf_update, codex_wf_update, codex_wf_emit.
Qed.

Lemma codex_wf_sayToSession env sessionId message imgs now cwd c t m :
  wellFormed m ->
  wellFormed (sayToSession env sessionId message imgs now cwd c t m).1.
Proof.
  intros Hwf. unfold sayToSession.
  assert (Hwf' : wellFormed
                   (match JsMap.get (sessions m) sessionId with
                    | Some r => (r, m)
                    | None => createTrackedSession env sessionId now cwd m
                    end).2).
  { destruct (JsMap.get (sessions m) sessionId); [exact Hwf|].
    now apply codex_wf_createTrackedSession. }
  destruct (match JsMap.get (sessions m) sessionId with
            | Some r => (r, m)
            | None => createTrackedSession env sessionId now cwd m
            end) as [r m1].
  cbn [snd] in Hwf'.
  destruct (heap m1 !! r) as [session|]; [|exact Hwf'].
  destruct (isSome (process session) && _); [exact Hwf'|].
  pose proof (codex_wf_resumeSession env r message imgs c t m1 Hwf') as H.
  now destruct (resumeSession env r message imgs c t m1) as [? []].
Qed.

End CodexWellFormedFacts.

Module PlaceholderWitness.
Import Fixture PlaceholderFacts.

Lemma say_unknown_session_keeps_placeholder_witness :
  (exists after s,
     Claude.sayToSession envOne rt2 "user-created-session" "hello" None
       startedOne =
       (after, Claude.Throw (Claude.MaxSessionsReached 1))
     /\ Claude.lookup after "user-created-session" = Some (1%nat, s)
     /\ Claude.status s = Claude.done /\ Claude.process s = None
     /\ Claude.getSessionStatus after "user-created-session" 50 =
          Claude.Ok (Claude.statusView s 50)) /\
  (exists after s,
     Codex.sayToSession codexEnvOne "user-created-session" "hello" None 2
       "/work" 22%nat false codexBusy =
       (after, Codex.Throw (Codex.MaxSessionsReached 1))
     /\ Codex.lookup after "user-created-session" = Some (1%nat, s)
     /\ Codex.status s = Codex.done /\ Codex.process s = None
     /\ Codex.getSessionStatus after "user-created-session" 50 =
          Codex.Ok (Codex.statusView s 50)).
Proof.
  destruct (say_unknown_session_keeps_placeholder envOne rt2
              "user-created-session" "hello" None startedOne codexEnvOne
              None 2 "/work" 22%nat false codexBusy 50
              (Claude.MaxSessionsReached 1) (Codex.MaxSessionsReached 1))
    as (Hclaude & Hcodex & _).
  split.
  - destruct Hclaude as (after & s & H1 & H2 & _ & H4 & H5 & H6 & _).
    + apply WellFormedFacts.wf_run.
    + reflexivity.
    + vm_compute. discriminate.
    + exists after, s. repeat split; assumption.
  - destruct Hcodex as (after & s & H1 & H2 & _ & H4 & H5 & H6 & _).
    + apply CodexWellFormedFacts.codex_wf_sayToSession,
        CodexWellFormedFacts.codex_wf_initial.
    + reflexivity.
    + vm_compute. discriminate.
    + exists after, s. repeat split; assumption.
Defined.

End PlaceholderWitness.

(** ** More about strings *)
Module TrimFacts.
Import JsString JsStringFacts.

Lemma occurs_dec c s : occurs c s \/ ~ occurs c s.
Proof.
  induction s as [|a s IH]; [right; exact (fun H => H)|].
  cbn [occurs]. destruct (Ascii.eqb_spec a c) as [->|Hne]; [left; now left|].
  destruct IH as [IH|IH]; [left; now right|right; intros [H|H]; tauto].
Qed.

Lemma occurs_app c a b : occurs c (a +:+ b) <-> occurs c a \/ occurs c b.
Proof.
  induction a as [|x a IH].
  - rewrite append_nil. cbn [occurs]. tauto.
  - rewrite append_cons. cbn [occurs]. rewrite IH. tauto.
Qed.

Lemma trimStart_first s c :
  firstChar (trimStart s) = Some c -> isWhiteSpace c = false.
Proof.
  induction s as [|a s IH]; cbn [trimStart firstChar]; [discriminate|].
  destruct (isWhiteSpace a) eqn:E; [exact IH|].
  cbn [firstChar]. now intros [= <-].
Qed.

Lemma occurs_trimStart c s : occurs c (trimStart s) -> occurs c s.
Proof.
  induction s as [|a s IH]; cbn [trimStart occurs]; [tauto|].
  destruct (isWhiteSpace a); cbn [occurs]; tauto.
Qed.

Lemma trimEnd_cons a s :
  trimEnd (String a s) = String a (trimEnd s) \/
  (trimEnd (String a s) = EmptyString /\ isWhiteSpace a = true).
Proof.
  cbn [trimEnd]. destruct (trimEnd s) eqn:E.
  - destruct (isWhiteSpace a); [right; now split|left; reflexivity].
  - left; reflexivity.
Qed.

Lemma trimEnd_last s c :
  lastChar (trimEnd s) = Some c -> isWhiteSpace c = false.
Proof.
  induction s as [|a s IH]; [discriminate|].
  cbn [trimEnd]. destruct (trimEnd s) as [|b t] eqn:E.
  - destruct (isWhiteSpace a) eqn:Ea; [discriminate|].
    cbn [lastChar]. now intros [= <-].
  - cbn [lastChar] in *. exact IH.
Qed.

Lemma trimEnd_first s c :
  firstChar (trimEnd s) = Some c -> firstChar s = Some c.
Proof.
  destruct s as [|a s]; [discriminate|].
  destruct (trimEnd_cons a s) as [->|[-> _]]; [|discriminate].
  now cbn [firstChar].
Qed.

Lemma occurs_trimEnd c s : occurs c (trimEnd s) -> occurs c s.
Proof.
  induction s as [|a s IH]; [tauto|].
  destruct (trimEnd_cons a s) as [->|[-> _]]; cbn [occurs]; tauto.
Qed.

Lemma trim_noOuterWhiteSpace s : noOuterWhiteSpace (trim s).
Proof.
  unfold trim. split; intros c H.
  - apply trimEnd_first in H. now apply trimStart_first in H.
  - now apply trimEnd_last in H.
Qed.

Lemma occurs_trim c s : occurs c (trim s) -> occurs c s.
Proof. unfold trim. intros H. now apply occurs_trimStart, occurs_trimEnd. Qed.

End TrimFacts.

Module AnswerNormalFacts.
Import JsString JsStringFacts AnswerParser AnswerParserFacts TrimFacts.

(** X1. What the answer parser returns is normalised: the decision has no
    white space at either end and no colon, a reason has no white space
    at either end, there is a reason exactly when the answer has a colon,
    and parsing the decision again gives the decision alone. *)
Theorem parseAnswer_normal_form (s : string) :
  noOuterWhiteSpace (decision (parseAnswer s)) /\
  ~ occurs ":" (decision (parseAnswer s)) /\
  (forall r, reason (parseAnswer s) = Some r -> noOuterWhiteSpace r) /\
  (reason (parseAnswer s) = None <-> ~ occurs ":" s) /\
  parseAnswer (decision (parseAnswer s)) =
    {| decision := decision (parseAnswer s); reason := None |}.
Proof.
  assert (Hcases :
            exists a, ~ occurs ":" a /\ decision (parseAnswer s) = trim a /\
              ((~ occurs ":" s /\ reason (parseAnswer s) = None) \/
               (occurs ":" s /\ exists b, reason (parseAnswer s) = Some (trim b)))).
  { destruct (occurs_dec ":" s) as [Hyes|Hno].
    - destruct (occurs_split _ _ Hyes) as (a & b & -> & Ha).
      rewrite parseAnswer_first_colon by exact Ha.
      exists a. cbn [decision reason]. repeat split; [exact Ha|].
      right. split; [exact Hyes|now exists b].
    - rewrite parseAnswer_no_colon by exact Hno.
      exists s. cbn [decision reason]. repeat split; [exact Hno|].
      left. now split. }
  destruct Hcases as (a & Ha & Hd & Hr).
  assert (Hnocolon : ~ occurs ":" (trim a))
    by (intros H; now apply Ha, occurs_trim).
  rewrite Hd.
  split; [apply trim_noOuterWhiteSpace|].
  split; [exact Hnocolon|].
  split.
  { intros r Hsome. destruct Hr as [[_ Hr]|[_ [b Hr]]];
      rewrite Hr in Hsome; [discriminate|].
    injection Hsome as <-. apply trim_noOuterWhiteSpace. }
  split.
  { split.
    - intros Hnone. destruct Hr as [[Hno _]|[_ [b Hr]]]; [exact Hno|].
      rewrite Hr in Hnone. discriminate.
    - intros Hno. destruct Hr as [[_ Hr]|[Hyes _]]; [exact Hr|tauto]. }
  rewrite parseAnswer_no_colon by exact Hnocolon.
  now rewrite trim_fixed by apply trim_noOuterWhiteSpace.
Qed.

End AnswerNormalFacts.

(** ** Extraction from the ring history *)
Module ExtractFacts.
Import EventBuffer EventBufferFacts.

(** [l.slice(-n)] for a positive [n]: the last [n] elements. *)
Lemma slice_last {T : Type} (l : list T) (n : Z) :
  1 <= n -> JsArray.slice l (- n) = drop (List.length l - Z.to_nat n) l.
Proof.
  intros Hn. unfold JsArray.slice, JsString.relativeIndex.
  destruct (Z.ltb_spec (- n) 0) as [_|Hge]; [|lia].
  f_equal. lia.
Qed.

Lemma slice_last_length {T : Type} (l : list T) (n : Z) :
  1 <= n -> Z.of_nat (List.length (JsArray.slice l (- n))) <= n.
Proof.
  intros Hn. rewrite slice_last by exact Hn. rewrite length_drop. lia.
Qed.

(** X2. [extract] on a buffer of capacity [k] that received the events
    [es]: for a count of at least one it returns at most [count] values,
    the last ones, in order, among the values [fn] gives for the events
    the buffer still holds (the last [k] pushed); evicted events no longer
    contribute. *)
Theorem extract_recent_matches {T R : Type} (fn : T -> option R)
    (k count : Z) (es : list T) :
  0 <= k -> 1 <= count ->
  let kept := drop (List.length es - Z.to_nat k) es in
  extract fn count (pushAll (create k) es) =
    drop (List.length (omap fn kept) - Z.to_nat count) (omap fn kept) /\
  Z.of_nat (List.length (extract fn count (pushAll (create k) es))) <= count.
Proof.
  intros Hk Hc kept. unfold extract.
  rewrite events_pushAll by exact Hk. fold kept.
  split; [now apply slice_last|now apply slice_last_length].
Qed.

Lemma extract_recent_matches_witness :
  extract (fun n : Z => if n <? 10 then None else Some (n * 2)) 2
          (pushAll (create 3) [11; 12; 3; 14; 15]) = [28; 30].
Proof.
  refine (eq_trans
            (proj1 (extract_recent_matches
                      (fun n : Z => if n <? 10 then None else Some (n * 2))
                      3 2 [11; 12; 3; 14; 15] _ _)) _);
    [lia|lia|reflexivity].
Defined.

End ExtractFacts.

(** ** The codex answer translation *)
Module CodexTranslateFacts.
Import JsString AnswerParser Codex.

(** X3. The codex approval: the response approves exactly when there is a
    first answer whose decision (the trimmed text before its first colon)
    is one of the words approve, allow, yes, spelled so; no answer and an
    empty first answer are denials without a reason; the reason of the
    response is the reason of the first answer; later answers are
    ignored. *)
Theorem codex_translateAnswer_spec (answers rest : list string) (a : string) :
  (approved (translateAnswer answers) = true <->
     exists a' rest', answers = a' :: rest' /\
       In (decision (parseAnswer a')) ["approve"; "allow"; "yes"]%string) /\
  translateAnswer [] = {| approved := false; response_reason := None |} /\
  translateAnswer (""%string :: rest) =
    {| approved := false; response_reason := None |} /\
  (a <> ""%string ->
     response_reason (translateAnswer (a :: rest)) = reason (parseAnswer a)) /\
  translateAnswer (a :: rest) = translateAnswer [a].
Proof.
  assert (Hin : forall d : string,
             String.eqb d "approve" || String.eqb d "allow" || String.eqb d "yes"
               = true <-> In d ["approve"; "allow"; "yes"]%string).
  { intros d. rewrite !orb_true_iff, !String.eqb_eq. cbn [In].
    intuition congruence. }
  split; [|split; [reflexivity|split; [reflexivity|split; [|reflexivity]]]].
  - destruct answers as [|a' rest'].
    + split; [discriminate|]. intros (? & ? & [=] & _).
    + unfold translateAnswer. cbn [approved].
      destruct (String.eqb_spec a' "") as [->|Hne].
      * split; [discriminate|].
        intros (a2 & rest2 & [= <- <-] & H).
        revert H. vm_compute. intuition discriminate.
      * rewrite Hin. split.
        -- intros H. now exists a', rest'.
        -- now intros (a2 & rest2 & [= <- <-] & H).
  - unfold translateAnswer. now destruct (String.eqb_spec a "") as [->|_].
Qed.

End CodexTranslateFacts.

(** ** The claude question builder *)
Module BuildQuestionFacts.
Import Json JsonProps Claude.

Lemma questionItems_Ok qs :
  Forall (fun q => q <> JNull) qs ->
  exists items, questionItems qs = Ok items /\
    List.length items = List.length qs.
Proof.
  induction 1 as [|q qs Hq _ (items & IH & Hlen)]; [now exists []|].
  cbn [questionItems]. rewrite IH.
  destruct q; try (eexists; split; [reflexivity|cbn; now rewrite Hlen]).
  now contradiction Hq.
Qed.

Lemma questionItems_Throw qs e : questionItems qs = Throw e -> e = TypeError.
Proof.
  induction qs as [|q qs IH]; [discriminate|]. cbn [questionItems].
  destruct q; cbn [questionItem]; try (now intros [= <-]);
    destruct (questionItems qs); ((now intros [= <-]) || (intros [= <-]; now apply IH) || discriminate).
Qed.

Lemma toStringU_None (o : option json) :
  toStringU o = None -> exists v, o = Some v /\ notConvertible v.
Proof.
  destruct o as [v|]; [|discriminate]. cbn [toStringU]. intros H.
  exists v. split; [reflexivity|]. now apply ParserFacts.toString_None.
Qed.

Lemma notConvertible_truthy v : notConvertible v -> truthy (Some v) = true.
Proof. now destruct 1. Qed.

(** The summary throws only over an input with a value that cannot be
    converted to a string. *)
Lemma summarizeInput_None toolName input :
  summarizeInput toolName input = None ->
  exists k v, get input k = Some v /\ notConvertible v.
Proof.
  unfold summarizeInput.
  assert (Hlabelled : forall key label,
            (if truthy (get input key) then
               match toStringU (get input key) with
               | Some text => Some [(label +:+ ": " +:+ text)%string]
               | None => None
               end
             else Some []) = None ->
            exists k v, get input k = Some v /\ notConvertible v).
  { intros key label. destruct (truthy (get input key)); [|discriminate].
    destruct (toStringU (get input key)) eqn:E; [discriminate|].
    intros _. apply toStringU_None in E as (v & Hv & Hn). now exists key, v. }
  repeat match goal with
         | |- (?labelled ≫= _) = None -> _ =>
             destruct labelled eqn:?; cbn [mbind option_bind];
               [|intros _; eapply Hlabelled; eassumption]
         end.
  match goal with
  | |- (match ?parts with _ => _ end ≫= _) = None -> _ => destruct parts
  end; cbn [mbind option_bind]; [|discriminate].
  destruct (take 3 (keys input)) as [|k0 ks] eqn:Hkeys;
    cbn [mbind option_bind]; [discriminate|].
  match goal with
  | |- ((mapM ?f ?l ≫= _) ≫= _) = None -> _ => destruct (mapM f l) eqn:Hshown
  end; cbn [mbind option_bind]; [discriminate|].
  intros _.
  assert (Hsome : ~ Forall (fun k => is_Some (toStringU (get input k)))
                      (k0 :: ks)).
  { intros Hall.
    assert (Hmap : is_Some
              (mapM (fun k =>
                       toStringU (get input k) ≫= fun text =>
                       Some (k +:+ ": " +:+ JsString.slice text 0 (Some 50))%string)
                    (k0 :: ks))).
    { apply mapM_is_Some. eapply Forall_impl; [exact Hall|].
      intros k [text Hk]. cbn [compose]. rewrite Hk. now eexists. }
    rewrite Hshown in Hmap. now destruct Hmap. }
  apply not_Forall_Exists in Hsome; [|intros k; apply _].
  apply Exists_exists in Hsome as (k & _ & Hk).
  destruct (toStringU (get input k)) eqn:E; [now contradiction Hk|].
  apply toStringU_None in E as (v & Hv & Hn). now exists k, v.
Qed.

(** X4. The question builder: every question it returns carries the
    request id, the tool name and the tool input, and has the type of the
    tool; for every tool but AskUserQuestion, over an input all of whose
    values can be converted to a string, it returns a question with one
    item, offering approve and reject for ExitPlanMode and allow and
    deny otherwise; for AskUserQuestion over an array of questions
    without a null element it returns one item per element.  The only
    thing it ever throws is a TypeError, and it throws only for
    AskUserQuestion or over an input with a value that cannot be
    converted to a string; it does throw when the command of a tool
    other than these two, or the plan of ExitPlanMode, cannot be
    converted. *)
Theorem buildQuestion_spec (toolName : string) (toolInput : object)
    (requestId : string) (items : list json) :
  (forall q, buildQuestion toolName toolInput requestId = Ok q ->
     q_id q = requestId /\ q_toolName q = toolName /\
     q_toolInput q = toolInput /\ q_type q = classifyRequest toolName) /\
  (toolName <> "AskUserQuestion"%string ->
   (forall k v, get toolInput k = Some v -> ~ notConvertible v) ->
     exists q text,
       buildQuestion toolName toolInput requestId = Ok q /\
       q_questions q =
         [{| item_question := Some (JStr text);
             item_options :=
               stringOptions
                 (if String.eqb toolName "ExitPlanMode"
                  then ["approve"; "reject"]%string
                  else ["allow"; "deny"]%string) |}]) /\
  (toolName = "AskUserQuestion"%string ->
   get toolInput "questions" = Some (JArr items) ->
   Forall (fun q => q <> JNull) items ->
     exists q,
       buildQuestion toolName toolInput requestId = Ok q /\
       List.length (q_questions q) = List.length items) /\
  (forall e, buildQuestion toolName toolInput requestId = Throw e ->
     e = TypeError /\
     (toolName = "AskUserQuestion"%string \/
      exists k v, get toolInput k = Some v /\ notConvertible v)) /\
  (forall v,
     toolName <> "AskUserQuestion"%string ->
     toolName <> "ExitPlanMode"%string ->
     get toolInput "command" = Some v -> notConvertible v ->
     buildQuestion toolName toolInput requestId = Throw TypeError) /\
  (forall v,
     toolName = "ExitPlanMode"%string ->
     get toolInput "plan" = Some v -> notConvertible v ->
     buildQuestion toolName toolInput requestId = Throw TypeError).
Proof.
  unfold buildQuestion, classifyRequest.
  destruct (String.eqb_spec toolName "ExitPlanMode") as [Hplan|Hplan];
    [|destruct (String.eqb_spec toolName "AskUserQuestion") as [Hask|Hask]].
  - (* ExitPlanMode *)
    assert (Hthrows :
              (if truthy (get toolInput "plan")
               then toStringU (get toolInput "plan")
               else Some (stringifyPretty (JObj toolInput))) = None ->
              exists k v, get toolInput k = Some v /\ notConvertible v).
    { destruct (truthy _); [|discriminate]. intros E.
      apply toStringU_None in E as (v & Hv & Hn). now exists "plan"%string, v. }
    split.
    { intros q. destruct (if truthy _ then _ else _); [|discriminate].
      intros [= <-]. now cbn. }
    split.
    { intros _ Hall.
      destruct (if truthy _ then _ else _) as [plan|] eqn:E.
      - eexists _, _. split; reflexivity.
      - destruct (Hthrows eq_refl) as (k & v & Hv & Hn).
        now destruct (Hall k v Hv). }
    split; [intros ->; discriminate|].
    split.
    { intros e. destruct (if truthy _ then _ else _) as [plan|] eqn:E;
        [discriminate|].
      intros [= <-]. split; [reflexivity|]. right. now apply Hthrows. }
    split; [intros v _ Hne; now contradiction Hne|].
    intros v _ Hv Hn. rewrite Hv, (notConvertible_truthy v Hn).
    cbn [toStringU]. apply ParserFacts.toString_None in Hn. now rewrite Hn.
  - (* AskUserQuestion *)
    split.
    { intros q. destruct (truthy _); [destruct (get toolInput _) as [[]|]|];
        try discriminate;
        match goal with
        | |- context [questionItems ?l] => destruct (questionItems l)
        end; try discriminate; intros [= <-]; now cbn. }
    split; [tauto|].
    split.
    { intros _ Hget Hall. rewrite Hget. cbn [truthy].
      destruct (questionItems_Ok items Hall) as (its & -> & Hlen).
      eexists; split; [reflexivity|exact Hlen]. }
    split.
    { intros e Hthrow. split; [|now left]. revert Hthrow.
      destruct (truthy _); [destruct (get toolInput _) as [[]|]|];
        try (now intros [= <-]);
        match goal with
        | |- context [questionItems ?l] => destruct (questionItems l) eqn:E
        end; try discriminate; intros [= <-];
        now apply questionItems_Throw in E. }
    split; [intros v Hne; now contradiction Hne|].
    intros v Heq. congruence.
  - (* any other tool *)
    split.
    { intros q. destruct (summarizeInput toolName toolInput); [|discriminate].
      intros [= <-]. now cbn. }
    split.
    { intros _ Hall.
      destruct (summarizeInput toolName toolInput) as [summary|] eqn:E.
      - eexists _, _. split; reflexivity.
      - destruct (summarizeInput_None _ _ E) as (k & v & Hv & Hn).
        now destruct (Hall k v Hv). }
    split; [tauto|].
    split.
    { intros e.
      destruct (summarizeInput toolName toolInput) as [summary|] eqn:E;
        [discriminate|].
      intros [= <-]. split; [reflexivity|]. right.
      now apply (summarizeInput_None toolName). }
    split; [|intros v Heq; now contradiction Hplan].
    intros v _ _ Hv Hn.
    assert (E : summarizeInput toolName toolInput = None).
    { unfold summarizeInput. rewrite Hv, (notConvertible_truthy v Hn).
      cbn [toStringU]. apply ParserFacts.toString_None in Hn.
      now rewrite Hn. }
    now rewrite E.
Qed.

Lemma buildQuestion_spec_witness :
  (exists q text,
     buildQuestion "Bash" [("command"%string, JStr "ls")] "req_7" = Ok q /\
     q_questions q =
       [{| item_question := Some (JStr text);
           item_options := stringOptions ["allow"; "deny"]%string |}]) /\
  (exists q,
     buildQuestion "AskUserQuestion"
       [("questions"%string,
         JArr [JObj [("question"%string, JStr "Which one?")]; JStr "x"])]
       "req_8" = Ok q /\
     List.length (q_questions q) = 2%nat) /\
  buildQuestion "Bash"
    [("command"%string, JObj [("toString"%string, JNum (JsNumber.ofZ 1))])]
    "req_9" = Throw TypeError.
Proof.
  split; [|split].
  - apply (buildQuestion_spec "Bash" [("command"%string, JStr "ls")] "req_7" []).
    + discriminate.
    + intros k v. cbn [get]. destruct (String.eqb "command" k); [|discriminate].
      intros [= <-] Hn. inversion Hn.
  - apply (buildQuestion_spec "AskUserQuestion"
             [("questions"%string,
               JArr [JObj [("question"%string, JStr "Which one?")]; JStr "x"])]
             "req_8"
             [JObj [("question"%string, JStr "Which one?")]; JStr "x"]).
    + reflexivity.
    + reflexivity.
    + repeat constructor; discriminate.
  - refine (proj1 (proj2 (proj2 (proj2 (proj2
              (buildQuestion_spec "Bash"
                 [("command"%string,
                   JObj [("toString"%string, JNum (JsNumber.ofZ 1))])]
                 "req_9" [])))))
              (JObj [("toString"%string, JNum (JsNumber.ofZ 1))]) _ _ eq_refl _).
    + discriminate.
    + discriminate.
    + now constructor.
Defined.

End BuildQuestionFacts.

(** ** The line protocol of the claude process *)
Module StringifyFacts.
Import JsString JsStringFacts TrimFacts Json ClaudeProcess.

Lemma escapeChar_no_newline c : ~ occurs lineFeed (escapeChar c).
Proof.
  destruct c as [[] [] [] [] [] [] [] []]; vm_compute;
    intuition discriminate.
Qed.

Lemma escape_no_newline s : ~ occurs lineFeed (escape s).
Proof.
  induction s as [|c s IH]; cbn [escape]; [exact (fun H => H)|].
  rewrite occurs_app. intros [H|H]; [now apply escapeChar_no_newline in H|tauto].
Qed.

Lemma quote_no_newline s : ~ occurs lineFeed (quote s).
Proof.
  unfold quote. cbn [occurs]. rewrite occurs_app. cbn [occurs].
  intros [H|[H|[H|[]]]]; try discriminate H.
  now apply escape_no_newline in H.
Qed.

Lemma join_no_newline sep parts :
  ~ occurs lineFeed sep -> Forall (fun p => ~ occurs lineFeed p) parts ->
  ~ occurs lineFeed (join sep parts).
Proof.
  intros Hsep. induction 1 as [|p parts Hp Hall IH]; [exact (fun H => H)|].
  cbn [join]. destruct parts as [|p' parts']; [exact Hp|].
  rewrite !occurs_app. tauto.
Qed.

Lemma string_of_uint_no_newline d :
  ~ occurs lineFeed (DecimalString.NilEmpty.string_of_uint d).
Proof.
  induction d; cbn [DecimalString.NilEmpty.string_of_uint occurs];
    [tauto|..]; intros [H|H]; (discriminate H || tauto).
Qed.

Lemma digits_no_newline n : ~ occurs lineFeed (JsNumber.digits n).
Proof.
  unfold JsNumber.digits, DecimalString.NilZero.string_of_int,
    DecimalString.NilZero.string_of_uint.
  destruct (Z.to_int n) as [d|d].
  - destruct d; try apply string_of_uint_no_newline.
    cbn [occurs]. intros [H|[]]. discriminate H.
  - cbn [occurs]. intros [H|H]; [discriminate H|]. revert H.
    destruct d; try apply string_of_uint_no_newline.
    cbn [occurs]. intros [H|[]]. discriminate H.
Qed.

Lemma zeros_no_newline n : ~ occurs lineFeed (JsNumber.zeros n).
Proof.
  induction n as [|n IH]; cbn [JsNumber.zeros occurs]; [tauto|].
  intros [H|H]; [discriminate H|tauto].
Qed.

Lemma occurs_substring c a b s : occurs c (substring a b s) -> occurs c s.
Proof.
  revert a b. induction s as [|x s IH]; intros a b.
  - destruct a, b; cbn; tauto.
  - destruct a as [|a]; destruct b as [|b]; cbn [substring occurs];
      try tauto.
    + intros [H|H]; [now left|right; now apply (IH 0%nat b)].
    + intros H. right. now apply (IH a 0%nat).
    + intros H. right. now apply (IH a (S b)).
Qed.

Lemma format_no_newline ds n :
  ~ occurs lineFeed ds -> ~ occurs lineFeed (JsNumber.format ds n).
Proof.
  intros Hds. unfold JsNumber.format.
  repeat match goal with
         | |- context [if ?c then _ else _] => destruct c
         end;
    rewrite ?occurs_app; cbn [occurs];
    repeat match goal with
           | |- ~ (_ \/ _) => intros [H|H]; revert H
           | |- _ \/ _ -> False => intros [H|H]; revert H
           | |- occurs _ (_ +:+ _) -> False => rewrite occurs_app
           | |- occurs _ (substring _ _ _) -> False =>
               intros H; now apply occurs_substring in H
           | |- occurs _ (JsNumber.zeros _) -> False => apply zeros_no_newline
           | |- occurs _ (JsNumber.digits _) -> False => apply digits_no_newline
           | |- occurs _ (String _ _) -> False => cbn [occurs]
           | |- occurs _ EmptyString -> False => exact (fun H => H)
           | |- False -> False => exact (fun H => H)
           | |- _ = _ -> False => discriminate
           | |- occurs _ ds -> False => exact Hds
           | |- ~ occurs _ _ => intros H; revert H
           end.
Qed.

Lemma toString_no_newline v : ~ occurs lineFeed (JsNumber.toString v).
Proof.
  destruct v as [negative mantissa exponent|[]|]; cbn [JsNumber.toString];
    [|vm_compute; intuition discriminate..].
  destruct (mantissa <=? 0); [cbn; intuition discriminate|].
  destruct (JsNumber.normalize mantissa exponent) as [m e].
  destruct (JsNumber.shortest _ _ _ _ _) as [s k].
  destruct (s =? 10 ^ k).
  - rewrite occurs_app. intros [H|H]; revert H.
    + destruct negative; cbn; intuition discriminate.
    + apply format_no_newline. cbn. intuition discriminate.
  - rewrite occurs_app. intros [H|H]; revert H.
    + destruct negative; cbn; intuition discriminate.
    + apply format_no_newline, digits_no_newline.
Qed.

Lemma ofNumber_no_newline n : ~ occurs lineFeed (ofNumber n).
Proof. apply toString_no_newline. Qed.

(** [JSON.stringify(v)] never has a line feed in it: inside a string a
    line feed is written as an escape. *)
Lemma stringify_no_newline v : ~ occurs lineFeed (stringify v).
Proof.
  unfold stringify. generalize ""%string at 2 as indent. revert v.
  fix IH 1. intros v indent. destruct v as [|[]|n|s|items|fields];
    cbn [serialize String.eqb Ascii.eqb].
  - vm_compute. intuition discriminate.
  - vm_compute. intuition discriminate.
  - vm_compute. intuition discriminate.
  - destruct (JsNumber.isFinite n);
      [apply toString_no_newline|vm_compute; intuition discriminate].
  - apply quote_no_newline.
  - match goal with
    | |- ~ occurs lineFeed match ?parts with _ => _ end =>
        assert (Hparts : Forall (fun p => ~ occurs lineFeed p) parts)
    end.
    { induction items as [|x items IHitems]; constructor; [apply IH|exact IHitems]. }
    match goal with
    | |- ~ occurs lineFeed match ?parts with _ => _ end => destruct parts eqn:E
    end.
    + vm_compute. intuition discriminate.
    + rewrite !occurs_app. intros [H|[H|H]].
      * revert H. vm_compute. intuition discriminate.
      * revert H. apply join_no_newline; [|exact Hparts].
        vm_compute. intuition discriminate.
      * revert H. vm_compute. intuition discriminate.
  - match goal with
    | |- ~ occurs lineFeed match ?parts with _ => _ end =>
        assert (Hparts : Forall (fun p => ~ occurs lineFeed p) parts)
    end.
    { induction fields as [|[k x] fields IHfields]; constructor;
        [|exact IHfields].
      rewrite !occurs_app. intros [H|[H|H]].
      - now apply quote_no_newline in H.
      - revert H. vm_compute. intuition discriminate.
      - revert H. apply IH. }
    match goal with
    | |- ~ occurs lineFeed match ?parts with _ => _ end => destruct parts eqn:E
    end.
    + vm_compute. intuition discriminate.
    + rewrite !occurs_app. intros [H|[H|H]].
      * revert H. vm_compute. intuition discriminate.
      * revert H. apply join_no_newline; [|exact Hparts].
        vm_compute. intuition discriminate.
      * revert H. vm_compute. intuition discriminate.
Qed.

End StringifyFacts.

Module SendMessageFacts.
Import JsString JsStringFacts TrimFacts Json Claude ClaudeProcess StringifyFacts.

(** X5. What [sendMessage] writes is one line: the text before the final
    line feed has no line feed in it, whatever the message and the
    session id contain (a line feed of the message is written as an
    escape), so the first line feed of the payload is its last
    character; when the stdin is not writable nothing is written and the
    call throws. *)
Theorem sendMessage_one_line (sessionId message : string) :
  (exists body,
     sendMessage true sessionId message = Ok (body +:+ newline)%string /\
     ~ occurs lineFeed body /\
     indexOf (body +:+ newline) lineFeed = JsString.length body) /\
  sendMessage false sessionId message = Throw StdinNotAvailable.
Proof.
  split; [|reflexivity].
  eexists. split; [reflexivity|].
  assert (Hbody := stringify_no_newline
                     (JObj [("type"%string, JStr "user");
                 ("message"%string,
                  JObj [("role"%string, JStr "user");
                        ("content"%string, JStr message)]);
                 ("session_id"%string, JStr sessionId)])).
  split; [exact Hbody|].
  unfold indexOf, newline. rewrite indexOfFrom_first by exact Hbody. lia.
Qed.

End SendMessageFacts.

(** ** The exit handler runs twice *)
Module ExitTwiceFacts.

Lemma alter_twice {A : Type} (f g : A -> A) (r : nat) (h : gmap nat A) :
  alter g r (alter f r h) = alter (fun s => g (f s)) r h.
Proof.
  apply map_eq. intros j. destruct (decide (j = r)) as [->|Hne].
  - rewrite !lookup_alter_eq. now destruct (h !! r).
  - now rewrite !lookup_alter_ne by congruence.
Qed.

Lemma claude_exit_twice code signal code' signal' s :
  Claude.handleExit_session code' signal'
    (Claude.handleExit_session code signal s) =
  Claude.handleExit_session code signal s.
Proof.
  unfold Claude.handleExit_session.
  destruct s as [i st p c w cf eb pq tu res err cost tc].
  destruct st; cbn; repeat case_bool_decide; reflexivity.
Qed.

Lemma codex_exit_twice code signal code' signal' s :
  Codex.handleExit_session code' signal'
    (Codex.handleExit_session code signal s) =
  Codex.handleExit_session code signal s.
Proof.
  unfold Codex.handleExit_session.
  destruct s as [i st p c w cf eb pq res err ie us tc].
  destruct st; cbn; repeat case_bool_decide; reflexivity.
Qed.

(** X6. The exit handler is idempotent in both connectors: a process
    reports its end through the [exit] event and, when it fails, through
    the [error] event as well, and the second notification, whatever code
    and signal it carries, leaves the connector as the first one left
    it. *)
Theorem exit_twice_is_exit_once (r : nat) (code code' : option Z)
    (signal signal' : option string) (m : Claude.Manager) (m' : Codex.Manager) :
  Claude.handleExit r code' signal' (Claude.handleExit r code signal m) =
    Claude.handleExit r code signal m /\
  Codex.handleExit r code' signal' (Codex.handleExit r code signal m') =
    Codex.handleExit r code signal m'.
Proof.
  split.
  - unfold Claude.handleExit, Claude.update, Claude.with_heap.
    cbn [Claude.heap Claude.nextRef Claude.sessions Claude.promises
         Claude.timers Claude.pendingTimeouts Claude.effects].
    f_equal. rewrite alter_twice.
    apply alter_ext. intros s _. apply claude_exit_twice.
  - unfold Codex.handleExit, Codex.update, Codex.with_heap.
    cbn [Codex.heap Codex.nextRef Codex.sessions Codex.promises
         Codex.timers Codex.pendingTimeouts Codex.effects].
    f_equal. rewrite alter_twice.
    apply alter_ext. intros s _. apply codex_exit_twice.
Qed.

End ExitTwiceFacts.

(** ** Tool use tracking *)
Module ToolUseFacts.
Import Claude ToolUseProps.

Lemma completeFirstRunning_none l :
  Forall isCompleted l -> completeFirstRunning l = l.
Proof.
  induction 1 as [|t l Ht _ IH]; [reflexivity|].
  cbn [completeFirstRunning]. rewrite Ht. now rewrite IH.
Qed.

Lemma completeFirstRunning_split l1 x l2 :
  Forall isCompleted l1 -> isRunning x ->
  completeFirstRunning (l1 ++ x :: l2) = l1 ++ complete x :: l2.
Proof.
  intros Hl1 Hx. induction Hl1 as [|t l Ht _ IH].
  - cbn [app completeFirstRunning]. now rewrite Hx.
  - cbn [app completeFirstRunning]. rewrite Ht. now rewrite IH.
Qed.

Lemma completeLastRunning_none l :
  Forall isCompleted l -> completeLastRunning l = l.
Proof.
  intros H. unfold completeLastRunning.
  rewrite completeFirstRunning_none by now apply Forall_rev.
  apply rev_involutive.
Qed.

Lemma completeLastRunning_split l1 x l2 :
  isRunning x -> Forall isCompleted l2 ->
  completeLastRunning (l1 ++ x :: l2) = l1 ++ complete x :: l2.
Proof.
  intros Hx Hl2. unfold completeLastRunning.
  rewrite rev_app_distr. cbn [rev]. rewrite <- app_assoc. cbn [app].
  rewrite completeFirstRunning_split by (try apply Forall_rev; assumption).
  rewrite rev_app_distr. cbn [rev]. rewrite <- app_assoc. cbn [app].
  now rewrite !rev_involutive.
Qed.

End ToolUseFacts.

(** ** A permission request is answered once *)
Module AnswerOnceFacts.
Import Json Claude SessionProps ManagerFacts TimeoutFacts JsMapFacts.

Lemma buildQuestion_fields toolName toolInput requestId q :
  buildQuestion toolName toolInput requestId = Ok q ->
  q_id q = requestId /\ q_toolName q = toolName /\
  q_toolInput q = toolInput /\ q_type q = classifyRequest toolName.
Proof.
  unfold buildQuestion. destruct (classifyRequest toolName).
  - destruct (summarizeInput _ _); [|discriminate]. intros [= <-]. now cbn.
  - destruct (if truthy _ then _ else _); [|discriminate].
    intros [= <-]. now cbn.
  - destruct (truthy _); [destruct (get toolInput _) as [[]|]|];
      try discriminate;
      match goal with
      | |- context [questionItems ?l] => destruct (questionItems l)
      end; try discriminate; intros [= <-]; now cbn.
Qed.

(** X7. An answer settles the request: after a permission request on a
    session stored under [sessionId], [respondToQuestion] with the id of
    the request succeeds with status active, clears the pending
    question, answers the agent with the translation of the answers, and
    disarms the timeout, which does nothing when its time comes. *)
Theorem respond_settles_request (request : PermissionCallbackRequest)
    (r : nat) (m m1 : Manager) (s : Session) (p : nat) (sessionId : string)
    (answers : list string) :
  JsMap.get (sessions m) sessionId = Some r ->
  heap m !! r = Some s ->
  handlePermissionRequest request r m = (m1, Ok p) ->
  exists m2 s2,
    respondToQuestion sessionId (req_requestId request) answers m1 =
      (m2, Ok (Some {| reply_sessionId := id s; reply_status := active |})) /\
    heap m2 !! r = Some s2 /\
    status s2 = active /\ pendingQuestion s2 = None /\
    promises m2 !! p =
      Some (Some (translateAnswer (classifyRequest (req_toolName request))
                    answers (req_toolInput request))) /\
    fireTimeout (List.length (timers m)) m2 = m2.
Proof.
  intros Hget Hs. unfold handlePermissionRequest.
  destruct (buildQuestion _ _ _) as [q|e] eqn:Hq; [|discriminate].
  apply buildQuestion_fields in Hq. destruct Hq as (Hid & _ & Hinput & Htype).
  cbn [newPromise setTimeout]. intros [= <- <-].
  unfold respondToQuestion, lookup. mgr_simpl. rewrite Hget.
  rewrite !lookup_alter_eq, Hs.
  cbn [fmap option_fmap option_map pendingQuestion with_status
       with_pendingQuestion data q_id].
  rewrite Hid, String.eqb_refl. cbn [negb].
  unfold resolveQuestion. mgr_simpl. cbn [data resolve q_id].
  rewrite Hid, get_set_eq. unfold clearTimeout, settle. mgr_simpl.
  rewrite lookup_snoc. mgr_simpl.
  eexists _, _. split.
  { apply pair_equal_spec. split; [reflexivity|].
    unfold replyOf. mgr_simpl. rewrite !lookup_alter_eq, Hs. reflexivity. }
  mgr_simpl. rewrite !lookup_alter_eq, Hs.
  split; [reflexivity|].
  split; [reflexivity|]. split; [reflexivity|].
  split.
  { rewrite Hinput, Htype. apply lookup_insert_snoc. }
  unfold fireTimeout. mgr_simpl. now rewrite lookup_insert_snoc.
Qed.

Lemma respond_settles_request_witness :
  exists m2,
    (respondToQuestion "temp_1_a" "req_1" ["allow"%string] Fixture.awaiting).1
      = m2 /\
    promises m2 !! 0%nat =
      Some (Some {| behavior := allow; message := None; updatedInput := None |})
    /\ fireTimeout 0 m2 = m2.
Proof.
  destruct (heap Fixture.started !! 0%nat) as [s0|] eqn:Hs0;
    [|vm_compute in Hs0; discriminate Hs0].
  destruct (respond_settles_request Fixture.editRequest 0%nat Fixture.started
              Fixture.awaiting s0 0%nat "temp_1_a" ["allow"%string]
              eq_refl Hs0 eq_refl)
    as (m2 & s2 & H1 & _ & _ & _ & H5 & H6).
  exists m2. split; [exact (f_equal fst H1)|]. split; [exact H5|exact H6].
Defined.

Lemma timers_settle p v m : timers (settle p v m) = timers m.
Proof. unfold settle. now destruct (promises m !! p) as [[]|]. Qed.

Lemma sessions_settle p v m : sessions (settle p v m) = sessions m.
Proof. unfold settle. now destruct (promises m !! p) as [[]|]. Qed.

(** A timer fires at most once. *)
Lemma fireTimeout_twice t m :
  fireTimeout t (fireTimeout t m) = fireTimeout t m.
Proof.
  unfold fireTimeout at 2 3.
  destruct (timers m !! t) as [[timer|]|] eqn:E.
  - unfold fireTimeout. rewrite timers_settle. mgr_simpl.
    rewrite list_lookup_insert_eq; [reflexivity|].
    now apply lookup_lt_Some in E.
  - unfold fireTimeout. now rewrite E.
  - unfold fireTimeout. now rewrite E.
Qed.

Lemma sessions_fireTimeout t m : sessions (fireTimeout t m) = sessions m.
Proof.
  unfold fireTimeout. destruct (timers m !! t) as [[timer|]|]; try reflexivity.
  now rewrite sessions_settle.
Qed.

Lemma sessions_handlePermissionRequest request r m :
  sessions (handlePermissionRequest request r m).1 = sessions m.
Proof.
  unfold handlePermissionRequest. now destruct (buildQuestion _ _ _).
Qed.

(** X8. An answer that comes after the timeout is rejected: once the
    timer of a permission request has fired, the agent has the timeout
    denial, [respondToQuestion] throws that the session has no pending
    question, whatever question id it names, and changes nothing; and the
    timer does not fire a second time. *)
Theorem answer_after_timeout_rejected (request : PermissionCallbackRequest)
    (r : nat) (m m1 : Manager) (s : Session) (p : nat)
    (sessionId questionId : string) (answers : list string) :
  JsMap.get (sessions m) sessionId = Some r ->
  heap m !! r = Some s ->
  handlePermissionRequest request r m = (m1, Ok p) ->
  let m2 := fireTimeout (List.length (timers m)) m1 in
  respondToQuestion sessionId questionId answers m2 =
    (m2, Throw (NoPendingQuestion sessionId)) /\
  promises m2 !! p = Some (Some timedOutResponse) /\
  fireTimeout (List.length (timers m)) m2 = m2.
Proof.
  intros Hget Hs Hreq m2.
  destruct (claude_timeout_after_request request r m s m1 p Hs Hreq)
    as (s2 & Hs2 & Hpending & _ & Hpromise).
  fold m2 in Hs2, Hpromise.
  split; [|split; [exact Hpromise|apply fireTimeout_twice]].
  unfold respondToQuestion, lookup. subst m2.
  rewrite sessions_fireTimeout.
  replace m1 with (handlePermissionRequest request r m).1 at 1
    by now rewrite Hreq.
  rewrite sessions_handlePermissionRequest, Hget, Hs2, Hpending.
  reflexivity.
Qed.

Lemma answer_after_timeout_rejected_witness :
  let m2 := fireTimeout 0 Fixture.awaiting in
  respondToQuestion "temp_1_a" "req_1" ["allow"%string] m2 =
    (m2, Throw (NoPendingQuestion "temp_1_a")) /\
  promises m2 !! 0%nat = Some (Some timedOutResponse).
Proof.
  destruct (heap Fixture.started !! 0%nat) as [s0|] eqn:Hs0;
    [|vm_compute in Hs0; discriminate Hs0].
  destruct (answer_after_timeout_rejected Fixture.editRequest 0%nat
              Fixture.started Fixture.awaiting s0 0%nat "temp_1_a" "req_1"
              ["allow"%string] eq_refl Hs0 eq_refl) as (H1 & H2 & _).
  split; [exact H1|exact H2].
Defined.

End AnswerOnceFacts.

Module ToolUseTheorems.
Import Claude ToolUseProps ToolUseFacts.

(** X9. Tool use tracking: the start of a tool-use block appends a
    running entry under the name of the tool; the stop of a block, of
    whatever kind, completes the most recent entry still running and
    nothing else, and changes nothing when no entry is running; so a
    start followed by a stop leaves one more entry, completed. *)
Theorem tool_use_tracking (s : Session) (name : string)
    (block : option ContentBlock) (l1 l2 : list ToolUseEvent)
    (x : ToolUseEvent) :
  (name <> ""%string ->
     toolUseEvents (handleStreamEvent_session (toolStart (Some name)) s) =
       toolUseEvents s ++ [{| tool_name := name; tool_status := running |}]) /\
  (toolUseEvents s = l1 ++ x :: l2 -> isRunning x -> Forall isCompleted l2 ->
     toolUseEvents (handleStreamEvent_session (blockStop block) s) =
       l1 ++ complete x :: l2) /\
  (Forall isCompleted (toolUseEvents s) ->
     toolUseEvents (handleStreamEvent_session (blockStop block) s) =
       toolUseEvents s) /\
  (name <> ""%string ->
     toolUseEvents
       (handleStreamEvent_session (blockStop block)
          (handleStreamEvent_session (toolStart (Some name)) s)) =
       toolUseEvents s ++ [{| tool_name := name; tool_status := completed |}]).
Proof.
  assert (Hstart : name <> ""%string ->
            toolUseEvents (handleStreamEvent_session (toolStart (Some name)) s)
            = toolUseEvents s ++ [{| tool_name := name; tool_status := running |}]).
  { intros Hname. cbn. now destruct (String.eqb_spec name "") as [->|_]. }
  assert (Hstop : forall s0,
            toolUseEvents (handleStreamEvent_session (blockStop block) s0) =
              completeLastRunning (toolUseEvents s0)).
  { intros s0. unfold handleStreamEvent_session, blockStop.
    cbn [inner_type inner_content_block String.eqb Ascii.eqb Bool.eqb andb].
    destruct block as [b|]; reflexivity. }
  split; [exact Hstart|].
  split; [intros Heq Hx Hl2; rewrite Hstop, Heq;
          now apply completeLastRunning_split|].
  split; [intros Hall; rewrite Hstop; now apply completeLastRunning_none|].
  intros Hname. rewrite Hstop, Hstart by exact Hname.
  now rewrite (completeLastRunning_split (toolUseEvents s) _ []).
Qed.

Lemma tool_use_tracking_witness :
  toolUseEvents
    (handleStreamEvent_session (blockStop None)
       (handleStreamEvent_session (toolStart (Some "Edit"%string))
          Fixture.activeSession)) =
    [{| tool_name := "Edit"; tool_status := completed |}].
Proof.
  apply (tool_use_tracking Fixture.activeSession "Edit" None [] []
           {| tool_name := "Edit"; tool_status := running |}).
  discriminate.
Defined.

End ToolUseTheorems.

(** ** Calls that are rejected *)
Module RejectedFacts.
Import Claude.

(** X10. A rejected call changes nothing, one case apart.  When
    [respondToQuestion] or [interruptSession] throws, and when
    [startSession] throws at the session limit, the state of the
    connector is what it was before the call.  [startSession] throws
    only at the session limit or because the spawn threw; in the second
    case the session it had stored before the spawn stays in the store
    under its temp id, active and without process, and nothing else is
    changed.  [respondToQuestion] throws only for an unknown session, a
    session without pending question or another question id,
    [interruptSession] only for an unknown session or one without
    process. *)
Theorem rejected_call_changes_nothing (env : EnvConfig) (rt : Runtime)
    (params : StartParams) (sessionId questionId : string)
    (answers : list string) (m : Manager) (e : Thrown) :
  ((startSession env rt params m).2 = Throw e ->
     (e = MaxSessionsReached (maxSessions env) /\
      getActiveSessionCount m >= maxSessions env /\
      (startSession env rt params m).1 = m) \/
     (e = SpawnError /\ spawnThrows rt = true /\
      getActiveSessionCount m < maxSessions env /\
      exists s,
        heap (startSession env rt params m).1 = <[nextRef m := s]> (heap m) /\
        sessions (startSession env rt params m).1 =
          JsMap.set (sessions m) (id s) (nextRef m) /\
        id s =
          ("temp_" +:+ JsString.ofNumber (now rt) +:+ "_"
             +:+ randomSuffix rt)%string /\
        status s = active /\ process s = None /\ pendingQuestion s = None /\
        promises (startSession env rt params m).1 = promises m /\
        timers (startSession env rt params m).1 = timers m /\
        pendingTimeouts (startSession env rt params m).1 = pendingTimeouts m /\
        effects (startSession env rt params m).1 = effects m)) /\
  ((respondToQuestion sessionId questionId answers m).2 = Throw e ->
     (respondToQuestion sessionId questionId answers m).1 = m /\
     ((e = UnknownSession sessionId /\ lookup m sessionId = None) \/
      (e = NoPendingQuestion sessionId /\
       exists r s, lookup m sessionId = Some (r, s) /\ pendingQuestion s = None) \/
      (exists r s q,
         lookup m sessionId = Some (r, s) /\ pendingQuestion s = Some q /\
         q_id (data q) <> questionId /\
         e = QuestionIdMismatch (q_id (data q)) questionId))) /\
  ((interruptSession sessionId m).2 = Throw e ->
     (interruptSession sessionId m).1 = m /\
     ((e = UnknownSession sessionId /\ lookup m sessionId = None) \/
      (e = NoActiveProcess sessionId /\
       exists r s, lookup m sessionId = Some (r, s) /\ process s = None))).
Proof.
  split; [|split].
  - unfold startSession.
    destruct (Z.geb_spec (getActiveSessionCount m) (maxSessions env)) as [Hge|Hlt].
    + cbn [fst snd]. intros [= <-]. left. repeat split. lia.
    + cbn [alloc]. destruct (spawnThrows rt); cbn [fst snd]; [|discriminate].
      intros [= <-]. right. split; [reflexivity|]. split; [reflexivity|].
      split; [exact Hlt|]. eexists. split; [reflexivity|].
      repeat split.
  - unfold respondToQuestion.
    destruct (lookup m sessionId) as [[r s]|] eqn:Hl.
    + destruct (pendingQuestion s) as [q|] eqn:Hq.
      * destruct (String.eqb_spec (q_id (data q)) questionId) as [Heq|Hne];
          cbn [negb fst snd].
        -- unfold replyOf. discriminate.
        -- intros [= <-]. split; [reflexivity|]. right; right.
           now exists r, s, q.
      * cbn [fst snd]. intros [= <-]. split; [reflexivity|]. right; left.
        split; [reflexivity|]. now exists r, s.
    + cbn [fst snd]. intros [= <-]. split; [reflexivity|]. now left.
  - unfold interruptSession.
    destruct (lookup m sessionId) as [[r s]|] eqn:Hl.
    + destruct (process s) as [proc|] eqn:Hp; cbn [fst snd]; [discriminate|].
      intros [= <-]. split; [reflexivity|]. right.
      split; [reflexivity|]. now exists r, s.
    + cbn [fst snd]. intros [= <-]. split; [reflexivity|]. now left.
Qed.

Lemma rejected_call_changes_nothing_witness :
  (startSession Fixture.envOne Fixture.rt2 Fixture.params Fixture.startedOne).1
    = Fixture.startedOne /\
  (respondToQuestion "temp_1_a" "req_1" [] Fixture.started).1 = Fixture.started /\
  (interruptSession "nobody" Fixture.started).1 = Fixture.started.
Proof.
  split; [|split].
  - destruct (proj1 (rejected_call_changes_nothing Fixture.envOne
                      Fixture.rt2 Fixture.params "" "" [] Fixture.startedOne
                      (MaxSessionsReached 1)) eq_refl)
      as [(_ & _ & H)|(H & _)]; [exact H|discriminate H].
  - exact (proj1 (proj1 (proj2 (rejected_call_changes_nothing Fixture.env
             Fixture.rt2 Fixture.params "temp_1_a" "req_1" [] Fixture.started
             (NoPendingQuestion "temp_1_a"))) eq_refl)).
  - exact (proj1 (proj2 (proj2 (rejected_call_changes_nothing Fixture.env
             Fixture.rt2 Fixture.params "nobody" "" [] Fixture.started
             (UnknownSession "nobody"))) eq_refl)).
Defined.

End RejectedFacts.

(** ** Shutdown *)
Module StopFacts.
Import Claude ToolUseProps ManagerFacts TimeoutFacts.

Lemma cleared_insert ts t t' : cleared ts t -> cleared (<[t' := None]> ts) t.
Proof.
  intros H timer. destruct (decide (t = t')) as [->|Hne].
  - destruct (decide (t' < List.length ts)%nat) as [Hlt|Hge].
    + rewrite list_lookup_insert_eq by exact Hlt. discriminate.
    + rewrite list_insert_ge by lia. apply H.
  - rewrite list_lookup_insert_ne by congruence. apply H.
Qed.

Lemma cleared_insert_same ts t : cleared (<[t := None]> ts) t.
Proof.
  intros timer. destruct (decide (t < List.length ts)%nat) as [Hlt|Hge].
  - rewrite list_lookup_insert_eq by exact Hlt. discriminate.
  - rewrite list_insert_ge by lia. rewrite lookup_ge_None_2 by lia.
    discriminate.
Qed.

Lemma timers_clearAll l m t :
  In t l \/ cleared (timers m) t ->
  cleared (timers (fold_left (fun m t => clearTimeout t m) l m)) t.
Proof.
  revert m. induction l as [|t' l IH]; intros m H.
  - cbn [fold_left]. destruct H as [[]|H]. exact H.
  - cbn [fold_left]. apply IH. unfold clearTimeout. mgr_simpl.
    destruct H as [[->|H]|H].
    + right. apply cleared_insert_same.
    + now left.
    + right. now apply cleared_insert.
Qed.

Lemma effects_clearAll l m :
  effects (fold_left (fun m t => clearTimeout t m) l m) = effects m /\
  sessions (fold_left (fun m t => clearTimeout t m) l m) = sessions m /\
  promises (fold_left (fun m t => clearTimeout t m) l m) = promises m.
Proof.
  revert m. induction l as [|t l IH]; intros m; [now cbn|].
  cbn [fold_left]. destruct (IH (clearTimeout t m)) as (-> & -> & ->).
  now cbn.
Qed.

Lemma killAll l m :
  let m' := fold_left
              (fun m (rs : nat * Session) =>
                 match process rs.2 with
                 | Some proc => emit (Killed proc "SIGTERM") m
                 | None => m
                 end) l m in
  effects m' = effects m ++ sigterms l /\
  sessions m' = sessions m /\ promises m' = promises m /\
  timers m' = timers m /\ pendingTimeouts m' = pendingTimeouts m.
Proof.
  revert m. induction l as [|x l IH]; intros m.
  - cbn. now rewrite app_nil_r.
  - cbn [fold_left]. cbn zeta in *.
    destruct (process x.2) as [proc|] eqn:Hp.
    + destruct (IH (emit (Killed proc "SIGTERM") m)) as (-> & -> & -> & -> & ->).
      unfold sigterms. cbn [omap list_omap]. rewrite Hp. cbn.
      now rewrite <- app_assoc.
    + destruct (IH m) as (-> & -> & -> & -> & ->).
      unfold sigterms at 2. cbn [omap list_omap]. rewrite Hp. now cbn.
Qed.

(** X11. Shutdown: [stop] signals SIGTERM to the process of every stored
    session that has one, in the order of the store, and to nothing
    else; it leaves the sessions, their objects and the promises as they
    are, empties the table of pending timeouts, and disarms every timer
    of that table, so none of them fires afterwards. *)
Theorem stop_spec (m : Manager) (t : nat) :
  effects (stop m) = effects m ++ sigterms (sessionObjects m) /\
  heap (stop m) = heap m /\
  sessions (stop m) = sessions m /\
  promises (stop m) = promises m /\
  pendingTimeouts (stop m) = JsMap.empty /\
  (In t (JsMap.values (pendingTimeouts m)) -> fireTimeout t (stop m) = stop m).
Proof.
  pose proof (killAll (sessionObjects m) m) as Hkill. cbn zeta in Hkill.
  destruct Hkill as (Heff & Hsess & Hprom & Htimers & Hpending).
  unfold stop at 1 3 4 5. unfold cleanup. mgr_simpl.
  match goal with
  | |- context [fold_left ?f ?l ?m0] =>
      destruct (effects_clearAll l m0) as (He & Hs & Hp)
  end.
  rewrite He, Hs, Hp, Heff, Hsess, Hprom.
  split; [reflexivity|]. split; [apply heap_stop|].
  split; [reflexivity|]. split; [reflexivity|]. split; [reflexivity|].
  intros Hin. unfold fireTimeout.
  assert (Hc : cleared (timers (stop m)) t).
  { unfold stop, cleanup. mgr_simpl. apply timers_clearAll. left.
    now rewrite Hpending. }
  destruct (timers (stop m) !! t) as [[timer|]|] eqn:E; [|reflexivity..].
  now destruct (Hc timer).
Qed.

Lemma stop_spec_witness :
  effects (stop Fixture.awaiting) =
    effects Fixture.awaiting ++ [Killed 11%nat "SIGTERM"] /\
  fireTimeout 0 (stop Fixture.awaiting) = stop Fixture.awaiting.
Proof.
  destruct (stop_spec Fixture.awaiting 0%nat) as (H1 & _ & _ & _ & _ & H6).
  split; [exact H1|]. apply H6. vm_compute. now left.
Defined.

End StopFacts.

(** ** Laws of the insertion-ordered map *)
Module JsMapLaws.

Section Laws.
Context {V : Type}.
Implicit Types (m : JsMap.t V) (k : string) (v : V).

Lemma get_In m k v : JsMap.get m k = Some v -> In (k, v) m.
Proof.
  induction m as [|[k' v'] m IH]; [discriminate|]. cbn [JsMap.get].
  destruct (String.eqb_spec k' k) as [->|Hne].
  - intros [= ->]. now left.
  - intros H. right. now apply IH.
Qed.

Lemma In_get m k v :
  NoDup (map fst m) -> In (k, v) m -> JsMap.get m k = Some v.
Proof.
  induction m as [|[k' v'] m IH]; [intros _ []|].
  cbn [map fst]. intros Hnd [Hin|Hin]; apply NoDup_cons in Hnd as [Hk Hnd].
  - injection Hin as -> ->. cbn [JsMap.get]. now rewrite String.eqb_refl.
  - cbn [JsMap.get]. destruct (String.eqb_spec k' k) as [->|Hne].
    + exfalso. apply Hk. apply list_elem_of_In.
      change k with (fst (k, v)). now apply in_map.
    + now apply IH.
Qed.

Lemma get_None m k : JsMap.get m k = None <-> ~ In k (map fst m).
Proof.
  induction m as [|[k' v'] m IH]; [cbn; tauto|].
  cbn [JsMap.get map fst In]. destruct (String.eqb_spec k' k) as [->|Hne].
  - split; [discriminate|]. intros H. exfalso. apply H. now left.
  - rewrite IH. tauto.
Qed.

Lemma keys_set m k v :
  map fst (JsMap.set m k v) = map fst m \/
  (~ In k (map fst m) /\ map fst (JsMap.set m k v) = map fst m ++ [k]).
Proof.
  induction m as [|[k' v'] m IH].
  - right. cbn. tauto.
  - cbn [JsMap.set]. destruct (String.eqb_spec k' k) as [->|Hne].
    + now left.
    + cbn [map fst]. destruct IH as [->|[Hk ->]]; [now left|right].
      split; [|reflexivity]. cbn [In]. tauto.
Qed.

Lemma NoDup_set m k v :
  NoDup (map fst m) -> NoDup (map fst (JsMap.set m k v)).
Proof.
  intros Hnd. destruct (keys_set m k v) as [->|[Hk ->]]; [exact Hnd|].
  apply NoDup_app. split; [exact Hnd|]. split.
  - intros x Hx Hin. apply list_elem_of_singleton in Hin. subst x.
    apply Hk. now apply list_elem_of_In.
  - apply NoDup_singleton.
Qed.

Lemma In_set m k v k' v' :
  In (k', v') (JsMap.set m k v) -> (k' = k /\ v' = v) \/ In (k', v') m.
Proof.
  induction m as [|[k0 v0] m IH]; cbn [JsMap.set].
  - intros [[= <- <-]|[]]. now left.
  - destruct (String.eqb_spec k0 k) as [->|Hne].
    + intros [[= <- <-]|H]; [now left|right; now right].
    + intros [H|H]; [right; now left|].
      destruct (IH H) as [?|?]; [now left|right; now right].
Qed.

Lemma In_delete m k k' v' :
  NoDup (map fst m) -> In (k', v') (JsMap.delete m k) ->
  k' <> k /\ In (k', v') m.
Proof.
  induction m as [|[k0 v0] m IH]; [intros _ []|].
  cbn [map fst JsMap.delete]. intros Hnd. apply NoDup_cons in Hnd as [Hk Hnd].
  destruct (String.eqb_spec k0 k) as [->|Hne].
  - intros H. split; [|now right]. intros ->. apply Hk.
    apply list_elem_of_In. change k with (fst (k, v')). now apply in_map.
  - intros [[= <- <-]|H]; [split; [exact Hne|now left]|].
    destruct (IH Hnd H) as [? ?]. split; [assumption|now right].
Qed.

Lemma keys_delete m k x :
  In x (map fst (JsMap.delete m k)) -> In x (map fst m).
Proof.
  induction m as [|[k0 v0] m IH]; [intros []|].
  cbn [JsMap.delete]. destruct (String.eqb k0 k); cbn [map fst In];
    [tauto|]. intros [H|H]; [now left|right; now apply IH].
Qed.

Lemma NoDup_delete m k :
  NoDup (map fst m) -> NoDup (map fst (JsMap.delete m k)).
Proof.
  induction m as [|[k0 v0] m IH]; [intros H; exact H|].
  cbn [map fst JsMap.delete]. intros Hnd. apply NoDup_cons in Hnd as [Hk Hnd].
  destruct (String.eqb k0 k); [exact Hnd|].
  cbn [map fst]. apply NoDup_cons. split; [|now apply IH].
  intros Hin. apply Hk. apply list_elem_of_In.
  apply list_elem_of_In in Hin. now apply keys_delete in Hin.
Qed.

Lemma get_set_ne m k k' v : k' <> k -> JsMap.get (JsMap.set m k v) k' = JsMap.get m k'.
Proof.
  intros Hne. induction m as [|[k0 v0] m IH]; cbn [JsMap.set JsMap.get].
  - destruct (String.eqb_spec k k'); [congruence|reflexivity].
  - destruct (String.eqb_spec k0 k) as [->|Hne0]; cbn [JsMap.get].
    + destruct (String.eqb_spec k k'); [congruence|reflexivity].
    + now rewrite IH.
Qed.

Lemma get_delete_ne m k k' : k' <> k -> JsMap.get (JsMap.delete m k) k' = JsMap.get m k'.
Proof.
  intros Hne. induction m as [|[k0 v0] m IH]; [reflexivity|].
  cbn [JsMap.delete JsMap.get]. destruct (String.eqb_spec k0 k) as [->|Hne0].
  - destruct (String.eqb_spec k k'); [congruence|reflexivity].
  - cbn [JsMap.get]. now rewrite IH.
Qed.

Lemma get_delete_eq m k :
  NoDup (map fst m) -> JsMap.get (JsMap.delete m k) k = None.
Proof.
  intros Hnd. apply get_None. intros Hin.
  apply in_map_iff in Hin as [[k' v'] [Hk Hin]]. cbn in Hk. subst k'.
  now destruct (In_delete m k k v' Hnd Hin).
Qed.

End Laws.

End JsMapLaws.

(** ** The store files every session under its id *)
Module StoreFacts.
Import Claude SessionProps ManagerFacts WellFormedFacts JsMapLaws StoreProps.

Lemma idsKept_refl h : idsKept h h.
Proof. intros r s H. now exists s. Qed.

Lemma idsKept_alter f r h :
  (forall s, id (f s) = id s) -> idsKept h (alter f r h).
Proof.
  intros Hf j s H. destruct (decide (j = r)) as [->|Hne].
  - exists (f s). rewrite lookup_alter_eq, H. now split.
  - exists s. rewrite lookup_alter_ne by congruence. now split.
Qed.

Lemma keyed_frame m m' :
  sessions m' = sessions m -> idsKept (heap m) (heap m') ->
  keyed m -> keyed m'.
Proof.
  intros Hs Hh [Hnd Hin]. split; rewrite Hs; [exact Hnd|].
  intros k r Hkr. destruct (Hin k r Hkr) as (s & Hr & Hid).
  destruct (Hh r s Hr) as (s' & Hr' & Hid'). exists s'. split; congruence.
Qed.

Lemma consistent_frame m m' :
  heap m' = heap m -> sessions m' = sessions m -> nextRef m' = nextRef m ->
  consistent m -> consistent m'.
Proof.
  intros Hh Hs Hn [Hwf Hk]. split; [now apply (wf_same m)|].
  apply (keyed_frame m); [exact Hs| |exact Hk]. rewrite Hh. apply idsKept_refl.
Qed.

Lemma consistent_update r f m :
  (forall s, id (f s) = id s) -> consistent m -> consistent (update r f m).
Proof.
  intros Hf [Hwf Hk]. split; [now apply wf_update|].
  apply (keyed_frame m); [reflexivity| |exact Hk].
  now apply idsKept_alter.
Qed.

Lemma consistent_emit e m : consistent m -> consistent (emit e m).
Proof. now apply consistent_frame. Qed.

Lemma consistent_settle p v m : consistent m -> consistent (settle p v m).
Proof.
  unfold settle. destruct (promises m !! p) as [[]|]; tauto.
Qed.

Lemma consistent_with_promises v m :
  consistent m -> consistent (with_promises v m).
Proof. now apply consistent_frame. Qed.

Lemma consistent_with_timers v m : consistent m -> consistent (with_timers v m).
Proof. now apply consistent_frame. Qed.

Lemma consistent_with_pendingTimeouts v m :
  consistent m -> consistent (with_pendingTimeouts v m).
Proof. now apply consistent_frame. Qed.

Lemma consistent_alloc k s m :
  id s = k -> consistent m ->
  consistent (with_sessions (JsMap.set (sessions (alloc s m).2) k (nextRef m))
                (alloc s m).2).
Proof.
  intros Hid [Hwf [Hnd Hin]]. split; [now apply wf_alloc|].
  cbn [alloc snd with_sessions sessions heap]. split.
  - now apply NoDup_set.
  - intros k' r' Hkr. cbn [with_sessions heap sessions] in *.
    apply In_set in Hkr. destruct Hkr as [[-> ->]|Hkr].
    + exists s. now rewrite lookup_insert_eq.
    + destruct (Hin k' r' Hkr) as (s' & Hr' & Hid').
      exists s'. split; [|exact Hid'].
      rewrite lookup_insert_ne; [exact Hr'|].
      destruct Hwf as [_ Hheap]. specialize (Hheap r' s' Hr'). lia.
Qed.

Lemma consistent_resumeSession env r message c t m :
  consistent m -> consistent (resumeSession env r message c t m).1.
Proof.
  intros H. unfold resumeSession. destruct (_ >=? _); [exact H|].
  destruct (heap m !! r); [|exact H]. destruct t; [exact H|]. cbn [fst].
  apply consistent_update; [reflexivity|].
  apply consistent_update; [reflexivity|]. now apply consistent_emit.
Qed.

Lemma consistent_cleanup m : consistent m -> consistent (cleanup m).
Proof.
  intros H. apply (consistent_frame m); try assumption.
  - apply heap_cleanup.
  - unfold cleanup. cbn [with_pendingTimeouts sessions].
    generalize (JsMap.values (pendingTimeouts m)). intros l. clear H.
    revert m. induction l as [|t l IH]; intros m; [reflexivity|].
    cbn [fold_left]. now rewrite IH.
  - unfold cleanup. cbn [with_pendingTimeouts nextRef].
    generalize (JsMap.values (pendingTimeouts m)). intros l. clear H.
    revert m. induction l as [|t l IH]; intros m; [reflexivity|].
    cbn [fold_left]. now rewrite IH.
Qed.

Lemma consistent_stop m : consistent m -> consistent (stop m).
Proof.
  intros H. unfold stop. apply consistent_cleanup.
  generalize (sessionObjects m). intros l.
  revert m H; induction l as [|x l IH]; intros m H; [exact H|].
  cbn [fold_left]. apply IH. destruct (process x.2); [|exact H].
  now apply consistent_emit.
Qed.

Lemma id_handleExit code signal s : id (handleExit_session code signal s) = id s.
Proof.
  unfold handleExit_session. cbn [status with_process].
  destruct (status s); repeat case_bool_decide; reflexivity.
Qed.

Lemma id_handleStreamEvent event s : id (handleStreamEvent_session event s) = id s.
Proof.
  unfold handleStreamEvent_session.
  destruct event as [| [inner|] | |]; try reflexivity.
  destruct (inner_content_block inner) as [block|];
    [destruct (_ && _)|]; destruct (String.eqb _ _); reflexivity.
Qed.

Lemma id_handleResult st res cost turns s :
  id (handleResult_session st res cost turns s) = id s.
Proof.
  unfold handleResult_session. destruct st, cost, turns; reflexivity.
Qed.

Ltac solve_consistent :=
  repeat first
    [ assumption
    | apply consistent_update;
      [first [ intros ?; reflexivity | apply id_handleExit
             | apply id_handleStreamEvent | apply id_handleResult ]|]
    | apply consistent_emit
    | apply consistent_settle
    | apply consistent_with_promises
    | apply consistent_with_timers
    | apply consistent_with_pendingTimeouts
    | apply consistent_resumeSession
    | apply consistent_alloc; [reflexivity|] ].

Ltac consistent_resume :=
  match goal with
  | |- context [resumeSession ?e ?r ?msg ?c ?t ?m0] =>
      let H := fresh "H" in
      assert (H : consistent (resumeSession e r msg c t m0).1)
        by solve_consistent;
      destruct (resumeSession e r msg c t m0) as [? []]; exact H
  end.

(** The init event files the session under its new id. *)
Lemma consistent_rekey r s newId m :
  heap m !! r = Some s -> newId <> id s ->
  consistent m ->
  consistent
    (with_sessions
       (JsMap.set (JsMap.delete (sessions m) (id s)) newId r)
       (update r (with_id newId) m)).
Proof.
  intros Hr Hne [Hwf [Hnd Hin]]. split.
  - apply (wf_set newId r (with_id newId s)
             (with_sessions (JsMap.delete (sessions m) (id s))
                (update r (with_id newId) m))).
    + cbn [update with_sessions heap with_heap].
      now rewrite lookup_alter_eq, Hr.
    + apply (wf_delete (id s) (update r (with_id newId) m)).
      now apply wf_update.
  - cbn [with_sessions update with_heap sessions heap]. split.
    + now apply NoDup_set, NoDup_delete.
    + intros k r' Hkr. cbn [with_sessions update with_heap sessions heap] in *.
      apply In_set in Hkr. destruct Hkr as [[-> ->]|Hkr].
      * exists (with_id newId s). now rewrite lookup_alter_eq, Hr.
      * apply In_delete in Hkr; [|exact Hnd]. destruct Hkr as [Hk Hkr].
        destruct (Hin k r' Hkr) as (s' & Hr' & Hid').
        assert (r' <> r) by (intros ->; congruence).
        exists s'. now rewrite lookup_alter_ne by congruence.
Qed.

Lemma consistent_step env m l : consistent m -> consistent (step env m l).
Proof.
  intros Hc. destruct l; cbn [step].
  - unfold startSession. destruct (_ >=? _); [exact Hc|].
    cbn [alloc]. destruct (spawnThrows rt); cbn [fst].
    + exact (consistent_alloc _ _ m eq_refl Hc).
    + apply consistent_update; [reflexivity|].
      apply consistent_emit.
      exact (consistent_alloc _ _ m eq_refl Hc).
  - unfold sayToSession.
    destruct (JsMap.get (sessions m) sessionId) as [r|] eqn:Hget.
    + destruct (heap m !! r) as [session|] eqn:Hr; [|exact Hc].
      destruct (process session) as [proc|];
        [destruct (status_eqb (status session) active)|];
        destruct (isSome mode && _); try destruct (stdinAvailable rt);
        cbn [fst]; solve_consistent; consistent_resume.
    + assert (Hc' : consistent
                      (createTrackedSession sessionId (now rt) (cwd rt) m).2).
      { unfold createTrackedSession. cbn [alloc snd].
        exact (consistent_alloc _ _ m eq_refl Hc). }
      destruct (createTrackedSession sessionId (now rt) (cwd rt) m)
        as [r m1]. cbn [snd] in Hc'.
      destruct (heap m1 !! r) as [session|]; [|exact Hc'].
      destruct (process session) as [proc|];
        [destruct (status_eqb (status session) active)|];
        destruct (isSome mode && _); try destruct (stdinAvailable rt);
        cbn [fst]; solve_consistent; consistent_resume.
  - unfold sayAfterExit.
    destruct (heap m !! r) as [session|] eqn:Hr; [|exact Hc].
    destruct (process session) as [proc|]; consistent_resume.
  - unfold respondToQuestion.
    destruct (lookup m sessionId) as [[r session]|]; [|exact Hc].
    destruct (pendingQuestion session) as [q|]; [|exact Hc].
    destruct (negb _); [exact Hc|].
    cbn [fst]. apply consistent_update; [reflexivity|].
    unfold resolveQuestion.
    apply consistent_settle, consistent_update; [reflexivity|].
    destruct (JsMap.get _ _); unfold clearTimeout; solve_consistent.
  - unfold interruptSession.
    destruct (lookup m sessionId) as [[r session]|]; [|exact Hc].
    destruct (process session) as [proc|]; cbn [fst]; solve_consistent.
  - unfold handleEvent.
    destruct (heap m !! r) as [session|] eqn:Hr; [|exact Hc].
    assert (Hb : consistent (update r (bufferEvent env event) m))
      by (apply consistent_update; [reflexivity|exact Hc]).
    destruct event as [newId ts|inner|st res cost turns|raw];
      solve_consistent.
    destruct (String.eqb_spec (id session) newId) as [Heq|Hne];
      cbn [negb]; [exact Hb|].
    set (m1 := update r (bufferEvent env (InitEvent newId ts)) m) in *.
    assert (Hr1 : heap m1 !! r =
                    Some (bufferEvent env (InitEvent newId ts) session)).
    { subst m1. cbn [update heap with_heap]. now rewrite lookup_alter_eq, Hr. }
    pose proof (consistent_rekey r _ newId m1 Hr1) as Hrekey.
    cbn [id bufferEvent with_eventBuffer] in Hrekey.
    apply Hrekey; [congruence|exact Hb].
  - unfold handleExit. solve_consistent.
  - unfold onPermissionRequest.
    destruct (findSessionForPermission m _) as [[r session]|].
    + unfold handlePermissionRequest.
      destruct (buildQuestion _ _ _) as [q|e]; [|exact Hc].
      cbn [fst newPromise setTimeout]. solve_consistent.
    + cbn [newPromise fst]. solve_consistent.
  - unfold fireTimeout.
    destruct (timers m !! t) as [[timer|]|]; solve_consistent.
  - now apply consistent_stop.
Qed.

Lemma consistent_initial : consistent initial.
Proof.
  split; [apply wf_initial|]. split; [constructor|intros k r []].
Qed.

Lemma consistent_run env m trace : consistent m -> consistent (run env m trace).
Proof.
  unfold run. revert m.
  induction trace as [|l trace IH]; intros m H; [exact H|].
  cbn [fold_left]. apply IH. now apply consistent_step.
Qed.

Lemma keyed_lookup m sessionId r s :
  keyed m -> lookup m sessionId = Some (r, s) -> id s = sessionId.
Proof.
  intros [_ Hin]. unfold lookup.
  destruct (JsMap.get (sessions m) sessionId) as [r'|] eqn:Hget; [|discriminate].
  apply get_In in Hget. destruct (Hin _ _ Hget) as (s' & -> & Hid).
  now intros [= <- <-].
Qed.

(** X12. The store stays consistent: every entry point keeps that each
    stored session is filed under its own id, that no id is filed twice
    and that every stored reference is a live object; so it holds after
    every run from the initial state, and a status call on such a state
    answers with the session id it was asked for. *)
Theorem store_files_sessions_under_their_ids (env : EnvConfig) (m : Manager)
    (l : Label) (trace : list Label) (sessionId : string) (outputLines : Z)
    (view : StatusView) :
  (consistent m -> consistent (step env m l)) /\
  consistent (run env initial trace) /\
  (keyed m -> getSessionStatus m sessionId outputLines = Ok view ->
     view_sessionId view = sessionId).
Proof.
  split; [apply consistent_step|].
  split; [apply consistent_run, consistent_initial|].
  intros Hk. unfold getSessionStatus.
  destruct (lookup m sessionId) as [[r s]|] eqn:Hl; [|discriminate].
  intros [= <-]. cbn [statusView view_sessionId].
  now apply (keyed_lookup m sessionId r s).
Qed.

End StoreFacts.

Module StoreWitness.
Import Claude SessionProps StoreProps StoreFacts Fixture.

Lemma store_files_sessions_under_their_ids_witness :
  consistent (step env started (OnEvent 0%nat (InitEvent "sess-1" "t0"))) /\
  (forall view,
     getSessionStatus started "temp_1_a" 50 = Ok view ->
     view_sessionId view = "temp_1_a"%string).
Proof.
  pose proof (store_files_sessions_under_their_ids env started
                (OnEvent 0%nat (InitEvent "sess-1" "t0"))
                [Start rt1 params] "temp_1_a" 50) as H.
  split.
  - destruct (H (statusView activeSession 50)) as (Hstep & Hrun & _).
    apply Hstep. exact Hrun.
  - intros view. destruct (H view) as (_ & Hrun & Hview).
    apply Hview. exact (proj2 Hrun).
Defined.

End StoreWitness.

(** ** The init event *)
Module RekeyFacts.
Import Claude SessionProps ManagerFacts JsMapFacts JsMapLaws StoreProps
  StoreFacts TimeoutFacts.

Lemma lookup_inv m k r s :
  lookup m k = Some (r, s) ->
  JsMap.get (sessions m) k = Some r /\ heap m !! r = Some s.
Proof.
  unfold lookup. destruct (JsMap.get (sessions m) k) as [r'|]; [|discriminate].
  destruct (heap m !! r') as [s'|] eqn:E; [|discriminate].
  now intros [= <- <-].
Qed.

(** X13. The init event re-keys the session: when the agent announces an
    id other than the one the session is stored under, the session is
    found under the new id afterwards, with the new id in its record and
    its status, process, pending question and creation time as before;
    the old id is unknown afterwards; and every other id resolves as it
    did. *)
Theorem init_event_rekeys (env : EnvConfig) (m : Manager) (r : nat)
    (s : Session) (newId timestamp : string) :
  keyed m -> lookup m (id s) = Some (r, s) -> newId <> id s ->
  let m' := handleEvent env r (InitEvent newId timestamp) m in
  (exists s',
     lookup m' newId = Some (r, s') /\ id s' = newId /\
     status s' = status s /\ process s' = process s /\
     pendingQuestion s' = pendingQuestion s /\ createdAt s' = createdAt s) /\
  lookup m' (id s) = None /\
  (forall k, k <> id s -> k <> newId -> lookup m' k = lookup m k).
Proof.
  intros [Hnd Hin] Hl Hne m'. apply lookup_inv in Hl as [Hget Hr].
  subst m'. unfold handleEvent. rewrite Hr.
  destruct (String.eqb_spec (id s) newId) as [Heq|_]; [congruence|].
  cbn [negb]. unfold lookup. mgr_simpl.
  split; [|split].
  - rewrite get_set_eq, !lookup_alter_eq, Hr.
    eexists. split; [reflexivity|]. now cbn.
  - rewrite get_set_ne by congruence.
    now rewrite get_delete_eq.
  - intros k Hk Hk'.
    rewrite get_set_ne, get_delete_ne by congruence.
    destruct (JsMap.get (sessions m) k) as [r'|] eqn:Hget'; [|reflexivity].
    apply get_In in Hget'. destruct (Hin k r' Hget') as (s' & Hr' & Hid').
    assert (r' <> r) by (intros ->; congruence).
    now rewrite !lookup_alter_ne by congruence.
Qed.

Lemma init_event_rekeys_witness :
  let m' := handleEvent Fixture.env 0%nat (InitEvent "sess-1" "t0")
              Fixture.started in
  (exists s', lookup m' "sess-1" = Some (0%nat, s') /\ status s' = active) /\
  lookup m' "temp_1_a" = None.
Proof.
  destruct (heap Fixture.started !! 0%nat) as [s0|] eqn:Hs0;
    [|vm_compute in Hs0; discriminate Hs0].
  assert (Hid : id s0 = "temp_1_a"%string)
    by (vm_compute in Hs0; now injection Hs0 as <-).
  assert (Hl : lookup Fixture.started (id s0) = Some (0%nat, s0)).
  { rewrite Hid. unfold lookup.
    change (JsMap.get (sessions Fixture.started) "temp_1_a") with (Some 0%nat).
    cbv beta iota. now rewrite Hs0. }
  destruct (init_event_rekeys Fixture.env Fixture.started 0%nat s0
              "sess-1" "t0"
              (proj2 (StoreFacts.consistent_run Fixture.env initial
                        [Start Fixture.rt1 Fixture.params]
                        StoreFacts.consistent_initial))
              Hl)
    as ((s' & H1 & _ & H2 & _) & H3 & _).
  - rewrite Hid. discriminate.
  - split.
    + exists s'. split; [exact H1|]. rewrite H2.
      vm_compute in Hs0. now injection Hs0 as <-.
    + now rewrite <- Hid.
Defined.

End RekeyFacts.

(** ** The history of a session is bounded *)
Module HistoryFacts.
Import Claude SessionProps ManagerFacts StoreProps ExtractFacts.

Section Created.
Context (env : EnvConfig).

Lemma created_refl l (h : gmap nat Session) :
  evolves (changes env l) (created l) h h.
Proof.
  intros r s' H. exists (fun s => s); split; [constructor|]. left; eauto.
Qed.

Lemma created_alter l f r (h : gmap nat Session) :
  changes env l f ->
  evolves (changes env l) (created l) h (alter f r h).
Proof.
  intros Hf j s' H. rewrite lookup_alter in H. case_decide.
  - subst j. destruct (h !! r) eqn:E; [|discriminate]. simplify_eq/=.
    exists f; split; [exact Hf|]. left; eauto.
  - exists (fun s => s); split; [constructor|]. left; eauto.
Qed.

Lemma created_alter_insert l f r n s0 (h : gmap nat Session) :
  changes env l f -> created l s0 ->
  evolves (changes env l) (created l) h (alter f r (<[n := s0]> h)).
Proof.
  intros Hf Hs j s' H. rewrite lookup_alter in H. case_decide.
  - subst j. rewrite lookup_insert in H. case_decide.
    + simplify_eq/=. exists f; split; [exact Hf|]. right; eauto.
    + destruct (h !! r) eqn:E; [|discriminate]. simplify_eq/=.
      exists f; split; [exact Hf|]. left; eauto.
  - rewrite lookup_insert in H. case_decide.
    + simplify_eq/=. exists (fun s => s); split; [constructor|]. right; eauto.
    + exists (fun s => s); split; [constructor|]. left; eauto.
Qed.

Lemma created_insert l n s0 (h : gmap nat Session) :
  created l s0 -> evolves (changes env l) (created l) h (<[n := s0]> h).
Proof.
  intros Hs j s' H. rewrite lookup_insert in H.
  exists (fun s => s); split; [constructor|].
  case_decide; simplify_eq/=; [right|left]; eauto.
Qed.

Ltac is_created :=
  unfold created; cbn [fresh]; repeat split;
  first [left; reflexivity | right; reflexivity].

Ltac solve_created :=
  cbn [fst snd alloc heap update with_heap with_sessions with_promises
       with_timers with_pendingTimeouts emit createTrackedSession];
  rewrite ?heap_settle, ?alter_alter;
  first
    [ apply created_refl
    | apply created_insert; is_created
    | apply created_alter; constructor
    | apply created_alter_insert; [constructor|is_created]
    | rewrite alter_insert_same; apply created_insert; is_created ].

Ltac resume_split env r message c t m :=
  let m' := fresh "m'" in
  let res := fresh "res" in
  let E := fresh "E" in
  let H := fresh "H" in
  pose proof (heap_resumeSession env r message c t m) as H;
  destruct (resumeSession env r message c t m) as [m' res] eqn:E;
  cbn [fst] in H;
  destruct res; cbn [fst]; destruct H as [-> | ->].

(** As [step_evolves], with the history of the created objects. *)
Lemma step_created m l :
  evolves (changes env l) (created l) (heap m) (heap (step env m l)).
Proof.
  destruct l; cbn [step].
  - unfold startSession. destruct (_ >=? _); [solve_created|].
    destruct (spawnThrows rt); solve_created.
  - unfold sayToSession.
    destruct (JsMap.get (sessions m) sessionId) as [r|] eqn:Hget.
    + destruct (heap m !! r) as [session|] eqn:Hr; [|solve_created].
      destruct (process session) as [proc|];
        [destruct (status_eqb (status session) active)|];
        destruct (isSome mode && _); try destruct (stdinAvailable rt);
        try solve_created.
      all: match goal with
           | |- context [resumeSession ?e ?r ?msg ?c ?t ?m0] =>
               resume_split e r msg c t m0
           end.
      all: solve_created.
    + cbn [createTrackedSession alloc with_sessions heap].
      rewrite lookup_insert_eq. cbn [process isSome].
      destruct (isSome mode && _).
      all: match goal with
           | |- context [resumeSession ?e ?r ?msg ?c ?t ?m0] =>
               resume_split e r msg c t m0
           end.
      all: solve_created.
  - unfold sayAfterExit.
    destruct (heap m !! r) as [session|] eqn:Hr; [|solve_created].
    destruct (process session) as [proc|].
    all: match goal with
         | |- context [resumeSession ?e ?r ?msg ?c ?t ?m0] =>
             resume_split e r msg c t m0
         end.
    all: solve_created.
  - unfold respondToQuestion.
    destruct (lookup m sessionId) as [[r session]|]; [|solve_created].
    destruct (pendingQuestion session) as [q|]; [|solve_created].
    destruct (negb _); [solve_created|].
    cbn [fst heap update with_heap]. rewrite heap_resolveQuestion.
    solve_created.
  - unfold interruptSession.
    destruct (lookup m sessionId) as [[r session]|]; [|solve_created].
    destruct (process session) as [proc|]; solve_created.
  - unfold handleEvent.
    destruct (heap m !! r) as [session|] eqn:Hr; [|solve_created].
    destruct event as [newId ts|inner|st res cost turns|raw].
    + destruct (negb _); cbn [heap update with_heap with_sessions];
        rewrite ?alter_alter; apply created_alter.
      * apply change_event_init.
      * apply (change_event env r (InitEvent newId ts)).
    + cbn [heap update with_heap]. rewrite alter_alter.
      apply created_alter. apply (change_event env r (StreamEvent inner)).
    + cbn [heap update with_heap]. rewrite alter_alter.
      apply created_alter.
      apply (change_event env r (ResultEvent st res cost turns)).
    + apply created_alter. apply (change_event env r (UnknownEvent raw)).
  - unfold handleExit. solve_created.
  - unfold onPermissionRequest.
    destruct (findSessionForPermission m _) as [[r session]|].
    + unfold handlePermissionRequest.
      destruct (buildQuestion _ _ _) as [q|e]; [|solve_created].
      cbn [fst newPromise setTimeout heap update with_heap with_promises
           with_timers with_pendingTimeouts].
      rewrite alter_alter. apply created_alter.
      apply (change_permission env request).
    + cbn [newPromise fst]. rewrite heap_settle. solve_created.
  - unfold fireTimeout.
    destruct (timers m !! t) as [[timer|]|]; solve_created.
  - rewrite heap_stop. solve_created.
Qed.

Lemma eventBuffer_handleStreamEvent event s :
  eventBuffer (handleStreamEvent_session event s) = eventBuffer s.
Proof.
  unfold handleStreamEvent_session.
  destruct event as [| [inner|] | |]; try reflexivity.
  destruct (inner_content_block inner) as [block|];
    [destruct (_ && _)|]; destruct (String.eqb _ _); reflexivity.
Qed.

Lemma eventBuffer_handleResult st res cost turns s :
  eventBuffer (handleResult_session st res cost turns s) = eventBuffer s.
Proof.
  unfold handleResult_session. destruct st, cost, turns; reflexivity.
Qed.

Lemma eventBuffer_handleExit code signal s :
  eventBuffer (handleExit_session code signal s) = eventBuffer s.
Proof.
  unfold handleExit_session. cbn [status with_process].
  destruct (status s); repeat case_bool_decide; reflexivity.
Qed.

Lemma bounded_bufferEvent event s :
  0 <= eventBufferSize env ->
  historyBounded env s -> historyBounded env (bufferEvent env event s).
Proof.
  unfold historyBounded, bufferEvent. cbn [eventBuffer with_eventBuffer].
  intros Hsize Hs.
  destruct (Z.gtb_spec (Z.of_nat (List.length (eventBuffer s ++ [event])))
              (eventBufferSize env)) as [Hgt|Hle]; [|exact Hle].
  unfold JsArray.shift. destruct (eventBuffer s) as [|e es].
  - exact Hsize.
  - cbn [app tail]. rewrite length_app. cbn [List.length] in *. lia.
Qed.

Lemma bounded_changes l f s :
  0 <= eventBufferSize env ->
  changes env l f -> historyBounded env s -> historyBounded env (f s).
Proof.
  intros Hsize Hf Hs. destruct Hf; try exact Hs.
  - now apply (bounded_bufferEvent (InitEvent newId timestamp)).
  - destruct event as [newId ts|inner|st res cost turns|raw].
    + now apply bounded_bufferEvent.
    + unfold historyBounded. rewrite eventBuffer_handleStreamEvent.
      now apply bounded_bufferEvent.
    + unfold historyBounded. rewrite eventBuffer_handleResult.
      now apply bounded_bufferEvent.
    + now apply bounded_bufferEvent.
  - unfold historyBounded. now rewrite eventBuffer_handleExit.
Qed.

Lemma bounded_created l s :
  0 <= eventBufferSize env -> created l s -> historyBounded env s.
Proof.
  intros Hsize (_ & Hb & _). unfold historyBounded. now rewrite Hb.
Qed.

Lemma bounded_step m l :
  0 <= eventBufferSize env ->
  holds (historyBounded env) m -> holds (historyBounded env) (step env m l).
Proof.
  intros Hsize Hm r s' Hlookup.
  destruct (step_created m l r s' Hlookup)
    as (f & Hf & [(s & Hs & ->)|(s & Hs & ->)]).
  - apply (bounded_changes l); [exact Hsize|exact Hf|]. exact (Hm r s Hs).
  - apply (bounded_changes l); [exact Hsize|exact Hf|].
    now apply (bounded_created l).
Qed.

Lemma bounded_run m trace :
  0 <= eventBufferSize env ->
  holds (historyBounded env) m ->
  holds (historyBounded env) (run env m trace).
Proof.
  intros Hsize. unfold run. revert m.
  induction trace as [|l trace IH]; intros m H; [exact H|].
  cbn [fold_left]. apply IH. now apply bounded_step.
Qed.

End Created.

Lemma length_omap_le {A B : Type} (f : A -> option B) (l : list A) :
  (List.length (omap f l) <= List.length l)%nat.
Proof.
  induction l as [|x l IH]; [reflexivity|].
  cbn [omap list_omap]. destruct (f x); cbn [List.length]; lia.
Qed.

(** X14. The history of a session is bounded: with a configured size that
    is not negative, every entry point keeps the event history of every
    session within that size, so it holds in every state reached from
    the initial one; and the recent output of a status call on such a
    state has at most [outputLines] lines, for [outputLines] of at least
    one, and never more lines than the configured size. *)
Theorem history_is_bounded (env : EnvConfig) (m : Manager) (l : Label)
    (trace : list Label) (sessionId : string) (outputLines : Z)
    (view : StatusView) :
  0 <= eventBufferSize env ->
  (holds (historyBounded env) m -> holds (historyBounded env) (step env m l)) /\
  holds (historyBounded env) (run env initial trace) /\
  (holds (historyBounded env) m ->
   getSessionStatus m sessionId outputLines = Ok view ->
     Z.of_nat (List.length (view_recentOutput view)) <= eventBufferSize env /\
     (1 <= outputLines ->
        Z.of_nat (List.length (view_recentOutput view)) <= outputLines)).
Proof.
  intros Hsize.
  split; [now apply bounded_step|].
  split; [apply bounded_run; [exact Hsize|apply InvariantFacts.holds_initial]|].
  intros Hm. unfold getSessionStatus, lookup.
  destruct (JsMap.get (sessions m) sessionId) as [r|]; [|discriminate].
  destruct (heap m !! r) as [s|] eqn:Hr; [|discriminate].
  intros [= <-]. cbn [statusView view_recentOutput].
  unfold extractTextFromEvents. split.
  - specialize (Hm r s Hr). unfold historyBounded in Hm.
    pose proof (length_omap_le eventText (eventBuffer s)).
    unfold JsArray.slice. rewrite length_drop. lia.
  - intros Hn. now apply slice_last_length.
Qed.

Lemma history_is_bounded_witness :
  holds (historyBounded Fixture.env)
    (step Fixture.env Fixture.started
       (OnEvent 0%nat (UnknownEvent Json.JNull))) /\
  holds (historyBounded Fixture.env) Fixture.started.
Proof.
  assert (Hsize : 0 <= eventBufferSize Fixture.env) by (vm_compute; discriminate).
  destruct (history_is_bounded Fixture.env Fixture.started
              (OnEvent 0%nat (UnknownEvent Json.JNull))
              [Start Fixture.rt1 Fixture.params] "" 1
              (statusView Fixture.activeSession 1) Hsize)
    as (Hstep & Hrun & _).
  split; [apply Hstep; exact Hrun|exact Hrun].
Defined.

End HistoryFacts.

(** ** The codex connector: awaiting approval *)
Module CodexInvariantFacts.
Import Codex CodexProps CodexTimeoutFacts ExitTwiceFacts.

Lemma codex_holds_frame (P : Session -> Prop) m m' :
  heap m' = heap m -> holds P m -> holds P m'.
Proof. unfold holds. now intros ->. Qed.

Lemma codex_holds_update (P : Session -> Prop) r f m :
  (forall s, P s -> P (f s)) -> holds P m -> holds P (update r f m).
Proof.
  intros Hf Hm j s. cbn [update heap with_heap].
  rewrite lookup_alter. case_decide; [subst j|apply Hm].
  destruct (heap m !! r) as [s0|] eqn:E; [|discriminate].
  intros [= <-]. apply Hf. exact (Hm r s0 E).
Qed.

Lemma codex_update_update r f g m :
  update r g (update r f m) = update r (fun s => g (f s)) m.
Proof.
  unfold update, with_heap. cbn [heap nextRef sessions promises timers
                                  pendingTimeouts effects].
  f_equal. apply alter_twice.
Qed.

Lemma codex_holds_insert (P : Session -> Prop) m m' n s :
  heap m' = <[n := s]> (heap m) -> P s -> holds P m -> holds P m'.
Proof.
  intros Hh Hs Hm j s'. rewrite Hh, lookup_insert.
  case_decide; [now intros [= <-]|apply Hm].
Qed.

Lemma heap_codex_settle p v m : heap (settle p v m) = heap m.
Proof. unfold settle. now destruct (promises m !! p) as [[]|]. Qed.

Lemma heap_codex_clearTimeout q m : heap (clearTimeout q m) = heap m.
Proof. unfold clearTimeout. now destruct (JsMap.get _ _). Qed.

Lemma heap_codex_cleanup m : heap (cleanup m) = heap m.
Proof.
  unfold cleanup. cbn [with_pendingTimeouts heap].
  generalize (JsMap.values (pendingTimeouts m)). intros l.
  revert m; induction l as [|t l IH]; intros m; [reflexivity|].
  cbn [fold_left]. now rewrite IH.
Qed.

Lemma heap_codex_stop m : heap (stop m) = heap m.
Proof.
  unfold stop. rewrite heap_codex_cleanup.
  generalize (sessionObjects m). intros l.
  revert m; induction l as [|x l IH]; intros m; [reflexivity|].
  cbn [fold_left]. rewrite IH. now destruct (process x.2).
Qed.

Lemma heap_sendApprovalResponse avail c resp m :
  heap (sendApprovalResponse avail c resp m).1 = heap m.
Proof. unfold sendApprovalResponse. now destruct avail. Qed.

Lemma codex_holds_resumeSession (P : Session -> Prop) env r message imgs c t m :
  (forall s, P s -> P (with_status active (with_process (Some c) s))) ->
  holds P m -> holds P (resumeSession env r message imgs c t m).1.
Proof.
  intros Hf Hm. unfold resumeSession. destruct (_ >=? _); [exact Hm|].
  destruct (heap m !! r); [|exact Hm]. destruct t; [exact Hm|]. cbn [fst].
  rewrite codex_update_update. apply codex_holds_update; [exact Hf|].
  now apply (codex_holds_frame P m).
Qed.

Lemma codex_awaiting_handleEvent event s :
  awaitingHasQuestion s -> awaitingHasQuestion (handleEvent_session event s).
Proof.
  unfold awaitingHasQuestion, handleEvent_session.
  destruct event as [tid| |usage|err|item|item|item|msg];
    cbn [status pendingQuestion with_eventBuffer with_turnCount with_status
         with_error]; try tauto.
  - destruct usage; cbn; discriminate.
  - discriminate.
  - unfold itemUpdated. cbn [itemEvents with_eventBuffer].
    now destruct (JsMap.get _ _).
  - unfold itemCompleted. cbn [itemEvents with_eventBuffer].
    destruct (JsMap.get _ _); destruct (if String.eqb _ _ then _ else _);
      cbn; tauto.
Qed.

Lemma codex_awaiting_handleExit code signal s :
  awaitingHasQuestion s -> awaitingHasQuestion (handleExit_session code signal s).
Proof.
  unfold awaitingHasQuestion, handleExit_session. cbn [status with_process].
  destruct (status s) eqn:E; repeat case_bool_decide; cbn; rewrite ?E;
    tauto || discriminate.
Qed.

Lemma codex_awaiting_step env m l :
  holds awaitingHasQuestion m -> holds awaitingHasQuestion (step env m l).
Proof.
  intros Hm. destruct l; cbn [step].
  - (* Start *)
    unfold startSession. destruct (_ >=? _); [exact Hm|].
    cbn [alloc]. destruct spawnThrows; cbn [fst].
    + eapply (codex_holds_insert _ m); [reflexivity|discriminate|exact Hm].
    + apply codex_holds_update; [intros s Hs; exact Hs|].
      eapply (codex_holds_insert _ m); [reflexivity|discriminate|exact Hm].
  - (* Say *)
    unfold sayToSession.
    assert (Hm' : holds awaitingHasQuestion
                    (match JsMap.get (sessions m) sessionId with
                     | Some r => (r, m)
                     | None => createTrackedSession env sessionId now cwd m
                     end).2).
    { destruct (JsMap.get (sessions m) sessionId) as [r|]; [exact Hm|].
      unfold createTrackedSession. cbn [alloc snd].
      eapply (codex_holds_insert _ m); [reflexivity|discriminate|exact Hm]. }
    destruct (match JsMap.get (sessions m) sessionId with
              | Some r => (r, m)
              | None => createTrackedSession env sessionId now cwd m
              end) as [r m1]. cbn [snd] in Hm'.
    destruct (heap m1 !! r) as [session|]; [|exact Hm'].
    destruct (isSome (process session) && _); [exact Hm'|].
    assert (H : holds awaitingHasQuestion
                  (resumeSession env r message imgs child spawnThrows m1).1)
      by (apply codex_holds_resumeSession; [discriminate|exact Hm']).
    now destruct (resumeSession env r message imgs child spawnThrows m1) as [m2 []].
  - (* Respond *)
    unfold respondToQuestion.
    destruct (lookup m sessionId) as [[r session]|]; [|exact Hm].
    destruct (pendingQuestion session) as [q|]; [|exact Hm].
    destruct (negb _); [exact Hm|].
    assert (Hsent : holds awaitingHasQuestion
              (match process session with
               | Some proc =>
                   sendApprovalResponse stdinAvailable proc
                     (translateAnswer answers) (clearTimeout questionId m)
               | None => (clearTimeout questionId m, Ok tt)
               end).1).
    { destruct (process session) as [proc|]; cbn [fst].
      - apply (codex_holds_frame _ m); [|exact Hm].
        now rewrite heap_sendApprovalResponse, heap_codex_clearTimeout.
      - apply (codex_holds_frame _ m); [|exact Hm]. apply heap_codex_clearTimeout. }
    destruct (match process session with
              | Some proc => _
              | None => _
              end) as [m1 [u|e]]; cbn [fst] in *; [|exact Hsent].
    rewrite codex_update_update. apply codex_holds_update; [discriminate|].
    apply (codex_holds_frame _ m1); [apply heap_codex_settle|exact Hsent].
  - (* Interrupt *)
    unfold interruptSession.
    destruct (lookup m sessionId) as [[r session]|]; [|exact Hm].
    destruct (process session) as [proc|]; [|exact Hm].
    cbn [fst]. apply codex_holds_update; [discriminate|].
    now apply (codex_holds_frame _ m).
  - (* OnEvent *)
    unfold handleEvent.
    destruct (heap m !! r) as [session|]; [|exact Hm].
    assert (H : holds awaitingHasQuestion
                  (update r (handleEvent_session event) m))
      by (apply codex_holds_update; [apply codex_awaiting_handleEvent|exact Hm]).
    destruct event; try exact H.
    destruct (negb _); [|exact H].
    apply (codex_holds_frame _ (update r (with_id thread_id)
                            (update r (handleEvent_session
                                         (ThreadStarted thread_id)) m)));
      [reflexivity|].
    apply codex_holds_update; [intros s Hs; exact Hs|exact H].
  - (* OnApproval *)
    unfold handleApprovalRequest, register.
    rewrite codex_update_update. apply codex_holds_update.
    + intros s _ _. discriminate.
    + now apply (codex_holds_frame _ m).
  - (* OnExit *)
    unfold handleExit. apply codex_holds_update; [|exact Hm].
    intros s. apply codex_awaiting_handleExit.
  - (* TimerFires *)
    unfold fireTimeout.
    destruct (timers m !! t) as [[timer|]|]; [|exact Hm..].
    unfold onTimeout. rewrite codex_update_update.
    match goal with
    | |- context [update ?r ?f ?m0] =>
        assert (H : holds awaitingHasQuestion (update r f m0))
          by (apply codex_holds_update; [discriminate|now apply (codex_holds_frame _ m)]);
        generalize dependent (update r f m0)
    end.
    intros m1 H1.
    destruct (heap m1 !! timer_session timer) as [session|];
      [destruct (process session) as [proc|]|].
    + pose proof (heap_sendApprovalResponse stdinAvailable proc
                    timedOutResponse m1) as Hheap.
      destruct (sendApprovalResponse stdinAvailable proc timedOutResponse m1)
        as [m2 [u|e]]; cbn [fst] in Hheap.
      * apply (codex_holds_frame _ m1); [|exact H1].
        now rewrite heap_codex_settle.
      * now apply (codex_holds_frame _ m1).
    + apply (codex_holds_frame _ m1); [apply heap_codex_settle|exact H1].
    + apply (codex_holds_frame _ m1); [apply heap_codex_settle|exact H1].
  - (* Stop *)
    apply (codex_holds_frame _ m); [apply heap_codex_stop|exact Hm].
Qed.

Lemma codex_awaiting_run env m trace :
  holds awaitingHasQuestion m -> holds awaitingHasQuestion (run env m trace).
Proof.
  unfold run. revert m.
  induction trace as [|l trace IH]; intros m H; [exact H|].
  cbn [fold_left]. apply IH. now apply codex_awaiting_step.
Qed.

(** X15. The codex connector keeps status and pending question together:
    every entry point, a timeout firing included, keeps that a session
    whose status is AWAITING_APPROVAL has a pending question; so it
    holds in every state reached from the initial one, and there a
    status call on a session awaiting approval shows its pending
    question. *)
Theorem codex_awaiting_approval_has_question (env : EnvConfig) (m : Manager)
    (l : Label) (trace : list Label) :
  (holds awaitingHasQuestion m -> holds awaitingHasQuestion (step env m l)) /\
  holds awaitingHasQuestion (run env initial trace) /\
  (holds awaitingHasQuestion m ->
   forall sessionId outputLines view,
     getSessionStatus m sessionId outputLines = Ok view ->
     view_status view = awaiting_approval ->
     view_pendingQuestion view <> None).
Proof.
  split; [apply codex_awaiting_step|].
  split.
  { apply codex_awaiting_run. intros r s H. cbn in H.
    now rewrite lookup_empty in H. }
  intros Hm sessionId outputLines view. unfold getSessionStatus, lookup.
  destruct (JsMap.get (sessions m) sessionId) as [r|]; [|discriminate].
  destruct (heap m !! r) as [s|] eqn:Hr; [|discriminate].
  intros [= <-]. cbn [statusView view_status view_pendingQuestion].
  intros Hst. specialize (Hm r s Hr Hst). rewrite Hst. cbn [status_eqb].
  now destruct (pendingQuestion s).
Qed.

Lemma codex_awaiting_approval_has_question_witness :
  holds awaitingHasQuestion
    (step Fixture.codexEnvOne Fixture.codexBusy
       (OnApproval 0%nat "Allow running ls?" 5 "x")).
Proof.
  destruct (codex_awaiting_approval_has_question Fixture.codexEnvOne
              Fixture.codexBusy (OnApproval 0%nat "Allow running ls?" 5 "x")
              [Say "thread-1" "Hello" None 1 "/work" 21%nat false])
    as (Hstep & Hrun & _).
  apply Hstep. exact Hrun.
Defined.

End CodexInvariantFacts.

(** ** The codex connector: answering an approval *)
Module CodexRespondFacts.
Import Codex CodexProps CodexTimeoutFacts CodexInvariantFacts JsMapFacts.

Lemma lookup_clearTimeout q m k : lookup (clearTimeout q m) k = lookup m k.
Proof. unfold clearTimeout, lookup. now destruct (JsMap.get (pendingTimeouts m) q). Qed.

Lemma codex_lookup_inv m k r s :
  lookup m k = Some (r, s) ->
  JsMap.get (sessions m) k = Some r /\ heap m !! r = Some s.
Proof.
  unfold lookup. destruct (JsMap.get (sessions m) k) as [r'|]; [|discriminate].
  destruct (heap m !! r') as [s'|] eqn:E; [|discriminate].
  now intros [= <- <-].
Qed.

Lemma fire_cleared avail t ts m :
  timers m = <[t := None]> ts -> fireTimeout avail t m = m.
Proof.
  intros Ht. unfold fireTimeout. rewrite Ht.
  destruct (decide (t < List.length ts)%nat) as [Hlt|Hge].
  - now rewrite list_lookup_insert_eq by exact Hlt.
  - rewrite list_insert_ge by lia. now rewrite lookup_ge_None_2 by lia.
Qed.

(** X16. Answering a codex approval.  With a question pending under the
    id given: when the session has no process or its stdin is writable,
    the call succeeds with status active, clears the pending question,
    writes y or n and a line feed to the process if there is one,
    according to the translated answer, and settles the promise of the
    question with that answer; when the session has a process whose
    stdin is not writable, the call throws after the timeout was
    cleared: the question stays pending, the session is as before, and
    the timer no longer fires. *)
Theorem codex_respond_spec (avail : bool) (sessionId questionId : string)
    (answers : list string) (m : Manager) (r : nat) (s : Session)
    (q : PendingQuestion) :
  lookup m sessionId = Some (r, s) ->
  pendingQuestion s = Some q ->
  q_id (data q) = questionId ->
  (process s = None \/ avail = true ->
     exists m2 s2,
       respondToQuestion avail sessionId questionId answers m =
         (m2, Ok (Some {| reply_sessionId := id s; reply_status := active |})) /\
       heap m2 !! r = Some s2 /\ status s2 = active /\
       pendingQuestion s2 = None /\
       (promises m !! resolve q = Some None ->
          promises m2 !! resolve q = Some (Some (translateAnswer answers))) /\
       effects m2 =
         effects m ++
         match process s with
         | Some proc =>
             [WroteStdin proc
                (if approved (translateAnswer answers)
                 then String "y" (String (ascii_of_N 10) "")
                 else String "n" (String (ascii_of_N 10) ""))]
         | None => []
         end) /\
  (process s <> None -> avail = false ->
     respondToQuestion avail sessionId questionId answers m =
       (clearTimeout questionId m, Throw StdinNotAvailable) /\
     lookup (clearTimeout questionId m) sessionId = Some (r, s) /\
     forall t stdin,
       JsMap.get (pendingTimeouts m) questionId = Some t ->
       fireTimeout stdin t (clearTimeout questionId m) =
         clearTimeout questionId m).
Proof.
  intros Hl Hq Hid. unfold respondToQuestion. rewrite Hl, Hq, Hid.
  rewrite String.eqb_refl. cbn [negb].
  apply codex_lookup_inv in Hl as [Hget Hr].
  split.
  - intros Hok.
    assert (Hsent :
              (match process s with
               | Some proc =>
                   sendApprovalResponse avail proc (translateAnswer answers)
                     (clearTimeout questionId m)
               | None => (clearTimeout questionId m, Ok tt)
               end) =
              (match process s with
               | Some proc =>
                   emit (WroteStdin proc
                           (if approved (translateAnswer answers)
                            then String "y" (String (ascii_of_N 10) "")
                            else String "n" (String (ascii_of_N 10) "")))
                     (clearTimeout questionId m)
               | None => clearTimeout questionId m
               end, Ok tt)).
    { destruct (process s) as [proc|]; [|reflexivity].
      destruct Hok as [Hno| ->]; [discriminate|reflexivity]. }
    rewrite Hsent.
    set (m1 := match process s with Some _ => _ | None => _ end).
    assert (Hh1 : heap m1 = heap m).
    { subst m1. destruct (process s); cbn [emit heap];
        apply heap_codex_clearTimeout. }
    assert (Hp1 : promises m1 = promises m).
    { subst m1. unfold clearTimeout.
      destruct (process s), (JsMap.get (pendingTimeouts m) questionId);
        reflexivity. }
    assert (He1 : effects m1 =
                    effects m ++
                    match process s with
                    | Some proc =>
                        [WroteStdin proc
                           (if approved (translateAnswer answers)
                            then String "y" (String (ascii_of_N 10) "")
                            else String "n" (String (ascii_of_N 10) ""))]
                    | None => []
                    end).
    { subst m1. unfold clearTimeout.
      destruct (process s), (JsMap.get (pendingTimeouts m) questionId); cbn;
        now rewrite ?app_nil_r. }
    clearbody m1.
    eexists _, _. split.
    { apply pair_equal_spec. split; [reflexivity|].
      unfold replyOf. codex_simpl.
      rewrite !lookup_alter_eq, heap_codex_settle, Hh1, Hr. reflexivity. }
    codex_simpl. rewrite !lookup_alter_eq, heap_codex_settle, Hh1, Hr.
    split; [reflexivity|]. split; [reflexivity|]. split; [reflexivity|].
    split.
    + intros Hopen. unfold settle. rewrite Hp1, Hopen. codex_simpl.
      apply list_lookup_insert_eq. now apply lookup_lt_Some in Hopen.
    + unfold settle. destruct (promises m1 !! resolve q) as [[]|]; exact He1.
  - intros Hproc ->. destruct (process s) as [proc|]; [|congruence].
    cbn [sendApprovalResponse]. split; [reflexivity|].
    split.
    + rewrite lookup_clearTimeout. unfold lookup. now rewrite Hget, Hr.
    + intros t stdin Ht.
      apply (fire_cleared stdin t (timers m)). unfold clearTimeout.
      now rewrite Ht.
Qed.

End CodexRespondFacts.

Module CodexRespondWitness.
Import Codex CodexRespondFacts Fixture.

Lemma codex_respond_spec_witness :
  let m := step codexEnvOne codexBusy
             (OnApproval 0%nat "Allow running ls?" 5 "x") in
  (respondToQuestion false "thread-1" "approval_5_x" ["approve"%string] m).2 =
    Throw StdinNotAvailable /\
  (respondToQuestion true "thread-1" "approval_5_x" ["approve"%string] m).2 =
    Ok (Some {| reply_sessionId := "thread-1"; reply_status := active |}).
Proof.
  intros m.
  destruct (lookup m "thread-1") as [[r s]|] eqn:Hl;
    [|vm_compute in Hl; discriminate Hl].
  assert (Hs : id s = "thread-1"%string /\ process s = Some 21%nat /\
               exists q, pendingQuestion s = Some q /\
                         q_id (data q) = "approval_5_x"%string).
  { vm_compute in Hl. injection Hl as <- <-.
    split; [reflexivity|]. split; [reflexivity|].
    eexists. split; reflexivity. }
  destruct Hs as (Hid & Hproc & q & Hq & Hqid).
  destruct (codex_respond_spec false "thread-1" "approval_5_x"
              ["approve"%string] m r s q Hl Hq Hqid) as [_ Hthrow].
  destruct (codex_respond_spec true "thread-1" "approval_5_x"
              ["approve"%string] m r s q Hl Hq Hqid) as [Hok _].
  split.
  - destruct Hthrow as (-> & _); [congruence|reflexivity|reflexivity].
  - destruct Hok as (m2 & s2 & -> & _); [now right|].
    cbn [snd]. now rewrite Hid.
Defined.

End CodexRespondWitness.

(** ** The codex connector: events *)
Module CodexEventFacts.
Import Codex CodexProps CodexTimeoutFacts CodexInvariantFacts EventBuffer
  EventBufferFacts.

Lemma handleEvent_session_fields e s :
  eventBuffer (handleEvent_session e s) = push (eventBuffer s) e /\
  turnCount (handleEvent_session e s) =
    turnCount s + (if isTurnStarted e then 1 else 0) /\
  process (handleEvent_session e s) = process s /\
  pendingQuestion (handleEvent_session e s) = pendingQuestion s /\
  createdAt (handleEvent_session e s) = createdAt s.
Proof.
  unfold handleEvent_session.
  destruct e as [tid| |usage|err|item|item|item|msg]; cbn [isTurnStarted];
    rewrite ?Z.add_0_r; try (repeat split; reflexivity).
  - destruct usage; repeat split; reflexivity.
  - unfold itemUpdated. cbn [itemEvents with_eventBuffer].
    destruct (JsMap.get _ _); repeat split; reflexivity.
  - unfold itemCompleted. cbn [itemEvents with_eventBuffer].
    destruct (JsMap.get _ _); destruct (if String.eqb _ _ then _ else _);
      repeat split; reflexivity.
Qed.

Lemma handleEvent_object r e m s :
  heap m !! r = Some s ->
  exists s',
    heap (handleEvent r e m) !! r = Some s' /\
    eventBuffer s' = push (eventBuffer s) e /\
    turnCount s' = turnCount s + (if isTurnStarted e then 1 else 0) /\
    process s' = process s /\
    pendingQuestion s' = pendingQuestion s /\
    createdAt s' = createdAt s.
Proof.
  intros Hr. unfold handleEvent. rewrite Hr.
  pose proof (handleEvent_session_fields e s) as Hf.
  assert (Hplain :
            exists s',
              heap (update r (handleEvent_session e) m) !! r = Some s' /\
              eventBuffer s' = push (eventBuffer s) e /\
              turnCount s' = turnCount s + (if isTurnStarted e then 1 else 0) /\
              process s' = process s /\
              pendingQuestion s' = pendingQuestion s /\
              createdAt s' = createdAt s).
  { exists (handleEvent_session e s). split; [|exact Hf].
    codex_simpl. now rewrite lookup_alter_eq, Hr. }
  destruct e as [tid| |usage|err|item|item|item|msg]; try exact Hplain.
  destruct (negb _); [|exact Hplain].
  exists (with_id tid (handleEvent_session (ThreadStarted tid) s)).
  split; [|exact Hf].
  codex_simpl. now rewrite !lookup_alter_eq, Hr.
Qed.

(** X17. The events of a codex session: whatever events arrive for a
    session object, each one is pushed to its history, each
    [turn.started] adds one to its turn count, and no event touches its
    process handle, its pending question or its creation time; a history
    created with a capacity [k] that is not negative then holds the last
    [k] of the events, oldest first. *)
Theorem codex_events_are_recorded (r : nat) (es : list CodexEvent)
    (m : Manager) (s : Session) (k : Z) :
  heap m !! r = Some s ->
  exists s',
    heap (handleEvents r es m) !! r = Some s' /\
    eventBuffer s' = pushAll (eventBuffer s) es /\
    turnCount s' =
      turnCount s + Z.of_nat (List.length (filter (fun e => isTurnStarted e = true) es)) /\
    process s' = process s /\
    pendingQuestion s' = pendingQuestion s /\
    createdAt s' = createdAt s /\
    (0 <= k -> eventBuffer s = create k ->
       getAll (eventBuffer s') = drop (List.length es - Z.to_nat k) es).
Proof.
  unfold handleEvents. revert m s.
  induction es as [|e es IH] using rev_ind; intros m s Hr.
  - exists s. cbn [fold_left pushAll filter List.length].
    rewrite Z.add_0_r. repeat split; try assumption; try reflexivity.
    intros Hk ->. reflexivity.
  - destruct (IH m s Hr) as (s1 & Hr1 & Hb1 & Ht1 & Hp1 & Hq1 & Hc1 & _).
    rewrite fold_left_app. cbn [fold_left].
    destruct (handleEvent_object r e _ s1 Hr1)
      as (s2 & Hr2 & Hb2 & Ht2 & Hp2 & Hq2 & Hc2).
    exists s2. split; [exact Hr2|].
    split; [rewrite Hb2, Hb1; symmetry; apply pushAll_snoc|].
    split.
    { rewrite Ht2, Ht1, filter_app, length_app, Nat2Z.inj_add.
      rewrite filter_cons, filter_nil.
      destruct e; cbn [isTurnStarted]; case_decide; try discriminate;
        try congruence; cbn [List.length]; lia. }
    split; [congruence|]. split; [congruence|]. split; [congruence|].
    intros Hk Hcreate. unfold getAll.
    rewrite Hb2, Hb1, <- pushAll_snoc, Hcreate.
    now apply events_pushAll.
Qed.

Lemma codex_events_are_recorded_witness :
  exists s',
    heap (handleEvents 0%nat [TurnStarted; StreamError "x"; TurnStarted]
            Fixture.codexBusy) !! 0%nat = Some s' /\
    turnCount s' = 2.
Proof.
  destruct (heap Fixture.codexBusy !! 0%nat) as [s0|] eqn:Hs0;
    [|vm_compute in Hs0; discriminate Hs0].
  destruct (codex_events_are_recorded 0%nat
              [TurnStarted; StreamError "x"; TurnStarted]
              Fixture.codexBusy s0 100 Hs0)
    as (s' & H1 & _ & H2 & _).
  exists s'. split; [exact H1|]. rewrite H2.
  vm_compute in Hs0. now injection Hs0 as <-.
Defined.

End CodexEventFacts.

Module WitnessesOfPureFacts.
Import JsString AnswerParser.

Lemma parseAnswer_normal_form_witness :
  decision (parseAnswer "  deny  :  not safe  ") = "deny"%string /\
  noOuterWhiteSpace "not safe".
Proof.
  destruct (AnswerNormalFacts.parseAnswer_normal_form "  deny  :  not safe  ")
    as (_ & _ & Hreason & _).
  split; [reflexivity|]. apply Hreason. reflexivity.
Defined.

Lemma codex_translateAnswer_spec_witness :
  Codex.approved (Codex.translateAnswer ["yes: go ahead"%string]) = true /\
  Codex.response_reason (Codex.translateAnswer ["yes: go ahead"%string]) =
    Some "go ahead"%string.
Proof.
  destruct (CodexTranslateFacts.codex_translateAnswer_spec
              ["yes: go ahead"%string] [] "yes: go ahead")
    as (Happroved & _ & _ & Hreason & _).
  split.
  - apply Happroved. exists "yes: go ahead"%string, [].
    split; [reflexivity|]. vm_compute. tauto.
  - rewrite Hreason by discriminate. reflexivity.
Defined.

End WitnessesOfPureFacts.

(** ** The codex connector: items *)
Module CodexItemFacts.
Import Codex JsMapFacts JsMapLaws.

Lemma substring_length_le s n m :
  (String.length (substring n m s) <= m)%nat.
Proof.
  revert n m. induction s as [|c s IH]; intros n m.
  - destruct n, m; cbn; lia.
  - destruct n as [|n]; destruct m as [|m]; cbn [substring String.length];
      try lia.
    + specialize (IH 0%nat m). lia.
    + apply IH.
    + apply IH.
Qed.

Lemma slice_length_le s n :
  0 <= n -> JsString.length (JsString.slice s 0 (Some n)) <= n.
Proof.
  intros Hn. unfold JsString.slice, JsString.length.
  pose proof (substring_length_le s
                (Z.to_nat (JsString.relativeIndex (Z.of_nat (String.length s)) 0))
                (Z.to_nat
                   (Z.max
                      (JsString.relativeIndex (Z.of_nat (String.length s)) n -
                       JsString.relativeIndex (Z.of_nat (String.length s)) 0) 0))).
  unfold JsString.relativeIndex in *.
  destruct (Z.ltb_spec 0 0); [lia|]. destruct (Z.ltb_spec n 0); [lia|]. lia.
Qed.

Lemma keys_set_present {V : Type} (m : JsMap.t V) k v v' :
  JsMap.get m k = Some v' -> map fst (JsMap.set m k v) = map fst m.
Proof.
  intros Hget. destruct (keys_set m k v) as [H|[Hk _]]; [exact H|].
  apply get_None in Hk. congruence.
Qed.

(** X18. Item tracking of the codex connector: [item.started] files the
    item under its id with status started; a later [item.completed]
    with that id keeps the type and the place of the entry, sets its
    status to failed when the item says so and to completed otherwise,
    and a summary taken from an agent message has at most 200
    characters; the text of a completed agent message becomes the result
    of the session, tracked or not; completing an item that was never
    started tracks nothing. *)
Theorem codex_item_tracking (s : Session) (item finished : Item) :
  item_id finished = item_id item ->
  let s1 := handleEvent_session (ItemStarted item) s in
  let s2 := handleEvent_session (ItemCompleted finished) s1 in
  JsMap.get (itemEvents s1) (item_id item) =
    Some {| itemType := item_type item; itemStatus := started;
            summary := None |} /\
  (exists tracked,
     JsMap.get (itemEvents s2) (item_id item) = Some tracked /\
     itemType tracked = item_type item /\
     itemStatus tracked =
       (if bool_decide (item_status finished = Some "failed"%string)
        then failed else completed) /\
     (forall text,
        summary tracked = Some text ->
        item_type finished = "agent_message"%string ->
        JsString.length text <= 200)) /\
  map fst (itemEvents s2) = map fst (itemEvents s1) /\
  (forall text,
     item_type finished = "agent_message"%string ->
     item_text finished = Some text -> text <> ""%string ->
     session_result s2 = Some text /\
     session_result (handleEvent_session (ItemCompleted finished) s) =
       Some text) /\
  (JsMap.get (itemEvents s) (item_id finished) = None ->
     itemEvents (handleEvent_session (ItemCompleted finished) s) = itemEvents s).
Proof.
  intros Hid s1 s2.
  assert (H1 : JsMap.get (itemEvents s1) (item_id item) =
                 Some {| itemType := item_type item; itemStatus := started;
                         summary := None |}).
  { subst s1. cbn [handleEvent_session itemStarted itemEvents with_itemEvents].
    apply get_set_eq. }
  split; [exact H1|].
  assert (Hitems2 :
            itemEvents s2 =
              JsMap.set (itemEvents s1) (item_id item)
                {| itemType := item_type item;
                   itemStatus :=
                     if bool_decide (item_status finished = Some "failed"%string)
                     then failed else completed;
                   summary :=
                     match
                       (if String.eqb (item_type finished) "agent_message"
                        then nonEmpty (item_text finished) else None)
                     with
                     | Some text => Some (JsString.slice text 0 (Some 200))
                     | None =>
                         if String.eqb (item_type finished) "command_execution"
                         then match nonEmpty (item_command finished) with
                              | Some command => Some command
                              | None => None
                              end
                         else None
                     end |}).
  { subst s2. unfold handleEvent_session at 1, itemCompleted.
    cbn [itemEvents with_eventBuffer]. rewrite Hid, H1.
    cbn [itemType summary].
    destruct (if String.eqb (item_type finished) "agent_message"
              then nonEmpty (item_text finished) else None);
      reflexivity. }
  split.
  { eexists. rewrite Hitems2, get_set_eq. split; [reflexivity|].
    split; [reflexivity|]. split; [reflexivity|].
    cbn [summary]. intros text Hsum Htype. rewrite Htype in Hsum.
    cbn [String.eqb Ascii.eqb Bool.eqb] in Hsum.
    destruct (nonEmpty (item_text finished)) as [t|].
    - injection Hsum as <-. now apply slice_length_le.
    - discriminate Hsum. }
  split.
  { rewrite Hitems2. now apply (keys_set_present _ _ _ _ H1). }
  split.
  { intros text Htype Htext Hne.
    assert (Hagent : (if String.eqb (item_type finished) "agent_message"
                      then nonEmpty (item_text finished) else None) = Some text).
    { rewrite Htype, Htext. cbn [String.eqb Ascii.eqb Bool.eqb nonEmpty].
      now destruct (String.eqb_spec text "") as [->|_]. }
    split.
    - subst s2. unfold handleEvent_session at 1, itemCompleted.
      rewrite Hagent. reflexivity.
    - unfold handleEvent_session, itemCompleted. rewrite Hagent. reflexivity. }
  intros Hnone. unfold handleEvent_session, itemCompleted.
  cbn [itemEvents with_eventBuffer]. rewrite Hnone.
  now destruct (if String.eqb (item_type finished) "agent_message"
                then nonEmpty (item_text finished) else None).
Qed.

Lemma codex_item_tracking_witness :
  let s := handleEvent_session
             (ItemCompleted {| item_id := "i1"; item_type := "agent_message";
                               item_text := Some "All done"%string;
                               item_command := None; item_status := None |})
             (handleEvent_session
                (ItemStarted {| item_id := "i1"; item_type := "agent_message";
                                item_text := None; item_command := None;
                                item_status := None |})
                {| id := "t"; status := active; process := None;
                   createdAt := 0; session_workingDirectory := "/";
                   config := {| workingDirectory := "/"; model := None;
                                approvalPolicy := None; sandbox := None;
                                fullAuto := None; profile := None;
                                config_overrides := None;
                                baseInstructions := None; images := None;
                                skipGitRepoCheck := None;
                                dangerouslyBypassApprovalsAndSandbox := None |};
                   eventBuffer := EventBuffer.create 10;
                   pendingQuestion := None; session_result := None;
                   session_error := None; itemEvents := JsMap.empty;
                   session_usage := None; turnCount := 0 |}) in
  session_result s = Some "All done"%string.
Proof.
  cbv zeta.
  refine (proj1 (proj1 (proj2 (proj2 (proj2
            (codex_item_tracking _
               {| item_id := "i1"; item_type := "agent_message";
                  item_text := None; item_command := None;
                  item_status := None |}
               {| item_id := "i1"; item_type := "agent_message";
                  item_text := Some "All done"%string;
                  item_command := None; item_status := None |}
               eq_refl)))) "All done"%string eq_refl eq_refl _)).
  discriminate.
Defined.

End CodexItemFacts.

(** ** A permission request that no session can take *)
Module UnknownSessionFacts.
Import Claude SessionProps LookupFacts TimeoutFacts.

Lemma firstPending_closed l :
  Forall (fun x => ~ isOpen x) l -> firstPending l = None.
Proof.
  induction 1 as [|[r s] l Hx _ IH]; [reflexivity|].
  cbn [firstPending].
  destruct (JsString.startsWith (id s) "temp_" && status_eqb (status s) active)
    eqn:E; [|exact IH].
  exfalso. apply Hx. apply (pendingTemp_spec (r, s)) in E.
  left. apply E.
Qed.

Lemma latestOpen_closed l :
  Forall (fun x => ~ isOpen x) l -> latestOpen None l = None.
Proof.
  induction 1 as [|[r s] l Hx _ IH]; [reflexivity|].
  cbn [latestOpen].
  destruct (status_eqb (status s) active || status_eqb (status s) awaiting_input)
    eqn:E; [|exact IH].
  exfalso. apply Hx. now apply (isOpen_spec (r, s)).
Qed.

Lemma insert_snoc {A : Type} (l : list A) (x y : A) :
  <[List.length l := y]> (l ++ [x]) = l ++ [y].
Proof. induction l as [|a l IH]; [reflexivity|]. simpl. f_equal. exact IH. Qed.

(** X19. A permission request that no session can take is denied at
    once: when the label of the request is no stored id and no stored
    session is active or awaiting input, the agent is answered
    immediately with the denial "Unknown session"; no session, timer or
    process is touched. *)
Theorem permission_without_session_is_denied
    (request : PermissionCallbackRequest) (m : Manager) :
  lookup m (req_sessionId request) = None ->
  Forall (fun x => ~ isOpen x) (sessionObjects m) ->
  let after := (onPermissionRequest request m).1 in
  (onPermissionRequest request m).2 = Ok (List.length (promises m)) /\
  promises after = promises m ++ [Some unknownSessionResponse] /\
  heap after = heap m /\ sessions after = sessions m /\
  timers after = timers m /\ pendingTimeouts after = pendingTimeouts m /\
  effects after = effects m.
Proof.
  intros Hl Hclosed after. subst after.
  unfold onPermissionRequest, findSessionForPermission. rewrite Hl.
  rewrite firstPending_closed, latestOpen_closed by exact Hclosed.
  destruct (String.eqb _ _); cbn [newPromise fst snd]; unfold settle;
    mgr_simpl; rewrite lookup_snoc; mgr_simpl;
    (split; [reflexivity|]);
    (split; [apply insert_snoc|repeat split]).
Qed.

Lemma permission_without_session_is_denied_witness :
  promises (onPermissionRequest Fixture.editRequest initial).1 =
    [Some unknownSessionResponse].
Proof.
  refine (proj1 (proj2 (permission_without_session_is_denied
                          Fixture.editRequest initial eq_refl _))).
  constructor.
Defined.

End UnknownSessionFacts.

(** ** Resuming a session that has no process *)
Module ResumeFacts.
Import Claude SessionProps TimeoutFacts RekeyFacts.



End ResumeFacts.

(** ** The codex connector: an approval that times out *)
Module CodexTimeoutTheorems.
Import Codex CodexProps CodexTimeoutFacts CodexInvariantFacts CodexRespondFacts.

(** X21. A codex approval that nobody answers.  An approval request
    puts the session in AWAITING_APPROVAL with a pending question that
    quotes the request and offers approve and deny; when its timer
    fires, the session is active again without pending question; if the
    session has a process with a writable stdin, n and a line feed are
    written to it, and the promise of the question is settled with the
    denial "Approval timed out", as it is when the session has no
    process; if the stdin is not writable the promise stays open; and
    the timer does not fire a second time. *)
Theorem codex_timeout_denies (avail again : bool) (r : nat)
    (requestText : string) (now : Z) (randomSuffix : string) (m : Manager)
    (s : Session) :
  heap m !! r = Some s ->
  let m1 := handleApprovalRequest r requestText now randomSuffix m in
  let m2 := fireTimeout avail (List.length (timers m)) m1 in
  let p := List.length (promises m) in
  (exists s1 q,
     heap m1 !! r = Some s1 /\ status s1 = awaiting_approval /\
     pendingQuestion s1 = Some q /\ resolve q = p /\
     q_id (data q) =
       ("approval_" +:+ JsString.ofNumber now +:+ "_" +:+ randomSuffix)%string /\
     q_questions (data q) =
       [{| item_question := requestText;
           item_options := ["approve"; "deny"]%string |}]) /\
  (exists s2,
     heap m2 !! r = Some s2 /\ status s2 = active /\
     pendingQuestion s2 = None) /\
  (process s = None ->
     promises m2 !! p = Some (Some timedOutResponse) /\ effects m2 = effects m) /\
  (forall proc, process s = Some proc -> avail = true ->
     promises m2 !! p = Some (Some timedOutResponse) /\
     effects m2 =
       effects m ++ [WroteStdin proc (String "n" (String (ascii_of_N 10) ""))]) /\
  (forall proc, process s = Some proc -> avail = false ->
     promises m2 !! p = Some None /\ effects m2 = effects m) /\
  fireTimeout again (List.length (timers m)) m2 = m2.
Proof.
  intros Hs m1 m2 p. subst m1 m2 p.
  unfold handleApprovalRequest, register.
  split.
  { codex_simpl. rewrite !lookup_alter_eq, Hs.
    eexists _, _. repeat split. }
  unfold fireTimeout.
  codex_simpl. rewrite TimeoutFacts.lookup_snoc.
  cbn [timer_session timer_resolve timer_questionId].
  unfold onTimeout. codex_simpl.
  rewrite !lookup_alter_eq, Hs. cbn [fmap option_fmap option_map].
  cbn [process with_status with_pendingQuestion].
  destruct (process s) as [proc|].
  - unfold sendApprovalResponse. destruct avail.
    + unfold settle. codex_simpl.
      rewrite TimeoutFacts.lookup_snoc. codex_simpl.
      rewrite !lookup_alter_eq, Hs. cbn [fmap option_fmap option_map].
      split; [eexists; repeat split|].
      split; [discriminate|].
      split; [intros proc' [= <-] _; split;
              [apply TimeoutFacts.lookup_insert_snoc|reflexivity]|].
      split; [discriminate|].
      now rewrite TimeoutFacts.lookup_insert_snoc.
    + codex_simpl. rewrite !lookup_alter_eq, Hs.
      cbn [fmap option_fmap option_map].
      split; [eexists; repeat split|].
      split; [discriminate|].
      split; [discriminate|].
      split; [intros proc' _ _; split;
              [apply TimeoutFacts.lookup_snoc|reflexivity]|].
      now rewrite TimeoutFacts.lookup_insert_snoc.
  - unfold settle. codex_simpl.
    rewrite TimeoutFacts.lookup_snoc. codex_simpl.
    rewrite !lookup_alter_eq, Hs. cbn [fmap option_fmap option_map].
    split; [eexists; repeat split|].
    split; [intros _; split;
            [apply TimeoutFacts.lookup_insert_snoc|reflexivity]|].
    split; [discriminate|]. split; [discriminate|].
    now rewrite TimeoutFacts.lookup_insert_snoc.
Qed.

Lemma codex_timeout_denies_witness :
  let m1 := handleApprovalRequest 0%nat "Allow running ls?" 5 "x"
              Fixture.codexBusy in
  effects (fireTimeout true 0 m1) =
    effects Fixture.codexBusy ++
    [WroteStdin 21%nat (String "n" (String (ascii_of_N 10) ""))].
Proof.
  destruct (heap Fixture.codexBusy !! 0%nat) as [s0|] eqn:Hs0;
    [|vm_compute in Hs0; discriminate Hs0].
  destruct (codex_timeout_denies true true 0%nat "Allow running ls?" 5 "x"
              Fixture.codexBusy s0 Hs0) as (_ & _ & _ & Hwrite & _).
  apply (Hwrite 21%nat); [|reflexivity].
  vm_compute in Hs0. now injection Hs0 as <-.
Defined.

End CodexTimeoutTheorems.

(** ** Changing the permission mode of a running session *)
Module ModeChangeFacts.
Import Claude SessionProps TimeoutFacts RekeyFacts.




End ModeChangeFacts.

(** ** The codex connector: calls that are rejected *)
Module CodexRejectedFacts.
Import Codex CodexTimeoutFacts.

(** X23. A rejected codex call changes nothing, two cases apart.  When
    [interruptSession] throws, when [sayToSession] throws that the
    session is still processing, when [startSession] throws at the
    session limit, and when [respondToQuestion] throws anything but that
    the stdin is not available, the state of the connector is what it
    was before the call.  [startSession] throws only at the session
    limit or because the spawn threw; in the second case the session it
    had stored before the spawn stays in the store under its temp id,
    active and without process, and nothing else is changed.
    [sayToSession] refuses a session that is active with a live process,
    and only such a session. *)
Theorem codex_rejected_call_changes_nothing (env : EnvConfig) (now : Z)
    (cwd randomSuffix : string) (child : ChildProcess) (spawnThrows : bool)
    (params : StartParams) (sessionId message questionId : string)
    (imgs : option (list string)) (answers : list string)
    (stdinAvailable : bool) (m : Manager) (e : Thrown) :
  let started :=
    startSession env now cwd randomSuffix child spawnThrows params m in
  let said :=
    sayToSession env sessionId message imgs now cwd child spawnThrows m in
  (started.2 = Throw e ->
     (e = MaxSessionsReached (maxSessions env) /\
      countActiveSessions m >= maxSessions env /\ started.1 = m) \/
     (e = SpawnError /\ spawnThrows = true /\
      countActiveSessions m < maxSessions env /\
      exists s,
        heap started.1 = <[nextRef m := s]> (heap m) /\
        sessions started.1 = JsMap.set (sessions m) (id s) (nextRef m) /\
        id s = ("temp_" +:+ JsString.ofNumber now +:+ "_"
                  +:+ randomSuffix)%string /\
        status s = active /\ process s = None /\ pendingQuestion s = None /\
        promises started.1 = promises m /\ timers started.1 = timers m /\
        pendingTimeouts started.1 = pendingTimeouts m /\
        effects started.1 = effects m)) /\
  (said.2 = Throw (StillProcessing sessionId) <->
   exists r s, lookup m sessionId = Some (r, s) /\ process s <> None /\
               status s = active) /\
  (said.2 = Throw (StillProcessing sessionId) -> said.1 = m) /\
  ((respondToQuestion stdinAvailable sessionId questionId answers m).2 =
     Throw e ->
   e <> StdinNotAvailable ->
     (respondToQuestion stdinAvailable sessionId questionId answers m).1 = m) /\
  ((interruptSession sessionId m).2 = Throw e ->
     (interruptSession sessionId m).1 = m).
Proof.
  intros started said. subst started said.
  assert (Hsay :
    (sayToSession env sessionId message imgs now cwd child spawnThrows m).2 =
       Throw (StillProcessing sessionId) ->
    (sayToSession env sessionId message imgs now cwd child spawnThrows m).1
      = m /\
    exists r s, lookup m sessionId = Some (r, s) /\ process s <> None /\
                status s = active).
  { unfold sayToSession, lookup.
    destruct (JsMap.get (sessions m) sessionId) as [r|] eqn:Hget.
    - destruct (heap m !! r) as [s|] eqn:Hr; [|discriminate].
      destruct (isSome (process s) && status_eqb (status s) active) eqn:Hbusy.
      + intros _. split; [reflexivity|]. exists r, s.
        apply andb_true_iff in Hbusy as [Hp Hst].
        split; [reflexivity|]. split.
        * destruct (process s); [discriminate|discriminate Hp].
        * destruct (status s); try discriminate Hst; reflexivity.
      + destruct (resumeSession env r message imgs child spawnThrows m)
          as [m1 [u|e1]] eqn:E; [discriminate|].
        unfold resumeSession in E. destruct (_ >=? _) in E;
          [injection E as <- <-; discriminate|].
        rewrite Hr in E.
        destruct spawnThrows; [injection E as <- <-|]; discriminate.
    - unfold createTrackedSession. cbn [alloc].
      codex_simpl. rewrite lookup_insert_eq.
      cbn [process isSome andb].
      match goal with
      | |- context [resumeSession ?a ?b ?c ?d ?f ?t ?g] =>
          destruct (resumeSession a b c d f t g) as [m1 [u|e1]] eqn:E
      end; [discriminate|].
      unfold resumeSession in E. destruct (_ >=? _) in E;
        [injection E as <- <-; discriminate|].
      revert E. codex_simpl. rewrite lookup_insert_eq.
      destruct spawnThrows; [intros [= <- <-]|]; discriminate. }
  split; [|split; [|split; [|split]]].
  - unfold startSession.
    destruct (Z.geb_spec (countActiveSessions m) (maxSessions env))
      as [Hge|Hlt].
    + cbn [fst snd]. intros [= <-]. left. repeat split. lia.
    + cbn [alloc]. destruct spawnThrows; cbn [fst snd]; [|discriminate].
      intros [= <-]. right. split; [reflexivity|]. split; [reflexivity|].
      split; [exact Hlt|]. eexists. split; [reflexivity|].
      repeat split.
  - split; [intros H; exact (proj2 (Hsay H))|].
    intros (r & s & Hl & Hp & Hst). unfold sayToSession.
    unfold lookup in Hl.
    destruct (JsMap.get (sessions m) sessionId) as [r'|]; [|discriminate].
    destruct (heap m !! r') as [s'|]; [|discriminate].
    injection Hl as -> ->. destruct (process s); [|congruence].
    rewrite Hst. reflexivity.
  - intros H. exact (proj1 (Hsay H)).
  - unfold respondToQuestion.
    destruct (lookup m sessionId) as [[r s]|]; [|intros _ _; reflexivity].
    destruct (pendingQuestion s) as [q|]; [|intros _ _; reflexivity].
    destruct (negb _); [intros _ _; reflexivity|].
    destruct (process s) as [p|].
    + unfold sendApprovalResponse. destruct stdinAvailable; cbn [fst snd].
      * discriminate.
      * intros [= <-] Hne. now contradiction Hne.
    + discriminate.
  - unfold interruptSession.
    destruct (lookup m sessionId) as [[r s]|]; [|intros _; reflexivity].
    destruct (process s); [discriminate|intros _; reflexivity].
Qed.

Lemma codex_rejected_call_changes_nothing_witness :
  (sayToSession Fixture.codexEnvOne "thread-1" "again" None 2 "/work" 22%nat
     false Fixture.codexBusy).1 = Fixture.codexBusy /\
  (interruptSession "nobody" Fixture.codexBusy).1 = Fixture.codexBusy.
Proof.
  split.
  - exact (proj1 (proj2 (proj2 (codex_rejected_call_changes_nothing
             Fixture.codexEnvOne 2 "/work" "x" 22%nat false
             {| start_prompt := ""; start_workingDirectory := None;
                start_model := None; start_approvalPolicy := None;
                start_sandbox := None; start_fullAuto := None;
                start_profile := None; start_config := None;
                start_baseInstructions := None; start_images := None;
                start_skipGitRepoCheck := None;
                start_dangerouslyBypassApprovalsAndSandbox := None |}
             "thread-1" "again" "" None [] true Fixture.codexBusy
             (StillProcessing "thread-1")))) eq_refl).
  - exact (proj2 (proj2 (proj2 (proj2 (codex_rejected_call_changes_nothing
             Fixture.codexEnvOne 2 "/work" "x" 22%nat false
             {| start_prompt := ""; start_workingDirectory := None;
                start_model := None; start_approvalPolicy := None;
                start_sandbox := None; start_fullAuto := None;
                start_profile := None; start_config := None;
                start_baseInstructions := None; start_images := None;
                start_skipGitRepoCheck := None;
                start_dangerouslyBypassApprovalsAndSandbox := None |}
             "nobody" "again" "" None [] true Fixture.codexBusy
             (UnknownSession "nobody"))))) eq_refl).
Defined.

End CodexRejectedFacts.
